(** * Thread directory and message-history store of the local runtime

    A shallow embedding of
    - [packages/react/src/runtimes/local/LocalStorageHistoryAdapter.ts] and
    - [packages/react/src/runtimes/local/LocalThreadListRuntimeCore.tsx],
    with the browser facilities they call ([localStorage], [JSON], [Date],
    [console]) modelled as far as the two files observe them.

    Conventions.
    - A method that mutates [this] or the browser is a function from the state
      before the call to an outcome and the state after it.  A [throw] (a
      rejected promise, for the [async] methods) keeps every mutation made
      before it, as in JavaScript.
    - Arrays are lists: [push] appends, [unshift] conses, [filter] filters,
      [splice(i, 1)] deletes position [i].  Objects used as dictionaries are
      [gmap]s, in which a missing key reads as [undefined].  The source's
      dictionaries are plain objects, which read so at every key but the
      names of the members of [Object.prototype] ([inherited]): the
      directory is modelled for the thread ids that are no such name, and
      the theorems that depend on it carry this as a hypothesis.
    - [await] is sequencing: no other task runs between two steps of a
      method. *)

From Stdlib Require Import ZArith Lia Ascii.
From stdpp Require Import gmap strings list fin_maps pretty.

Local Open Scope string_scope.
Local Open Scope list_scope.

(** ** Outcomes and exceptions *)

(** What [localStorage.setItem] throws.  [QuotaExceededError] is the capacity
    failure; [SecurityError] stands for any other refusal of the medium. *)
Inductive DOMException : Type :=
| QuotaExceededError
| SecurityError.

(** The source throws plain [Error] objects.  A constructor names the category
    the specification gives to the throw site and carries the message;
    [DOM] is an exception raised by the storage medium itself. *)
Inductive Exception : Type :=
| InvalidOperation (message : string)
| NotFound (message : string)
| FatalInconsistency (message : string)
| InvalidArgument (message : string)
| DOM (e : DOMException).

Inductive Outcome (A : Type) : Type :=
| Returned (a : A)
| Thrown (e : Exception).
Arguments Returned {A} a.
Arguments Thrown {A} e.

(** ** JavaScript values *)

(** The values a message can hold.  Numbers are the integral ones; [DateV t]
    is a [Date] object whose time value is [t] milliseconds since the epoch,
    [DateV None] being the invalid date.  An object is its list of own
    properties in insertion order. *)
#[warnings="-register-all"]
Inductive value : Type :=
| Undefined
| Null
| Bool (b : bool)
| Num (n : Z)
| Str (s : string)
| DateV (t : option Z)
| Arr (items : list value)
| Obj (props : list (string * value)).

(** The range of time values a [Date] can hold (ECMAScript's TimeClip). *)
Definition valid_time (t : Z) : bool :=
  (Z.abs t <=? 8640000000000000)%Z.

(** The text form of dates.  [Date.prototype.toISOString] and the parser behind
    [new Date(text)] are the engine's; the embedding uses what ECMAScript
    guarantees of them: parsing the ISO text of a valid time value gives that
    time value back, and the empty text is no date. *)
Class DateText : Type := {
  toISOString : Z → string;
  Date_parse : string → option Z;
  Date_parse_toISOString :
    ∀ t, valid_time t = true → Date_parse (toISOString t) = Some t;
  Date_parse_empty : Date_parse "" = None
}.

(** A thread's record, [Omit<ThreadListItemCoreState, "runtime">] as this
    file writes it.
    Modelled from the spec: the declaration of [ThreadListItemCoreState] is
    not among the sources; the fields are those of the specification's
    ThreadRecord, which are the ones the source reads and writes. *)
Inductive Status : Type :=
| Regular
| Archived.

Record Metadata : Type := {
  threadId : string;
  status : Status;
  title : string
}.

#[global] Instance Status_eq_dec : EqDecision Status.
Proof. solve_decision. Defined.
#[global] Instance Metadata_eq_dec : EqDecision Metadata.
Proof. solve_decision. Defined.

(** ** The storage medium *)

(** A stored string as [JSON.parse] sees it: the text of a JSON document, or a
    text that [JSON.parse] rejects.  [NotJson ""] is the empty string. *)
Inductive Text : Type :=
| Json (doc : value)
| NotJson (s : string).

(** [localStorage].  The four directory entries are kept under their keys,
    typed as [saveThreadsToLocalStorage] writes them; [items] holds every
    other key (the history keys begin with [assistant-], the directory keys
    with [assistant_], so the two never meet).  [faults] is the medium's
    answer to the coming writes, oldest first: [Some e] refuses the write with
    [e], [None] accepts it, and writes after the list is used up are
    accepted. *)
Record LocalStorage : Type := {
  assistant_mainThreadId : option string;
  assistant_threadIds : option (list string);
  assistant_archivedThreadIds : option (list string);
  assistant_threadMetadata : option (gmap string Metadata);
  items : gmap string Text;
  faults : list (option DOMException)
}.

Definition with_faults (f : list (option DOMException)) (ls : LocalStorage)
  : LocalStorage :=
  {| assistant_mainThreadId := assistant_mainThreadId ls;
     assistant_threadIds := assistant_threadIds ls;
     assistant_archivedThreadIds := assistant_archivedThreadIds ls;
     assistant_threadMetadata := assistant_threadMetadata ls;
     items := items ls;
     faults := f |}.

Definition with_items (m : gmap string Text) (ls : LocalStorage)
  : LocalStorage :=
  {| assistant_mainThreadId := assistant_mainThreadId ls;
     assistant_threadIds := assistant_threadIds ls;
     assistant_archivedThreadIds := assistant_archivedThreadIds ls;
     assistant_threadMetadata := assistant_threadMetadata ls;
     items := m;
     faults := faults ls |}.

Definition store_mainThreadId (v : string) (ls : LocalStorage) : LocalStorage :=
  {| assistant_mainThreadId := Some v;
     assistant_threadIds := assistant_threadIds ls;
     assistant_archivedThreadIds := assistant_archivedThreadIds ls;
     assistant_threadMetadata := assistant_threadMetadata ls;
     items := items ls;
     faults := faults ls |}.

Definition store_threadIds (v : list string) (ls : LocalStorage) : LocalStorage :=
  {| assistant_mainThreadId := assistant_mainThreadId ls;
     assistant_threadIds := Some v;
     assistant_archivedThreadIds := assistant_archivedThreadIds ls;
     assistant_threadMetadata := assistant_threadMetadata ls;
     items := items ls;
     faults := faults ls |}.

Definition store_archivedThreadIds (v : list string) (ls : LocalStorage)
  : LocalStorage :=
  {| assistant_mainThreadId := assistant_mainThreadId ls;
     assistant_threadIds := assistant_threadIds ls;
     assistant_archivedThreadIds := Some v;
     assistant_threadMetadata := assistant_threadMetadata ls;
     items := items ls;
     faults := faults ls |}.

Definition store_threadMetadata (v : gmap string Metadata) (ls : LocalStorage)
  : LocalStorage :=
  {| assistant_mainThreadId := assistant_mainThreadId ls;
     assistant_threadIds := assistant_threadIds ls;
     assistant_archivedThreadIds := assistant_archivedThreadIds ls;
     assistant_threadMetadata := Some v;
     items := items ls;
     faults := faults ls |}.

(** [localStorage.setItem]: the medium answers first; an accepted write stores,
    a refused one throws and stores nothing. *)
Definition setItem (store : LocalStorage → LocalStorage) (ls : LocalStorage)
  : Outcome unit * LocalStorage :=
  match faults ls with
  | Some e :: rest => (Thrown (DOM e), with_faults rest ls)
  | _ => (Returned tt, store (with_faults (tail (faults ls)) ls))
  end.

(** [localStorage.removeItem(key)] for a key outside the directory entries. *)
Definition removeItem (key : string) (ls : LocalStorage) : LocalStorage :=
  with_items (delete key (items ls)) ls.

(** The medium accepts the next write. *)
Definition accepts_next (ls : LocalStorage) : bool :=
  match faults ls with
  | Some _ :: _ => false
  | _ => true
  end.

(** The medium accepts every coming write. *)
Definition reliable (ls : LocalStorage) : bool :=
  forallb (λ f, match f with None => true | Some _ => false end) (faults ls).

(** A medium that holds nothing. *)
Definition empty_storage (f : list (option DOMException)) : LocalStorage :=
  {| assistant_mainThreadId := None;
     assistant_threadIds := None;
     assistant_archivedThreadIds := None;
     assistant_threadMetadata := None;
     items := ∅;
     faults := f |}.

(** ** Properties, spreading and JSON *)

(** [v[k]] for a value that is not [null] or [undefined].  Of strings and
    arrays the adapter only reads names they do not have, hence [Undefined]. *)
Fixpoint lookup_prop (k : string) (ps : list (string * value)) : value :=
  match ps with
  | [] => Undefined
  | (k', v) :: rest => if decide (k' = k) then v else lookup_prop k rest
  end.

Definition prop (v : value) (k : string) : value :=
  match v with
  | Obj ps => lookup_prop k ps
  | _ => Undefined
  end.

(** [{ ...o, k: v }] on the properties of [o]: an existing key keeps its place
    and takes the new value, a new key goes last. *)
Fixpoint set_prop (k : string) (v : value) (ps : list (string * value))
  : list (string * value) :=
  match ps with
  | [] => [(k, v)]
  | (k', v') :: rest =>
      if decide (k' = k) then (k', v) :: rest else (k', v') :: set_prop k v rest
  end.

(** The own enumerable properties [{ ...v }] copies: those of an object, the
    indexed elements of an array, the indexed characters of a string, none of
    another primitive. *)
Definition indexed (l : list value) : list (string * value) :=
  imap (λ i v, (pretty i, v)) l.

Definition spread (v : value) : list (string * value) :=
  match v with
  | Obj ps => ps
  | Arr l => indexed l
  | Str s => indexed ((λ c, Str (String c "")) <$> String.list_ascii_of_string s)
  | _ => []
  end.

(** [JSON.stringify] writes [null] for an array element that serializes to
    nothing, and leaves such a property out of an object. *)
Definition in_array (v : value) : value :=
  match v with
  | Undefined => Null
  | _ => v
  end.

Definition in_object (k : string) (v : value) : option (string * value) :=
  match v with
  | Undefined => None
  | _ => Some (k, v)
  end.

Section Json.
Context `{DateText}.

(** The document [JSON.parse (JSON.stringify v)] denotes: a date goes
    through [toJSON] (its ISO text, or [null] when invalid). *)
Fixpoint jsonify (v : value) : value :=
  match v with
  | DateV (Some t) => Str (toISOString t)
  | DateV None => Null
  | Arr l => Arr (map (λ x, in_array (jsonify x)) l)
  | Obj ps => Obj (omap (λ p, in_object (fst p) (jsonify (snd p))) ps)
  | _ => v
  end.

(** [new Date(text)]. *)
Definition new_Date (text : string) : value := DateV (Date_parse text).
End Json.

(** ** LocalStorageHistoryAdapter.ts *)

(** [ExportedMessageRepository], and the element type of its [messages].
    Modelled from the spec: the declarations of [ExportedMessageRepository]
    and [ThreadMessage] are not among the sources; the fields are those of the
    specification's MessageTree and MessageNode, a message being any value. *)
Record MessageNode : Type := {
  message : value;
  parentId : value
}.

Record ExportedMessageRepository : Type := {
  messages : list MessageNode;
  headId : value
}.

Definition HISTORY_STORAGE_KEY_PREFIX : string := "assistant-thread-".
Definition HISTORY_STORAGE_KEY_SUFFIX : string := "-messages".

Record LocalStorageHistoryAdapter : Type := {
  adapter_threadId : string;
  storageKey : string
}.

(** What the adapter writes with [console.warn] and [console.error]
    ([console.log] lines are not kept). *)
Inductive LogLine : Type :=
| LoadError (threadId : string)
| SaveWithoutData (threadId : string)
| SaveError (threadId : string) (e : Exception)
| QuotaExceededNotice.

(** The part of the browser the adapter acts on. *)
Record Browser : Type := {
  localStorage : LocalStorage;
  console : list LogLine
}.

Definition console_write (l : LogLine) (b : Browser) : Browser :=
  {| localStorage := localStorage b; console := console b ++ [l] |}.

(** [new LocalStorageHistoryAdapter(threadId)]: the empty id is refused. *)
Definition new_LocalStorageHistoryAdapter (threadId : string)
  : Outcome LocalStorageHistoryAdapter :=
  if decide (threadId = "") then
    Thrown (InvalidArgument "LocalStorageHistoryAdapter requires a valid threadId.")
  else
    Returned {| adapter_threadId := threadId;
                storageKey := HISTORY_STORAGE_KEY_PREFIX +:+ threadId
                              +:+ HISTORY_STORAGE_KEY_SUFFIX |}.

Section History.
Context `{DateText}.

(** The callback of [parsedData.messages.map]; [None] is the [TypeError] of
    destructuring [null] or of reading [createdAt] of a missing message. *)
Definition rehydrate (entry : value) : option MessageNode :=
  match entry with
  | Undefined | Null => None
  | _ =>
      let message := prop entry "message" in
      let parentId := prop entry "parentId" in
      match message with
      | Undefined | Null => None
      | _ =>
          let createdAt := prop message "createdAt" in
          let createdAt :=
            match createdAt with
            | Str text => if decide (text = "") then createdAt else new_Date text
            | _ => createdAt
            end in
          Some {| message := Obj (set_prop "createdAt" createdAt (spread message));
                  parentId := parentId |}
      end
  end.

(** The [try] block of [load] once [JSON.parse] has answered; [None] is an
    exception on the way. *)
Definition rehydrate_history (parsedData : value)
  : option ExportedMessageRepository :=
  match parsedData with
  | Undefined | Null => None
  | _ =>
      match prop parsedData "messages" with
      | Arr entries =>
          rehydratedMessages ← mapM rehydrate entries;
          Some {| messages := rehydratedMessages;
                  headId := prop parsedData "headId" |}
      | _ => None
      end
  end.

(** [load()]: [None] is [null]. *)
Definition load (this : LocalStorageHistoryAdapter) (b : Browser)
  : Outcome (option ExportedMessageRepository) * Browser :=
  match items (localStorage b) !! storageKey this with
  | None | Some (NotJson "") => (Returned None, b)
  | Some (NotJson _) =>
      (Returned None, console_write (LoadError (adapter_threadId this)) b)
  | Some (Json parsedData) =>
      match rehydrate_history parsedData with
      | Some finalData => (Returned (Some finalData), b)
      | None =>
          (Returned None, console_write (LoadError (adapter_threadId this)) b)
      end
  end.

(** [append(change)] and [update(message)] only write a [console.log] line. *)
Definition append (this : LocalStorageHistoryAdapter) (change : MessageNode)
    (b : Browser) : Outcome unit * Browser :=
  (Returned tt, b).

Definition update (this : LocalStorageHistoryAdapter) (message : value)
    (b : Browser) : Outcome unit * Browser :=
  (Returned tt, b).

(** [JSON.stringify(dataToStore)] as the document it denotes. *)
Definition serialize (repositoryData : ExportedMessageRepository) : value :=
  jsonify
    (Obj [("messages",
           Arr ((λ n, Obj [("message", message n); ("parentId", parentId n)])
                  <$> messages repositoryData));
          ("headId", headId repositoryData)]).

(** [saveFullHistory(repositoryData?)]. *)
Definition saveFullHistory (this : LocalStorageHistoryAdapter)
    (repositoryData : option ExportedMessageRepository) (b : Browser)
  : Outcome unit * Browser :=
  match repositoryData with
  | None => (Returned tt, console_write (SaveWithoutData (adapter_threadId this)) b)
  | Some repositoryData =>
      let serializedData := Json (serialize repositoryData) in
      let store ls := with_items (<[storageKey this := serializedData]> (items ls)) ls in
      match setItem store (localStorage b) with
      | (Returned _, ls) =>
          (Returned tt, {| localStorage := ls; console := console b |})
      | (Thrown error, ls) =>
          (Returned tt,
           {| localStorage := ls;
              console := console b
                ++ SaveError (adapter_threadId this) error
                :: match error with
                   | DOM QuotaExceededError => [QuotaExceededNotice]
                   | _ => []
                   end |})
      end
  end.
End History.

(** ** LocalThreadListRuntimeCore.tsx *)

Definition DEFAULT_THREAD_ID : string := "__DEFAULT_ID__".

Definition DEFAULT_THREAD_METADATA : Metadata :=
  {| threadId := DEFAULT_THREAD_ID; status := Regular; title := "Default Thread" |}.

(** The object the thread factory returns.  The factory is the caller's; it is
    taken to return a new object at every call, told apart by [serial], the
    number of objects it had made before, and to leave the directory alone. *)
Record LocalThreadRuntimeCore : Type := {
  runtime_threadId : string;
  runtime_history : LocalStorageHistoryAdapter;
  serial : nat
}.

(** The fields of a [LocalThreadListRuntimeCore], with what its methods act on
    besides: [localStorage], the calls made to the thread factory (the thread
    ids, oldest first) and the number of times the subscribers were
    notified. *)
Record Core : Type := {
  _mainThreadId : string;
  _threadIds : list string;
  _archivedThreadIds : list string;
  _threadMetadata : gmap string Metadata;
  _threadRuntimeInstances : gmap string LocalThreadRuntimeCore;
  factoryCalls : list string;
  storage : LocalStorage;
  notifications : nat
}.

Definition set_mainThreadId (v : string) (c : Core) : Core :=
  {| _mainThreadId := v;
     _threadIds := _threadIds c;
     _archivedThreadIds := _archivedThreadIds c;
     _threadMetadata := _threadMetadata c;
     _threadRuntimeInstances := _threadRuntimeInstances c;
     factoryCalls := factoryCalls c;
     storage := storage c;
     notifications := notifications c |}.

Definition set_threadIds (v : list string) (c : Core) : Core :=
  {| _mainThreadId := _mainThreadId c;
     _threadIds := v;
     _archivedThreadIds := _archivedThreadIds c;
     _threadMetadata := _threadMetadata c;
     _threadRuntimeInstances := _threadRuntimeInstances c;
     factoryCalls := factoryCalls c;
     storage := storage c;
     notifications := notifications c |}.

Definition set_archivedThreadIds (v : list string) (c : Core) : Core :=
  {| _mainThreadId := _mainThreadId c;
     _threadIds := _threadIds c;
     _archivedThreadIds := v;
     _threadMetadata := _threadMetadata c;
     _threadRuntimeInstances := _threadRuntimeInstances c;
     factoryCalls := factoryCalls c;
     storage := storage c;
     notifications := notifications c |}.

Definition set_threadMetadata (v : gmap string Metadata) (c : Core) : Core :=
  {| _mainThreadId := _mainThreadId c;
     _threadIds := _threadIds c;
     _archivedThreadIds := _archivedThreadIds c;
     _threadMetadata := v;
     _threadRuntimeInstances := _threadRuntimeInstances c;
     factoryCalls := factoryCalls c;
     storage := storage c;
     notifications := notifications c |}.

Definition set_storage (v : LocalStorage) (c : Core) : Core :=
  {| _mainThreadId := _mainThreadId c;
     _threadIds := _threadIds c;
     _archivedThreadIds := _archivedThreadIds c;
     _threadMetadata := _threadMetadata c;
     _threadRuntimeInstances := _threadRuntimeInstances c;
     factoryCalls := factoryCalls c;
     storage := v;
     notifications := notifications c |}.

(** The method monad: state in, outcome and state out. *)
Definition M (A : Type) : Type := Core → Outcome A * Core.

#[global] Instance M_ret : MRet M := λ A a c, (Returned a, c).

#[global] Instance M_bind : MBind M := λ A B f m c,
  match m c with
  | (Returned a, c') => f a c'
  | (Thrown e, c') => (Thrown e, c')
  end.

Definition throw {A : Type} (e : Exception) : M A := λ c, (Thrown e, c).
Definition gets {A : Type} (f : Core → A) : M A := λ c, (Returned (f c), c).
Definition modify (f : Core → Core) : M unit := λ c, (Returned tt, f c).

(** [array.includes(x)]. *)
Definition includes (x : string) (l : list string) : bool := bool_decide (x ∈ l).

(** [array.filter(id => id !== x)]. *)
Definition without (x : string) (l : list string) : list string :=
  filter (λ id, id ≠ x) l.

(** [array.indexOf(x)]; [None] is [-1]. *)
Definition indexOf (x : string) (l : list string) : option nat :=
  fst <$> list_find (λ y, y = x) l.

(** [loadThreadsFromLocalStorage()], and the object once the constructor has
    copied the four loaded fields: an absent entry, and an empty main id,
    give the default.  The entries are read as typed: each is absent or holds
    what [saveThreadsToLocalStorage] writes; an entry that [JSON.parse]
    refuses, or that parses to a value of another shape, is outside the
    model. *)
Definition load_mainThreadId (ls : LocalStorage) : string :=
  match assistant_mainThreadId ls with
  | Some id => if decide (id = "") then DEFAULT_THREAD_ID else id
  | None => DEFAULT_THREAD_ID
  end.

Definition loadThreadsFromLocalStorage (ls : LocalStorage) : Core :=
  {| _mainThreadId := load_mainThreadId ls;
     _threadIds := default [DEFAULT_THREAD_ID] (assistant_threadIds ls);
     _archivedThreadIds := default [] (assistant_archivedThreadIds ls);
     _threadMetadata := default ∅ (assistant_threadMetadata ls);
     _threadRuntimeInstances := ∅;
     factoryCalls := [];
     storage := ls;
     notifications := 0 |}.

(** [saveThreadsToLocalStorage(state)]: four writes, in this order; a refused
    write throws and leaves the later ones undone. *)
Definition saveThreadsToLocalStorage (c : Core) (ls : LocalStorage)
  : Outcome unit * LocalStorage :=
  match setItem (store_mainThreadId (_mainThreadId c)) ls with
  | (Thrown e, ls) => (Thrown e, ls)
  | (Returned _, ls) =>
  match setItem (store_threadIds (_threadIds c)) ls with
  | (Thrown e, ls) => (Thrown e, ls)
  | (Returned _, ls) =>
  match setItem (store_archivedThreadIds (_archivedThreadIds c)) ls with
  | (Thrown e, ls) => (Thrown e, ls)
  | (Returned _, ls) =>
      setItem (store_threadMetadata (_threadMetadata c)) ls
  end end end.

(** [_notifySubscribers()], of [BaseSubscribable]: counted. *)
Definition _notifySubscribers : M unit := modify (λ c,
  {| _mainThreadId := _mainThreadId c;
     _threadIds := _threadIds c;
     _archivedThreadIds := _archivedThreadIds c;
     _threadMetadata := _threadMetadata c;
     _threadRuntimeInstances := _threadRuntimeInstances c;
     factoryCalls := factoryCalls c;
     storage := storage c;
     notifications := S (notifications c) |}).

Definition persistState : M unit :=
  (λ c, match saveThreadsToLocalStorage c (storage c) with
        | (o, ls) => (o, set_storage ls c)
        end) ;;
  _notifySubscribers.

(** The names a plain object inherits from [Object.prototype].  Read at one
    of them, a dictionary that has no entry of its own under the name gives
    the inherited member, which is truthy, where it gives [undefined] at
    every other missing key. *)
Definition Object_prototype_names : list string :=
  ["constructor"; "__defineGetter__"; "__defineSetter__"; "hasOwnProperty";
   "__lookupGetter__"; "__lookupSetter__"; "isPrototypeOf";
   "propertyIsEnumerable"; "toString"; "valueOf"; "__proto__";
   "toLocaleString"].

Definition inherited (id : string) : bool :=
  existsb (String.eqb id) Object_prototype_names.

(** [this._threadMetadata[threadId]] read as a condition, for a [threadId]
    that is not [inherited]. *)
Definition has_metadata (threadId : string) (c : Core) : bool :=
  match _threadMetadata c !! threadId with
  | Some _ => true
  | None => false
  end.

Definition unshift_threadId (threadId : string) : M unit :=
  modify (λ c, set_threadIds (threadId :: _threadIds c) c).

Definition push_threadId (threadId : string) : M unit :=
  modify (λ c, set_threadIds (_threadIds c ++ [threadId]) c).

Definition put_metadata (threadId : string) (m : Metadata) : M unit :=
  modify (λ c, set_threadMetadata (<[threadId := m]> (_threadMetadata c)) c).

Definition when (b : bool) (m : M unit) : M unit :=
  if b then m else mret tt.

(** The constructor, after the four fields are loaded (lines 84 to 100). *)
Definition repair_loaded_state : M unit :=
  default_known ← gets (has_metadata DEFAULT_THREAD_ID);
  default_listed ← gets (λ c, includes DEFAULT_THREAD_ID (_threadIds c));
  if negb default_known && negb default_listed then
    listed ← gets (λ c, includes DEFAULT_THREAD_ID (_threadIds c));
    when (negb listed) (unshift_threadId DEFAULT_THREAD_ID) ;;
    put_metadata DEFAULT_THREAD_ID DEFAULT_THREAD_METADATA ;;
    modify (set_mainThreadId DEFAULT_THREAD_ID) ;;
    persistState
  else
    main_known ← gets (λ c, has_metadata (_mainThreadId c) c);
    if negb main_known then
      modify (set_mainThreadId DEFAULT_THREAD_ID) ;;
      listed ← gets (λ c, includes DEFAULT_THREAD_ID (_threadIds c));
      when (negb listed)
        (unshift_threadId DEFAULT_THREAD_ID ;;
         put_metadata DEFAULT_THREAD_ID DEFAULT_THREAD_METADATA) ;;
      persistState
    else mret tt.

(** [new LocalThreadListRuntimeCore(threadFactory, baseOptions)] in a browser
    whose [localStorage] is [ls].  When the outcome is [Thrown] no object
    exists; the state then only tells what became of the storage. *)
Definition new_LocalThreadListRuntimeCore (ls : LocalStorage)
  : Outcome unit * Core :=
  repair_loaded_state (loadThreadsFromLocalStorage ls).

(** [getOrCreateThreadRuntime(threadId)]. *)
Definition threadFactory (threadId : string)
    (history : LocalStorageHistoryAdapter) : M LocalThreadRuntimeCore := λ c,
  (Returned {| runtime_threadId := threadId;
               runtime_history := history;
               serial := length (factoryCalls c) |},
   {| _mainThreadId := _mainThreadId c;
      _threadIds := _threadIds c;
      _archivedThreadIds := _archivedThreadIds c;
      _threadMetadata := _threadMetadata c;
      _threadRuntimeInstances := _threadRuntimeInstances c;
      factoryCalls := factoryCalls c ++ [threadId];
      storage := storage c;
      notifications := notifications c |}).

Definition put_runtime (threadId : string) (r : LocalThreadRuntimeCore) : M unit :=
  modify (λ c,
  {| _mainThreadId := _mainThreadId c;
     _threadIds := _threadIds c;
     _archivedThreadIds := _archivedThreadIds c;
     _threadMetadata := _threadMetadata c;
     _threadRuntimeInstances := <[threadId := r]> (_threadRuntimeInstances c);
     factoryCalls := factoryCalls c;
     storage := storage c;
     notifications := notifications c |}).

Definition lift {A : Type} (o : Outcome A) : M A := λ c, (o, c).

(** The registry is read by lookup, as the source reads it for a [threadId]
    that is not [inherited]. *)
Definition getOrCreateThreadRuntime (threadId : string)
  : M LocalThreadRuntimeCore :=
  instance ← gets (λ c, _threadRuntimeInstances c !! threadId);
  match instance with
  | Some runtime => mret runtime
  | None =>
      known ← gets (has_metadata threadId);
      when (negb known)
        (if decide (threadId = DEFAULT_THREAD_ID) then
           put_metadata DEFAULT_THREAD_ID DEFAULT_THREAD_METADATA ;;
           listed ← gets (λ c, includes DEFAULT_THREAD_ID (_threadIds c));
           when (negb listed) (unshift_threadId DEFAULT_THREAD_ID) ;;
           persistState
         else
           modify (λ c, set_threadIds (without threadId (_threadIds c)) c) ;;
           modify (λ c, set_archivedThreadIds
                          (without threadId (_archivedThreadIds c)) c) ;;
           persistState ;;
           throw (FatalInconsistency
                    ("Cannot create runtime for thread " +:+ threadId
                     +:+ ": Missing metadata and not default thread."))) ;;
      history ← lift (new_LocalStorageHistoryAdapter threadId);
      runtime ← threadFactory threadId history;
      put_runtime threadId runtime ;;
      mret runtime
  end.

Definition getMainThreadRuntimeCore : M LocalThreadRuntimeCore :=
  main ← gets _mainThreadId;
  getOrCreateThreadRuntime main.

(** The getters [threadIds] and [archivedThreadIds]. *)
Definition dedupe (finalIds : list string) : list string :=
  fold_left (λ uniqueIds id,
               if includes id uniqueIds then uniqueIds else uniqueIds ++ [id])
            finalIds [].

Definition threadIds (c : Core) : list string :=
  let regularIds :=
    filter (λ id, includes id (_archivedThreadIds c) = false ∧ id ≠ _mainThreadId c)
           (_threadIds c) in
  let finalIds := _mainThreadId c :: regularIds in
  dedupe finalIds.

Definition archivedThreadIds (c : Core) : list string :=
  _archivedThreadIds c.

(** The getter [mainThreadId], which repairs a main id without a record. *)
Definition mainThreadId : M string :=
  main_known ← gets (λ c, has_metadata (_mainThreadId c) c);
  when (negb main_known)
    (modify (set_mainThreadId DEFAULT_THREAD_ID) ;;
     default_known ← gets (has_metadata DEFAULT_THREAD_ID);
     when (negb default_known)
       (put_metadata DEFAULT_THREAD_ID DEFAULT_THREAD_METADATA) ;;
     listed ← gets (λ c, includes DEFAULT_THREAD_ID (_threadIds c));
     when (negb listed) (unshift_threadId DEFAULT_THREAD_ID) ;;
     modify (λ c, set_archivedThreadIds
                    (without DEFAULT_THREAD_ID (_archivedThreadIds c)) c) ;;
     persistState) ;;
  gets _mainThreadId.

Definition getThreadRuntimeCore (threadId : string) : M LocalThreadRuntimeCore :=
  known ← gets (has_metadata threadId);
  if negb known then
    throw (NotFound ("Thread with ID " +:+ threadId +:+ " not found."))
  else getOrCreateThreadRuntime threadId.

(** [getItemById(threadId)]: the record with [runtime: undefined]. *)
Definition getItemById (threadId : string) (c : Core)
  : option (Metadata * option LocalThreadRuntimeCore) :=
  metadata ← _threadMetadata c !! threadId;
  Some (metadata, None).

Definition with_status (s : Status) (m : Metadata) : Metadata :=
  {| threadId := threadId m; status := s; title := title m |}.

Definition with_title (t : string) (m : Metadata) : Metadata :=
  {| threadId := threadId m; status := status m; title := t |}.

Definition rename (threadId newTitle : string) : M unit :=
  metadata ← gets (λ c, _threadMetadata c !! threadId);
  match metadata with
  | None => throw (NotFound ("Thread " +:+ threadId +:+ " not found, cannot rename."))
  | Some metadata =>
      put_metadata threadId (with_title newTitle metadata) ;;
      persistState
  end.

Definition archive (threadId : string) : M unit :=
  main ← gets _mainThreadId;
  if decide (threadId = main) then
    throw (InvalidOperation
             "Cannot archive the main thread. Switch to another thread first.")
  else
    metadata ← gets (λ c, _threadMetadata c !! threadId);
    match metadata with
    | None =>
        throw (NotFound ("Thread " +:+ threadId +:+ " not found, cannot archive."))
    | Some metadata =>
        already ← gets (λ c, includes threadId (_archivedThreadIds c));
        if already : bool then mret tt
        else
          put_metadata threadId (with_status Archived metadata) ;;
          modify (λ c, set_threadIds (without threadId (_threadIds c)) c) ;;
          modify (λ c, set_archivedThreadIds (_archivedThreadIds c ++ [threadId]) c) ;;
          persistState
    end.

Definition unarchive (threadId : string) : M unit :=
  metadata ← gets (λ c, _threadMetadata c !! threadId);
  match metadata with
  | None =>
      throw (NotFound ("Thread " +:+ threadId +:+ " not found, cannot unarchive."))
  | Some metadata =>
      index ← gets (λ c, indexOf threadId (_archivedThreadIds c));
      match index with
      | None => mret tt
      | Some index =>
          put_metadata threadId (with_status Regular metadata) ;;
          modify (λ c, set_archivedThreadIds (delete index (_archivedThreadIds c)) c) ;;
          listed ← gets (λ c, includes threadId (_threadIds c));
          when (negb listed) (push_threadId threadId) ;;
          persistState
      end
  end.

Definition switchToThread (threadId : string) : M unit :=
  main ← gets _mainThreadId;
  if decide (main = threadId) then mret tt
  else
    known ← gets (has_metadata threadId);
    if negb known then
      throw (NotFound ("Thread " +:+ threadId +:+ " not found, cannot switch."))
    else
      is_archived ← gets (λ c, includes threadId (_archivedThreadIds c));
      when is_archived (unarchive threadId) ;;
      modify (set_mainThreadId threadId) ;;
      getOrCreateThreadRuntime threadId ;;
      persistState.

Definition delete_thread (threadId : string) : M unit :=
  main ← gets _mainThreadId;
  if decide (threadId = main) then
    throw (InvalidOperation
             "Cannot delete the main thread. Switch to another thread first.")
  else
    known ← gets (has_metadata threadId);
    if negb known then mret tt
    else
      modify (λ c, set_threadMetadata (delete threadId (_threadMetadata c)) c) ;;
      modify (λ c, set_threadIds (without threadId (_threadIds c)) c) ;;
      modify (λ c, set_archivedThreadIds
                     (without threadId (_archivedThreadIds c)) c) ;;
      modify (λ c, set_storage
                     (removeItem ("assistant-thread-" +:+ threadId +:+ "-messages")
                                 (storage c)) c) ;;
      persistState.

Record InitializeResult : Type := {
  remoteId : string;
  externalId : option string
}.

Definition initialize (threadId : string) : M InitializeResult :=
  known ← gets (has_metadata threadId);
  if known : bool then mret {| remoteId := threadId; externalId := None |}
  else
    put_metadata threadId
      {| threadId := threadId; status := Regular; title := "New Thread" |} ;;
    listed ← gets (λ c, includes threadId (_threadIds c));
    when (negb listed) (push_threadId threadId) ;;
    modify (λ c, set_archivedThreadIds
                   (without threadId (_archivedThreadIds c)) c) ;;
    persistState ;;
    mret {| remoteId := threadId; externalId := None |}.

(** [switchToNewThread()]; [newThreadId] is what [generateId()] returned. *)
Definition switchToNewThread (newThreadId : string) : M unit :=
  initialize newThreadId ;;
  modify (set_mainThreadId newThreadId) ;;
  getOrCreateThreadRuntime newThreadId ;;
  persistState.

(** [threadId.substring(0, 5)] counts UTF-16 code units and
    [String.substring] bytes: they give the same text when the first five
    bytes of [threadId] are ASCII characters. *)
Definition generateTitle (threadId : string) : M unit :=
  metadata ← gets (λ c, _threadMetadata c !! threadId);
  match metadata with
  | None =>
      throw (NotFound ("Thread " +:+ threadId +:+ " not found, cannot generate title."))
  | Some metadata =>
      let currentTitle := title metadata in
      if bool_decide (currentTitle = "" ∨ currentTitle = "New Thread") then
        rename threadId ("Thread " +:+ String.substring 0 5 threadId)
      else mret tt
  end.

(** ** An engine's date text: the ISO format of ECMAScript *)

(** One engine: [iso_text] writes a time value as
    [YYYY-MM-DDTHH:mm:ss.sssZ] (with a sign and six digits for a year outside
    0 to 9999), [parse_iso_text] reads that format and nothing else.  What is
    proved of the adapter holds for every engine that keeps the contract of
    [DateText]; this one shows that the contract can be kept, and runs the
    examples. *)

Section IsoText.
Local Open Scope Z_scope.

(** The first day of year [y] of a 400-year era that begins on March 1 of
    a year divisible by 400. *)
Definition year_start (y : Z) : Z := 365 * y + y / 4 - y / 100 + y / 400.

(** Days since the epoch to year, month and day of the proleptic Gregorian
    calendar, and back. *)
Definition civil_from_days (z : Z) : Z * Z * Z :=
  let z := z + 719468 in
  let era := z / 146097 in
  let doe := z mod 146097 in
  let guess := doe / 366 in
  let yoe := if year_start (guess + 1) <=? doe then guess + 1 else guess in
  let doy := doe - year_start yoe in
  let mp := (5 * doy + 2) / 153 in
  let d := doy - (153 * mp + 2) / 5 + 1 in
  let m := if mp <? 10 then mp + 3 else mp - 9 in
  (if m <=? 2 then yoe + era * 400 + 1 else yoe + era * 400, m, d).

Definition days_from_civil (y m d : Z) : Z :=
  let y := if m <=? 2 then y - 1 else y in
  let era := y / 400 in
  let yoe := y mod 400 in
  let doy := (153 * (if 2 <? m then m - 3 else m + 9) + 2) / 5 + d - 1 in
  era * 146097 + year_start yoe + doy - 719468.

(** Decimal digits, most significant first. *)
Definition digit (n : Z) : ascii := ascii_of_nat (48 + Z.to_nat n).

Definition digit_value (c : ascii) : option Z :=
  let n := Z.of_nat (nat_of_ascii c) in
  if (48 <=? n) && (n <=? 57) then Some (n - 48) else None.

Fixpoint digits (w : nat) (n : Z) : list ascii :=
  match w with
  | O => []
  | S w' => digit (n / 10 ^ Z.of_nat w') :: digits w' (n mod 10 ^ Z.of_nat w')
  end.

Fixpoint read_number (w : nat) (acc : Z) (l : list ascii)
  : option (Z * list ascii) :=
  match w with
  | O => Some (acc, l)
  | S w' =>
      match l with
      | c :: l' => d ← digit_value c; read_number w' (acc * 10 + d) l'
      | [] => None
      end
  end.

Definition expect (c : ascii) (l : list ascii) : option (list ascii) :=
  match l with
  | c' :: l' => if decide (c' = c) then Some l' else None
  | [] => None
  end.

(** Years 0 to 9999 take four digits, the others a sign and six. *)
Definition year_text (y : Z) : list ascii :=
  if (0 <=? y) && (y <=? 9999) then digits 4 y
  else (if y <? 0 then "-"%char else "+"%char) :: digits 6 (Z.abs y).

Definition read_year (l : list ascii) : option (Z * list ascii) :=
  match l with
  | c :: l' =>
      if decide (c = "+"%char) then read_number 6 0 l'
      else if decide (c = "-"%char) then
        '(y, rest) ← read_number 6 0 l'; Some (- y, rest)
      else read_number 4 0 l
  | [] => None
  end.

Definition ms_per_day : Z := 86400000.

Definition iso_text (t : Z) : string :=
  let '(y, m, d) := civil_from_days (t / ms_per_day) in
  let ms := t mod ms_per_day in
  String.string_of_list_ascii
    (year_text y ++ "-"%char :: digits 2 m ++ "-"%char :: digits 2 d
     ++ "T"%char :: digits 2 (ms / 3600000)
     ++ ":"%char :: digits 2 (ms / 60000 mod 60)
     ++ ":"%char :: digits 2 (ms / 1000 mod 60)
     ++ "."%char :: digits 3 (ms mod 1000) ++ ["Z"%char]).

Definition parse_iso_text (text : string) : option Z :=
  '(y, l) ← read_year (String.list_ascii_of_string text);
  l ← expect "-"%char l;
  '(m, l) ← read_number 2 0 l;
  l ← expect "-"%char l;
  '(d, l) ← read_number 2 0 l;
  l ← expect "T"%char l;
  '(h, l) ← read_number 2 0 l;
  l ← expect ":"%char l;
  '(mi, l) ← read_number 2 0 l;
  l ← expect ":"%char l;
  '(s, l) ← read_number 2 0 l;
  l ← expect "."%char l;
  '(ms, l) ← read_number 3 0 l;
  l ← expect "Z"%char l;
  let t := days_from_civil y m d * ms_per_day
           + ((h * 60 + mi) * 60 + s) * 1000 + ms in
  match l with
  | [] =>
      if (1 <=? m) && (m <=? 12) && (1 <=? d) && (d <=? 31) && (h <? 24)
         && (mi <? 60) && (s <? 60) && valid_time t
      then Some t else None
  | _ => None
  end.
End IsoText.

(** * Vocabulary of the properties *)

(** ** Persisting the directory *)

(** What [localStorage] holds of the directory is what [c] holds in memory. *)
Definition persisted (c : Core) (ls : LocalStorage) : Prop :=
  assistant_mainThreadId ls = Some (_mainThreadId c)
  ∧ assistant_threadIds ls = Some (_threadIds c)
  ∧ assistant_archivedThreadIds ls = Some (_archivedThreadIds c)
  ∧ assistant_threadMetadata ls = Some (_threadMetadata c).

(** The fields of the object itself. *)
Definition memory (c : Core) :=
  (_mainThreadId c, _threadIds c, _archivedThreadIds c, _threadMetadata c,
   _threadRuntimeInstances c, factoryCalls c).

(** The two ways [persistState] can end. *)
Inductive persist_result (c : Core) : Outcome unit * Core → Prop :=
| persist_committed ls :
    persisted c ls →
    items ls = items (storage c) →
    (reliable (storage c) = true → reliable ls = true) →
    persist_result c
      (Returned tt,
       {| _mainThreadId := _mainThreadId c;
          _threadIds := _threadIds c;
          _archivedThreadIds := _archivedThreadIds c;
          _threadMetadata := _threadMetadata c;
          _threadRuntimeInstances := _threadRuntimeInstances c;
          factoryCalls := factoryCalls c;
          storage := ls;
          notifications := S (notifications c) |})
| persist_refused e ls :
    items ls = items (storage c) →
    reliable (storage c) = false →
    persist_result c (Thrown (DOM e), set_storage ls c).

(** ** The runtime registry *)

(** The number of runtime objects the factory has made for [id]. *)
Definition instances_made (id : string) (c : Core) : nat :=
  length (filter (λ x, x = id) (factoryCalls c)).

(** The registry holds every object the factory made for [id]: one if it has
    an entry, none otherwise. *)
Definition registry_consistent_at (id : string) (c : Core) : Prop :=
  instances_made id c
  = match _threadRuntimeInstances c !! id with Some _ => 1 | None => 0 end.

(** ** A process started on an empty medium *)

Definition default_made_main (c : Core) : Core :=
  {| _mainThreadId := DEFAULT_THREAD_ID;
     _threadIds := if includes DEFAULT_THREAD_ID (_threadIds c) then _threadIds c
                   else DEFAULT_THREAD_ID :: _threadIds c;
     _archivedThreadIds := without DEFAULT_THREAD_ID (_archivedThreadIds c);
     _threadMetadata :=
       if has_metadata DEFAULT_THREAD_ID c then _threadMetadata c
       else <[DEFAULT_THREAD_ID := DEFAULT_THREAD_METADATA]> (_threadMetadata c);
     _threadRuntimeInstances := _threadRuntimeInstances c;
     factoryCalls := factoryCalls c;
     storage := storage c;
     notifications := notifications c |}.

(** ** Failures *)




(** ** Message trees that survive JSON *)

(** Values that JSON represents as they are: no [undefined], no date. *)
Fixpoint plain (v : value) : bool :=
  match v with
  | Undefined | DateV _ => false
  | Arr l => forallb plain l
  | Obj ps => forallb (λ p, plain (snd p)) ps
  | _ => true
  end.

(** The properties of a message: one [createdAt] holding a valid date, the
    other properties plain. *)
Fixpoint dated_props (ps : list (string * value)) : bool :=
  match ps with
  | [] => false
  | (k, v) :: rest =>
      if decide (k = "createdAt") then
        match v with
        | DateV (Some t) => valid_time t && forallb (λ p, plain (snd p)) rest
        | _ => false
        end
      else plain v && dated_props rest
  end.

Definition dated_message (m : value) : bool :=
  match m with
  | Obj ps => dated_props ps
  | _ => false
  end.

Definition well_formed_node (n : MessageNode) : bool :=
  dated_message (message n) && plain (parentId n).

Definition well_formed_tree (T : ExportedMessageRepository) : bool :=
  forallb well_formed_node (messages T)
  && match headId T with
     | Undefined => true
     | h => plain h
     end.

(** The elements of the stored [messages] array. *)
Definition stored_nodes `{DateText} (nodes : list MessageNode) : list value :=
  map (λ x, in_array (jsonify x))
    ((λ n, Obj [("message", message n); ("parentId", parentId n)]) <$> nodes).

(** ** Saving and loading a history *)

(** The tree n1, n2 (child of n1), n3 (child of n2) with head n3. *)
Definition example_message (id : string) (t : Z) : value :=
  Obj [("id", Str id);
       ("role", Str "user");
       ("createdAt", DateV (Some t));
       ("content", Arr [Obj [("type", Str "text"); ("text", Str "hello")]])].

Definition example_tree : ExportedMessageRepository :=
  {| messages :=
       [ {| message := example_message "n1" 1700000000000; parentId := Null |};
         {| message := example_message "n2" 1700000001000; parentId := Str "n1" |};
         {| message := example_message "n3" 1700000002000; parentId := Str "n2" |} ];
     headId := Str "n3" |}.

(** A tree whose one message holds a second date. *)
Definition edited_tree : ExportedMessageRepository :=
  {| messages :=
       [ {| message :=
              Obj [("id", Str "n1");
                   ("createdAt", DateV (Some 1700000000000%Z));
                   ("editedAt", DateV (Some 1700000001000%Z))];
            parentId := Null |} ];
     headId := Str "n1" |}.

Definition example_adapter : LocalStorageHistoryAdapter :=
  {| adapter_threadId := "t1"; storageKey := "assistant-thread-t1-messages" |}.

Definition example_browser (f : list (option DOMException)) : Browser :=
  {| localStorage := empty_storage f; console := [] |}.

(** ** The directory invariants *)

Definition main_has_record (c : Core) : Prop :=
  is_Some (_threadMetadata c !! _mainThreadId c).

Definition main_not_archived (c : Core) : Prop :=
  _mainThreadId c ∉ _archivedThreadIds c.

Definition ids_cover_records (c : Core) : Prop :=
  (∀ id, (id ∈ _threadIds c ∨ id ∈ _archivedThreadIds c ∨ id = _mainThreadId c)
         ↔ is_Some (_threadMetadata c !! id))
  ∧ (∀ id, id ∈ _threadIds c → id ∉ _archivedThreadIds c).

Definition status_tells_archived (c : Core) : Prop :=
  ∀ id m, _threadMetadata c !! id = Some m →
          (status m = Archived ↔ id ∈ _archivedThreadIds c).

Definition main_listed_first (c : Core) : Prop :=
  ∃ rest, threadIds c = _mainThreadId c :: rest
          ∧ NoDup (threadIds c)
          ∧ ∀ id, id ∈ rest ↔ (id ∈ _threadIds c ∧ (id ∉ _archivedThreadIds c)
                               ∧ id ≠ _mainThreadId c).

Definition directory_invariants (c : Core) : Prop :=
  main_has_record c ∧ main_not_archived c ∧ ids_cover_records c
  ∧ status_tells_archived c ∧ main_listed_first c.

(** ** Example states *)

(** A process started on an empty, accepting medium. *)
Definition started : Core := snd (new_LocalThreadListRuntimeCore (empty_storage [])).

(** The same after [mainThreadId] was read and thread [a] initialized. *)
Definition with_thread_a : Core :=
  snd (initialize "a" (snd (mainThreadId started))).

Definition with_archived_a : Core := snd (archive "a" with_thread_a).



(** ** A directory in order *)

(** The main thread has a record and is not archived; no id is listed twice;
    the regular list holds the ids whose record is [Regular], the archived
    list those whose record is [Archived]. *)
Definition in_order (main : string) (regular archived : list string)
    (records : gmap string Metadata) : Prop :=
  is_Some (records !! main)
  ∧ (main ∉ archived)
  ∧ NoDup regular
  ∧ NoDup archived
  ∧ (∀ id, id ∈ regular ↔ ∃ m, records !! id = Some m ∧ status m = Regular)
  ∧ (∀ id, id ∈ archived ↔ ∃ m, records !! id = Some m ∧ status m = Archived).

Definition well_formed (c : Core) : Prop :=
  in_order (_mainThreadId c) (_threadIds c) (_archivedThreadIds c)
    (_threadMetadata c)
  ∧ ∀ id, registry_consistent_at id c.

(** ** The order of [threadIds] *)

(** The first occurrence of every element, in order. *)
Fixpoint first_occurrences (l : list string) : list string :=
  match l with
  | [] => []
  | x :: l' => x :: without x (first_occurrences l')
  end.

(** The ids the getter [threadIds] lists after the main id, before the
    deduplication. *)
Definition regular_others (c : Core) : list string :=
  filter (λ id, includes id (_archivedThreadIds c) = false ∧ id ≠ _mainThreadId c)
         (_threadIds c).

(** ** Deleting *)

(** The key under which the history of a thread is kept. *)
Definition history_key (id : string) : string :=
  "assistant-thread-" +:+ id +:+ "-messages".

(** ** What the methods leave alone *)

(** A method that leaves a part of the state as it is, whether it returns or
    throws. *)
Definition keeps {A B : Type} (part : Core → B) (method : M A) : Prop :=
  ∀ c, part (snd (method c)) = part c.

(** The entries of [localStorage] outside the directory: the histories. *)
Definition histories (c : Core) : gmap string Text := items (storage c).

(** The registry of runtimes and the record of the factory's calls. *)
Definition made (c : Core) := (_threadRuntimeInstances c, factoryCalls c).

(** The four fields of the directory. *)
Definition directory (c : Core) :=
  (_mainThreadId c, _threadIds c, _archivedThreadIds c, _threadMetadata c).

(** ** Histories and the directory in one [localStorage] *)

(** The four directory entries of the medium. *)
Definition directory_entries (ls : LocalStorage) :=
  (assistant_mainThreadId ls, assistant_threadIds ls,
   assistant_archivedThreadIds ls, assistant_threadMetadata ls).


(** ** The registry of runtimes *)

(** Every runtime the registry held is still there, under the same id, and
    the factory's earlier calls are the first of its calls. *)
Definition runtimes_kept (c c' : Core) : Prop :=
  _threadRuntimeInstances c ⊆ _threadRuntimeInstances c'
  ∧ factoryCalls c `prefix_of` factoryCalls c'.

Definition keeps_runtimes {A : Type} (method : M A) : Prop :=
  ∀ c, runtimes_kept c (snd (method c)).

(** ** Generated titles *)

(** The title [generateTitle] gives to a thread. *)
Definition generated_title (id : string) : string :=
  "Thread " +:+ String.substring 0 5 id.

(** A text of ASCII characters: every byte is one character, and one UTF-16
    code unit. *)
Definition ascii_only (s : string) : bool :=
  forallb (λ a, Nat.ltb (Ascii.nat_of_ascii a) 128) (String.list_ascii_of_string s).

(** ** A new thread *)

(** The state [initialize] hands to [persistState] for an id without a
    record. *)
Definition initialized (id : string) (c : Core) : Core :=
  {| _mainThreadId := _mainThreadId c;
     _threadIds := if includes id (_threadIds c) then _threadIds c
                   else _threadIds c ++ [id];
     _archivedThreadIds := without id (_archivedThreadIds c);
     _threadMetadata :=
       <[id := {| threadId := id; status := Regular; title := "New Thread" |}]>
         (_threadMetadata c);
     _threadRuntimeInstances := _threadRuntimeInstances c;
     factoryCalls := factoryCalls c;
     storage := storage c;
     notifications := notifications c |}.

(** ** What [load] cannot read *)

(** A value without properties to read: [null] or [undefined]. *)
Definition nullish (v : value) : bool :=
  match v with
  | Undefined | Null => true
  | _ => false
  end.

(** A stored document [load] cannot read: its [messages] is no array, or one
    of the entries has no [message] to read [createdAt] from. *)
Definition unreadable (doc : value) : Prop :=
  ∀ entries, prop doc "messages" = Arr entries →
             Exists (λ entry, nullish (prop entry "message") = true) entries.

(** ** More instances *)

(** Thread [a] once its runtime was asked for. *)
Definition with_runtime_a : Core := snd (getThreadRuntimeCore "a" with_thread_a).

(** The runtime the factory makes first, for thread [a]. *)
Definition runtime_a : LocalThreadRuntimeCore :=
  {| runtime_threadId := "a";
     runtime_history :=
       {| adapter_threadId := "a"; storageKey := "assistant-thread-a-messages" |};
     serial := 0 |}.

(** Thread [a] made the main thread. *)
Definition switched_to_a : Core := snd (switchToThread "a" with_thread_a).

(** The history adapter of a second thread. *)
Definition second_adapter : LocalStorageHistoryAdapter :=
  {| adapter_threadId := "t2"; storageKey := "assistant-thread-t2-messages" |}.

(** * Proofs *)

(** ** The ISO text of dates *)

Example iso_text_epoch : iso_text 0 = "1970-01-01T00:00:00.000Z".
Proof. reflexivity. Qed.
Example iso_text_2023 : iso_text 1700000000000 = "2023-11-14T22:13:20.000Z".
Proof. reflexivity. Qed.
Example iso_text_leap_day : iso_text 951782400000 = "2000-02-29T00:00:00.000Z".
Proof. reflexivity. Qed.
Example iso_text_before_epoch : iso_text (-1) = "1969-12-31T23:59:59.999Z".
Proof. reflexivity. Qed.
Example iso_text_last : iso_text 8640000000000000 = "+275760-09-13T00:00:00.000Z".
Proof. reflexivity. Qed.
Example iso_text_first : iso_text (-8640000000000000) = "-271821-04-20T00:00:00.000Z".
Proof. reflexivity. Qed.
Example parse_iso_text_2023 : parse_iso_text "2023-11-14T22:13:20.000Z" = Some 1700000000000%Z.
Proof. reflexivity. Qed.
Example parse_iso_text_other : parse_iso_text "yesterday" = None.
Proof. reflexivity. Qed.

Section IsoTextFacts.
Local Open Scope Z_scope.

Lemma year_of_era doe :
  0 <= doe < 146097 →
  let guess := doe / 366 in
  let yoe := if year_start (guess + 1) <=? doe then guess + 1 else guess in
  0 <= yoe < 400 ∧ 0 <= doe - year_start yoe <= 365.
Proof.
  intros Hdoe guess yoe. subst yoe guess. unfold year_start.
  destruct (Z.leb_spec (365 * (doe / 366 + 1) + (doe / 366 + 1) / 4
                        - (doe / 366 + 1) / 100 + (doe / 366 + 1) / 400) doe)
    as [Hle|Hgt]; Z.div_mod_to_equations; lia.
Qed.

Lemma month_and_day doy :
  0 <= doy <= 365 →
  let mp := (5 * doy + 2) / 153 in
  let d := doy - (153 * mp + 2) / 5 + 1 in
  let m := if mp <? 10 then mp + 3 else mp - 9 in
  1 <= m <= 12 ∧ 1 <= d <= 31
  ∧ (153 * (if 2 <? m then m - 3 else m + 9) + 2) / 5 + d - 1 = doy.
Proof.
  intros Hdoy mp d m. subst m d mp.
  destruct (Z.ltb_spec ((5 * doy + 2) / 153) 10) as [Hlt|Hge].
  - destruct (Z.ltb_spec 2 ((5 * doy + 2) / 153 + 3)) as [H2|H2];
      Z.div_mod_to_equations; lia.
  - destruct (Z.ltb_spec 2 ((5 * doy + 2) / 153 - 9)) as [H2|H2];
      Z.div_mod_to_equations; lia.
Qed.

Lemma civil_round_trip z :
  ∃ y m d,
    civil_from_days z = (y, m, d)
    ∧ days_from_civil y m d = z
    ∧ 1 <= m <= 12 ∧ 1 <= d <= 31
    ∧ 400 * ((z + 719468) / 146097) <= y <= 400 * ((z + 719468) / 146097) + 400.
Proof.
  unfold civil_from_days.
  set (era := (z + 719468) / 146097). set (doe := (z + 719468) mod 146097).
  assert (Hz : z + 719468 = 146097 * era + doe ∧ 0 <= doe < 146097).
  { subst era doe. Z.div_mod_to_equations. lia. }
  destruct Hz as [Hz Hdoe].
  destruct (year_of_era doe Hdoe) as [Hyoe Hdoy]. cbv zeta in Hyoe, Hdoy.
  set (yoe := if year_start (doe / 366 + 1) <=? doe then doe / 366 + 1
              else doe / 366) in *.
  destruct (month_and_day (doe - year_start yoe) Hdoy) as (Hm & Hd & Hback).
  cbv zeta in Hm, Hd, Hback.
  set (doy := doe - year_start yoe) in *.
  set (mp := (5 * doy + 2) / 153) in *.
  set (d := doy - (153 * mp + 2) / 5 + 1) in *.
  set (m := if mp <? 10 then mp + 3 else mp - 9) in *.
  eexists _, m, d. split; [reflexivity|]. split; [|split; [done|split; [done|]]].
  - unfold days_from_civil. rewrite Hback.
    assert (Hy : (if m <=? 2
                  then (if m <=? 2 then yoe + era * 400 + 1 else yoe + era * 400) - 1
                  else (if m <=? 2 then yoe + era * 400 + 1 else yoe + era * 400))
                 = yoe + era * 400) by (destruct (m <=? 2); lia).
    rewrite Hy.
    replace ((yoe + era * 400) / 400) with era by (Z.div_mod_to_equations; lia).
    replace ((yoe + era * 400) mod 400) with yoe by (Z.div_mod_to_equations; lia).
    subst doy. lia.
  - destruct (m <=? 2); lia.
Qed.

Lemma digit_value_digit q : 0 <= q <= 9 → digit_value (digit q) = Some q.
Proof.
  intros Hq.
  assert (Hcases : q = 0 ∨ q = 1 ∨ q = 2 ∨ q = 3 ∨ q = 4 ∨ q = 5 ∨ q = 6
                   ∨ q = 7 ∨ q = 8 ∨ q = 9) by lia.
  repeat destruct Hcases as [->|Hcases]; try reflexivity. by subst.
Qed.

Lemma digit_not_sign q :
  0 <= q <= 9 → digit q ≠ "+"%char ∧ digit q ≠ "-"%char.
Proof.
  intros Hq.
  assert (Hcases : q = 0 ∨ q = 1 ∨ q = 2 ∨ q = 3 ∨ q = 4 ∨ q = 5 ∨ q = 6
                   ∨ q = 7 ∨ q = 8 ∨ q = 9) by lia.
  repeat destruct Hcases as [->|Hcases]; try (by split). by subst.
Qed.

Lemma read_digits w n acc rest :
  0 <= n < 10 ^ Z.of_nat w →
  read_number w acc (digits w n ++ rest) = Some (acc * 10 ^ Z.of_nat w + n, rest).
Proof.
  revert n acc. induction w as [|w IH]; intros n acc Hn.
  - simpl in *. f_equal. f_equal. lia.
  - assert (Hpow : 10 ^ Z.of_nat (S w) = 10 * 10 ^ Z.of_nat w).
    { rewrite Nat2Z.inj_succ, Z.pow_succ_r by lia. done. }
    rewrite Hpow in *.
    assert (Hpos : 0 < 10 ^ Z.of_nat w) by (apply Z.pow_pos_nonneg; lia).
    change (digits (S w) n)
      with (digit (n / 10 ^ Z.of_nat w) :: digits w (n mod 10 ^ Z.of_nat w)).
    simpl app. cbn [read_number].
    assert (Hq : 0 <= n / 10 ^ Z.of_nat w <= 9).
    { split; [apply Z.div_pos; lia|].
      assert (n / 10 ^ Z.of_nat w < 10); [|lia].
      apply Z.div_lt_upper_bound; lia. }
    rewrite (digit_value_digit _ Hq). cbn [mbind option_bind].
    rewrite IH by (apply Z.mod_pos_bound; lia).
    f_equal. f_equal.
    pose proof (Z.div_mod n (10 ^ Z.of_nat w)). lia.
Qed.

Lemma expect_cons c l : expect c (c :: l) = Some l.
Proof. unfold expect. by rewrite decide_True. Qed.

Lemma read_2_digits n rest :
  0 <= n < 100 → read_number 2 0 (digits 2 n ++ rest) = Some (n, rest).
Proof. intros Hn. by rewrite read_digits. Qed.

Lemma read_3_digits n rest :
  0 <= n < 1000 → read_number 3 0 (digits 3 n ++ rest) = Some (n, rest).
Proof. intros Hn. by rewrite read_digits. Qed.

Lemma read_year_text y rest :
  -1000000 < y < 1000000 →
  read_year (year_text y ++ rest) = Some (y, rest).
Proof.
  intros Hy. unfold year_text.
  destruct (Z.leb_spec 0 y) as [H0|H0]; simpl andb.
  - destruct (Z.leb_spec y 9999) as [H9|H9].
    + pose proof (read_digits 4 y 0 rest) as Hread.
      change (digits 4 y)
        with (digit (y / 10 ^ Z.of_nat 3) :: digits 3 (y mod 10 ^ Z.of_nat 3)) in *.
      simpl app in *. unfold read_year.
      assert (Hq : 0 <= y / 10 ^ Z.of_nat 3 <= 9).
      { change (10 ^ Z.of_nat 3) with 1000. Z.div_mod_to_equations. lia. }
      destruct (digit_not_sign _ Hq) as [Hplus Hminus].
      rewrite !decide_False by done. rewrite Hread by (simpl; lia). done.
    + destruct (Z.ltb_spec y 0) as [?|_]; [lia|].
      rewrite <- app_comm_cons. unfold read_year. rewrite decide_True by done.
      rewrite read_digits by (simpl; lia). f_equal. f_equal. lia.
  - destruct (Z.ltb_spec y 0) as [_|?]; [|lia].
    rewrite <- app_comm_cons. unfold read_year. rewrite decide_False by done.
    rewrite decide_True by done.
    rewrite read_digits by (simpl; lia). cbn [mbind option_bind].
    f_equal. f_equal. lia.
Qed.

Theorem parse_iso_text_of_iso_text t :
  valid_time t = true → parse_iso_text (iso_text t) = Some t.
Proof.
  intros Ht. unfold valid_time in Ht. apply Z.leb_le in Ht.
  unfold iso_text, parse_iso_text, ms_per_day.
  destruct (civil_round_trip (t / 86400000))
    as (y & m & d & Hc & Hback & Hm & Hd & Hy).
  rewrite Hc. rewrite String.list_ascii_of_string_of_list_ascii.
  set (ms := t mod 86400000).
  assert (Hms : 0 <= ms < 86400000) by (subst ms; Z.div_mod_to_equations; lia).
  rewrite read_year_text by (Z.div_mod_to_equations; lia).
  cbn [mbind option_bind]. rewrite expect_cons.
  cbn [mbind option_bind].
  rewrite read_2_digits by lia.
  cbn [mbind option_bind]. rewrite expect_cons.
  cbn [mbind option_bind].
  rewrite read_2_digits by lia.
  cbn [mbind option_bind]. rewrite expect_cons.
  cbn [mbind option_bind].
  rewrite read_2_digits by (Z.div_mod_to_equations; lia).
  cbn [mbind option_bind]. rewrite expect_cons.
  cbn [mbind option_bind].
  rewrite read_2_digits by (Z.div_mod_to_equations; lia).
  cbn [mbind option_bind]. rewrite expect_cons.
  cbn [mbind option_bind].
  rewrite read_2_digits by (Z.div_mod_to_equations; lia).
  cbn [mbind option_bind]. rewrite expect_cons.
  cbn [mbind option_bind].
  rewrite read_3_digits by (Z.div_mod_to_equations; lia).
  cbn [mbind option_bind]. rewrite expect_cons.
  cbn [mbind option_bind].
  rewrite Hback.
  assert (Ht' : t / 86400000 * 86400000
                + ((ms / 3600000 * 60 + ms / 60000 mod 60) * 60
                   + ms / 1000 mod 60) * 1000 + ms mod 1000 = t).
  { subst ms. Z.div_mod_to_equations. lia. }
  rewrite Ht'.
  replace (valid_time t) with true
    by (symmetry; unfold valid_time; apply Z.leb_le; lia).
  repeat match goal with
         | |- context [?a <=? ?b] =>
             destruct (Z.leb_spec a b); [|Z.div_mod_to_equations; lia]
         | |- context [?a <? ?b] =>
             destruct (Z.ltb_spec a b); [|Z.div_mod_to_equations; lia]
         end.
  done.
Qed.

Lemma parse_iso_text_empty : parse_iso_text "" = None.
Proof. reflexivity. Qed.
End IsoTextFacts.

(** The engine of the examples. *)
#[global] Instance iso_date_text : DateText :=
  {| toISOString := iso_text;
     Date_parse := parse_iso_text;
     Date_parse_toISOString := parse_iso_text_of_iso_text;
     Date_parse_empty := parse_iso_text_empty |}.

(** ** Persisting the directory *)

Lemma persistState_result c : persist_result c (persistState c).
Proof.
  unfold persistState, mbind, M_bind, _notifySubscribers, modify,
    saveThreadsToLocalStorage, setItem.
  destruct c as [m t a md ri fc [sm st sa smd it fl] n]; simpl.
  destruct fl as [|[e|] fl]; simpl;
    [ by apply persist_committed | by apply persist_refused | ].
  destruct fl as [|[e|] fl]; simpl;
    [ by apply persist_committed | by apply persist_refused | ].
  destruct fl as [|[e|] fl]; simpl;
    [ by apply persist_committed | by apply persist_refused | ].
  destruct fl as [|[e|] fl]; simpl;
    [ by apply persist_committed | by apply persist_refused | ].
  by apply persist_committed.
Qed.

(** ** First facts about the methods *)

Ltac monad_unfold :=
  unfold when, lift, put_metadata, push_threadId, unshift_threadId, put_runtime,
    mbind, M_bind, mret, M_ret, gets, modify, throw in *.

Lemma has_metadata_true id c :
  has_metadata id c = true ↔ is_Some (_threadMetadata c !! id).
Proof.
  unfold has_metadata. destruct (_threadMetadata c !! id); split; done.
Qed.

Lemma has_metadata_false id c :
  has_metadata id c = false ↔ _threadMetadata c !! id = None.
Proof. unfold has_metadata. by destruct (_threadMetadata c !! id). Qed.

Lemma includes_true x l : includes x l = true ↔ x ∈ l.
Proof. apply bool_decide_eq_true. Qed.

Lemma includes_false x l : includes x l = false ↔ x ∉ l.
Proof. apply bool_decide_eq_false. Qed.

(** C4.  In every directory state, [archive] and [delete] called with the main
    thread's id fail with InvalidOperation, and the state after the call is
    the state before it: the four directory fields, the registry, what
    [localStorage] holds (nothing was persisted) and the number of
    notifications (none was fired). *)
Theorem archive_delete_main_rejected (c : Core) :
  archive (_mainThreadId c) c
  = (Thrown (InvalidOperation
               "Cannot archive the main thread. Switch to another thread first."), c)
  ∧ delete_thread (_mainThreadId c) c
    = (Thrown (InvalidOperation
                 "Cannot delete the main thread. Switch to another thread first."), c).
Proof.
  unfold archive, delete_thread. monad_unfold. simpl.
  by rewrite !decide_True.
Qed.

Lemma initialize_known id c :
  has_metadata id c = true →
  initialize id c = (Returned {| remoteId := id; externalId := None |}, c).
Proof. intros Hk. unfold initialize. monad_unfold. simpl. by rewrite Hk. Qed.

Lemma initialize_ends id c :
  has_metadata id (initialize id c).2 = true
  ∧ ((initialize id c).1 = Returned {| remoteId := id; externalId := None |}
     ∨ ∃ e, (initialize id c).1 = Thrown (DOM e)).
Proof.
  destruct (has_metadata id c) eqn:Hk.
  { rewrite initialize_known; auto. }
  unfold initialize. monad_unfold. simpl. rewrite Hk.
  destruct (includes id (_threadIds c)); simpl;
    match goal with |- context [persistState ?s] =>
      destruct (persistState_result s) as [ls ? ? ?|e ls ? ?] end; simpl;
    (split; [apply has_metadata_true; simpl; rewrite lookup_insert_eq; by eexists|]);
    eauto.
Qed.

(** C5.  [initialize id] twice in succession: the second call returns
    [{ remoteId: id, externalId: undefined }] and leaves the whole state as the
    first call left it, so neither list nor the record of [id] changes again.
    The first call returns the same result, unless the medium refused the
    write of [persistState], in which case it threw what the medium threw. *)
Theorem initialize_idempotent (id : string) (c : Core) :
  let result := {| remoteId := id; externalId := None |} in
  let first := initialize id c in
  initialize id first.2 = (Returned result, first.2)
  ∧ (first.1 = Returned result ∨ ∃ e, first.1 = Thrown (DOM e)).
Proof.
  intros result first. destruct (initialize_ends id c) as [Hk Ho].
  split; [by apply initialize_known | done].
Qed.

(** ** Archiving and unarchiving *)

Lemma indexOf_None x l : indexOf x l = None ↔ x ∉ l.
Proof.
  unfold indexOf. rewrite fmap_None, list_find_None, Forall_forall.
  split.
  - intros Hl Hx. by apply (Hl x).
  - intros Hx y Hy ->. done.
Qed.

Lemma indexOf_Some x l i :
  indexOf x l = Some i → l !! i = Some x ∧ ∀ j, j < i → l !! j ≠ Some x.
Proof.
  unfold indexOf. intros Hf. apply fmap_Some in Hf as [[i' y] [Hf ->]].
  apply list_find_Some in Hf as (Hl & -> & Hlt). simpl. split; [done|].
  intros j Hj Hjx. by apply (Hlt j x Hjx Hj).
Qed.

Lemma indexOf_push x l : x ∉ l → indexOf x (l ++ [x]) = Some (length l).
Proof.
  intros Hx. destruct (indexOf x (l ++ [x])) as [i|] eqn:Hi.
  - apply indexOf_Some in Hi as [Hl Hlt]. f_equal.
    destruct (decide (i < length l)) as [Hlt'|Hge].
    + rewrite lookup_app_l in Hl by done.
      apply list_elem_of_lookup_2 in Hl. done.
    + apply lookup_lt_Some in Hl. rewrite length_app in Hl. simpl in Hl. lia.
  - apply indexOf_None in Hi. exfalso. apply Hi. set_solver.
Qed.

Lemma delete_push (x : string) (l : list string) : delete (length l) (l ++ [x]) = l.
Proof. induction l as [|y l IH]; simpl; [done|]. by rewrite IH. Qed.

Lemma without_not_in x l : x ∉ without x l.
Proof. unfold without. intros [Hx _]%list_elem_of_filter. done. Qed.

(** The state [archive] leaves when it gets past its checks. *)
Lemma archive_ends id m c :
  id ≠ _mainThreadId c →
  _threadMetadata c !! id = Some m →
  id ∉ _archivedThreadIds c →
  let c1 := (archive id c).2 in
  memory c1 = (_mainThreadId c, without id (_threadIds c),
               _archivedThreadIds c ++ [id],
               <[id := with_status Archived m]> (_threadMetadata c),
               _threadRuntimeInstances c, factoryCalls c)
  ∧ items (storage c1) = items (storage c)
  ∧ (reliable (storage c) = true →
     (archive id c).1 = Returned tt ∧ reliable (storage c1) = true
     ∧ persisted c1 (storage c1)).
Proof.
  intros Hmain Hm Ha. unfold archive. monad_unfold. simpl.
  rewrite decide_False by done. rewrite Hm.
  apply includes_false in Ha. rewrite Ha. simpl.
  match goal with |- context [persistState ?s] =>
    destruct (persistState_result s) as [ls Hp Hi Hr|e ls Hi Hr] end; simpl in *.
  - destruct Hp as (?&?&?&?). repeat split; auto.
  - repeat split; auto; congruence.
Qed.

Lemma unarchive_ends id m i c :
  _threadMetadata c !! id = Some m →
  indexOf id (_archivedThreadIds c) = Some i →
  id ∉ _threadIds c →
  let c1 := (unarchive id c).2 in
  memory c1 = (_mainThreadId c, _threadIds c ++ [id],
               delete i (_archivedThreadIds c),
               <[id := with_status Regular m]> (_threadMetadata c),
               _threadRuntimeInstances c, factoryCalls c)
  ∧ items (storage c1) = items (storage c)
  ∧ (reliable (storage c) = true →
     (unarchive id c).1 = Returned tt ∧ reliable (storage c1) = true
     ∧ persisted c1 (storage c1)).
Proof.
  intros Hm Hi Hl. unfold unarchive. monad_unfold. simpl.
  rewrite Hm, Hi. simpl. apply includes_false in Hl. rewrite Hl. simpl.
  match goal with |- context [persistState ?s] =>
    destruct (persistState_result s) as [ls Hp Hit Hr|e ls Hit Hr] end; simpl in *.
  - destruct Hp as (?&?&?&?). repeat split; auto.
  - repeat split; auto; congruence.
Qed.

(** C6.  For an id that is not the main one, has a record and is not archived,
    [archive id] followed by [unarchive id] leaves the record with status
    [Regular] and its title (and thread id) as before, puts [id] at the end
    of the regular list, the other ids keeping their order, and leaves the
    archived list, the main id and the other records as they were.  This is
    what the object holds whether or not the medium accepted the writes; on a
    medium that accepts them both calls return and the result is persisted. *)
Theorem archive_then_unarchive (id : string) (m : Metadata) (c : Core) :
  id ≠ _mainThreadId c →
  _threadMetadata c !! id = Some m →
  id ∉ _archivedThreadIds c →
  let c1 := (archive id c).2 in
  let c2 := (unarchive id c1).2 in
  (∃ m', _threadMetadata c2 !! id = Some m'
         ∧ status m' = Regular ∧ title m' = title m ∧ threadId m' = threadId m)
  ∧ _threadIds c2 = without id (_threadIds c) ++ [id]
  ∧ _archivedThreadIds c2 = _archivedThreadIds c
  ∧ _mainThreadId c2 = _mainThreadId c
  ∧ (∀ other, other ≠ id → _threadMetadata c2 !! other = _threadMetadata c !! other)
  ∧ (reliable (storage c) = true →
     (archive id c).1 = Returned tt ∧ (unarchive id c1).1 = Returned tt
     ∧ persisted c2 (storage c2)).
Proof.
  intros Hmain Hm Ha c1 c2.
  destruct (archive_ends id m c Hmain Hm Ha) as (Hmem1 & Hit1 & Hrel1).
  fold c1 in Hmem1, Hit1, Hrel1. unfold memory in Hmem1.
  injection Hmem1 as Hm1 Ht1 Ha1 Hmd1 Hri1 Hfc1.
  assert (Hlook : _threadMetadata c1 !! id = Some (with_status Archived m)).
  { rewrite Hmd1. apply lookup_insert_eq. }
  assert (Hidx : indexOf id (_archivedThreadIds c1) = Some (length (_archivedThreadIds c))).
  { rewrite Ha1. by apply indexOf_push. }
  assert (Hnl : id ∉ _threadIds c1).
  { rewrite Ht1. apply without_not_in. }
  destruct (unarchive_ends id _ _ c1 Hlook Hidx Hnl) as (Hmem2 & Hit2 & Hrel2).
  fold c2 in Hmem2, Hit2, Hrel2. unfold memory in Hmem2.
  injection Hmem2 as Hm2 Ht2 Ha2 Hmd2 Hri2 Hfc2.
  split; [|split; [|split; [|split; [|split]]]].
  - exists (with_status Regular m). rewrite Hmd2, lookup_insert_eq. done.
  - by rewrite Ht2, Ht1.
  - by rewrite Ha2, Ha1, delete_push.
  - by rewrite Hm2, Hm1.
  - intros other Ho. rewrite Hmd2, Hmd1, !lookup_insert_ne by done. done.
  - intros Hr. destruct (Hrel1 Hr) as (Ho1 & Hr1 & _).
    destruct (Hrel2 Hr1) as (Ho2 & _ & Hp2). done.
Qed.

(** ** The runtime registry *)

Lemma getOrCreate_hit id r c :
  _threadRuntimeInstances c !! id = Some r →
  getOrCreateThreadRuntime id c = (Returned r, c).
Proof. intros Hr. unfold getOrCreateThreadRuntime. monad_unfold. simpl. by rewrite Hr. Qed.

(** A miss for a thread that has a record. *)
Lemma getOrCreate_miss id c :
  _threadRuntimeInstances c !! id = None →
  has_metadata id c = true →
  match new_LocalStorageHistoryAdapter id with
  | Thrown e => getOrCreateThreadRuntime id c = (Thrown e, c) ∧ id = ""
  | Returned history =>
      let r := {| runtime_threadId := id; runtime_history := history;
                  serial := length (factoryCalls c) |} in
      id ≠ "" ∧
      getOrCreateThreadRuntime id c
      = (Returned r,
         {| _mainThreadId := _mainThreadId c;
            _threadIds := _threadIds c;
            _archivedThreadIds := _archivedThreadIds c;
            _threadMetadata := _threadMetadata c;
            _threadRuntimeInstances := <[id := r]> (_threadRuntimeInstances c);
            factoryCalls := factoryCalls c ++ [id];
            storage := storage c;
            notifications := notifications c |})
  end.
Proof.
  intros Hr Hk. unfold getOrCreateThreadRuntime, new_LocalStorageHistoryAdapter,
    threadFactory.
  monad_unfold. simpl. rewrite Hr, Hk. simpl.
  destruct (decide (id = "")); simpl; done.
Qed.

Lemma instances_made_push (id x : string) (calls : list string) :
  length (filter (λ y, y = id) (calls ++ [x]))
  = length (filter (λ y, y = id) calls) + (if decide (x = id) then 1 else 0).
Proof.
  rewrite filter_app, length_app. f_equal.
  rewrite filter_cons, filter_nil. by destruct (decide (x = id)).
Qed.

Lemma delete_first_NoDup (x : string) (l : list string) i :
  NoDup l → l !! i = Some x → x ∉ delete i l.
Proof.
  intros Hnd Hl. rewrite delete_take_drop.
  rewrite <- (take_drop_middle l i x Hl) in Hnd.
  apply NoDup_app in Hnd as (_ & Hdisj & Hnd).
  apply NoDup_cons in Hnd as [Hx _].
  intros [Hin|Hin]%elem_of_app; [|done].
  apply (Hdisj x Hin). left.
Qed.



(** ** Switching to an archived thread *)

(** [unarchive] of an archived thread with a record: the updates, then
    [persistState]. *)
Lemma unarchive_run id m i c :
  _threadMetadata c !! id = Some m →
  indexOf id (_archivedThreadIds c) = Some i →
  unarchive id c
  = persistState
      {| _mainThreadId := _mainThreadId c;
         _threadIds := if includes id (_threadIds c) then _threadIds c
                       else _threadIds c ++ [id];
         _archivedThreadIds := delete i (_archivedThreadIds c);
         _threadMetadata := <[id := with_status Regular m]> (_threadMetadata c);
         _threadRuntimeInstances := _threadRuntimeInstances c;
         factoryCalls := factoryCalls c;
         storage := storage c;
         notifications := notifications c |}.
Proof.
  intros Hm Hi. unfold unarchive. monad_unfold. simpl. rewrite Hm, Hi. simpl.
  by destruct (includes id (_threadIds c)).
Qed.

Lemma elem_of_indexOf x l : x ∈ l → ∃ i, indexOf x l = Some i.
Proof.
  intros Hx. destruct (indexOf x l) as [i|] eqn:Hi; [by eexists|].
  by apply indexOf_None in Hi.
Qed.




(** ** A process started on an empty medium *)

(** The constructor on an empty medium: the loaded defaults, the main id
    reset to the default and [persistState]. *)
Lemma new_on_empty_storage f :
  new_LocalThreadListRuntimeCore (empty_storage f)
  = persistState
      {| _mainThreadId := DEFAULT_THREAD_ID;
         _threadIds := [DEFAULT_THREAD_ID];
         _archivedThreadIds := [];
         _threadMetadata := ∅;
         _threadRuntimeInstances := ∅;
         factoryCalls := [];
         storage := empty_storage f;
         notifications := 0 |}.
Proof. done. Qed.

(** The getter [mainThreadId]: a main id with a record is returned as it is;
    otherwise the default thread is made the main one, then [persistState]. *)
Lemma mainThreadId_known c :
  has_metadata (_mainThreadId c) c = true →
  mainThreadId c = (Returned (_mainThreadId c), c).
Proof. intros Hk. unfold mainThreadId. monad_unfold. simpl. by rewrite Hk. Qed.

Lemma mainThreadId_repair c :
  has_metadata (_mainThreadId c) c = false →
  mainThreadId c
  = match persistState (default_made_main c) with
    | (Returned _, c') => (Returned (_mainThreadId c'), c')
    | (Thrown e, c') => (Thrown e, c')
    end.
Proof.
  intros Hk. unfold mainThreadId, default_made_main. monad_unfold. simpl.
  rewrite Hk. simpl. unfold has_metadata at 1. simpl. fold (has_metadata DEFAULT_THREAD_ID c).
  destruct (has_metadata DEFAULT_THREAD_ID c); simpl;
    destruct (includes DEFAULT_THREAD_ID (_threadIds c)); simpl;
    by destruct (persistState _) as [[[]|e] c'].
Qed.

(** C9.  A process started on a medium that holds nothing and accepts the
    writes: the constructor returns, [threadIds] is the default id alone and
    [archivedThreadIds] is empty; [mainThreadId] returns the default id, and
    the two lists read the same after it. *)
Theorem fresh_process (f : list (option DOMException)) :
  reliable (empty_storage f) = true →
  let started := new_LocalThreadListRuntimeCore (empty_storage f) in
  fst started = Returned tt
  ∧ threadIds (snd started) = [DEFAULT_THREAD_ID]
  ∧ archivedThreadIds (snd started) = []
  ∧ let asked := mainThreadId (snd started) in
    fst asked = Returned DEFAULT_THREAD_ID
    ∧ threadIds (snd asked) = [DEFAULT_THREAD_ID]
    ∧ archivedThreadIds (snd asked) = [].
Proof.
  intros Hrel started. subst started. rewrite new_on_empty_storage.
  match goal with |- context [persistState ?s] =>
    destruct (persistState_result s) as [ls1 Hp1 Hi1 Hr1|e ls1 Hi1 Hr1] end;
    simpl in *; [|congruence].
  split; [done|]. split; [done|]. split; [done|].
  rewrite mainThreadId_repair by done.
  match goal with |- context [persistState ?s] =>
    destruct (persistState_result s) as [ls2 Hp2 Hi2 Hr2|e ls2 Hi2 Hr2] end;
    simpl in *.
  - done.
  - apply Hr1 in Hrel. congruence.
Qed.

(** ** Failures *)































(** ** Message trees that survive JSON *)

Section value_induction.
Variable P : value → Prop.
Hypothesis P_Undefined : P Undefined.
Hypothesis P_Null : P Null.
Hypothesis P_Bool : ∀ b, P (Bool b).
Hypothesis P_Num : ∀ n, P (Num n).
Hypothesis P_Str : ∀ s, P (Str s).
Hypothesis P_DateV : ∀ t, P (DateV t).
Hypothesis P_Arr : ∀ l, Forall P l → P (Arr l).
Hypothesis P_Obj : ∀ ps, Forall (λ p, P (snd p)) ps → P (Obj ps).

Fixpoint value_induction (v : value) : P v :=
  match v with
  | Undefined => P_Undefined
  | Null => P_Null
  | Bool b => P_Bool b
  | Num n => P_Num n
  | Str s => P_Str s
  | DateV t => P_DateV t
  | Arr l =>
      P_Arr l
        ((fix go (l : list value) : Forall P l :=
            match l with
            | [] => @List.Forall_nil _ P
            | x :: l' => @List.Forall_cons _ P x l' (value_induction x) (go l')
            end) l)
  | Obj ps =>
      P_Obj ps
        ((fix go (ps : list (string * value)) : Forall (λ p, P (snd p)) ps :=
            match ps with
            | [] => @List.Forall_nil _ _
            | p :: ps' =>
                @List.Forall_cons _ (λ p, P (snd p)) p ps'
                  (value_induction (snd p)) (go ps')
            end) ps)
  end.
End value_induction.

Section HistoryFacts.
Context `{DateText}.

Lemma in_array_plain v : plain v = true → in_array v = v.
Proof. by destruct v. Qed.

Lemma in_object_plain k v : plain v = true → in_object k v = Some (k, v).
Proof. by destruct v. Qed.

Lemma jsonify_plain v : plain v = true → jsonify v = v.
Proof.
  induction v as [| | | | | |l IH|ps IH] using value_induction;
    simpl; try done.
  - intros Hl. f_equal. induction l as [|x l IHl]; simpl; [done|].
    apply andb_prop in Hl as [Hx Hl]. inversion_clear IH as [|? ? IHx IHl'].
    rewrite IHx, in_array_plain, IHl by done. done.
  - intros Hps. f_equal. induction ps as [|[k x] ps IHps]; simpl; [done|].
    simpl in Hps. apply andb_prop in Hps as [Hx Hps].
    inversion_clear IH as [|? ? IHx IHps']. simpl in IHx.
    rewrite IHx, in_object_plain by done. simpl. f_equal. by apply IHps.
Qed.

Lemma jsonify_plain_props ps :
  forallb (λ p, plain (snd p)) ps = true →
  omap (λ p, in_object (fst p) (jsonify (snd p))) ps = ps.
Proof.
  intros Hps. assert (Hj := jsonify_plain (Obj ps) Hps). simpl in Hj.
  by simplify_eq.
Qed.

Lemma toISOString_nonempty t : valid_time t = true → toISOString t ≠ "".
Proof.
  intros Ht Hempty. pose proof (Date_parse_toISOString t Ht) as Hp.
  rewrite Hempty, Date_parse_empty in Hp. done.
Qed.

(** What [rehydrate] does with the properties of a stored message. *)
Lemma rehydrate_dated_props ps :
  dated_props ps = true →
  ∃ t, valid_time t = true
       ∧ lookup_prop "createdAt"
           (omap (λ p, in_object (fst p) (jsonify (snd p))) ps)
         = Str (toISOString t)
       ∧ set_prop "createdAt" (DateV (Some t))
           (omap (λ p, in_object (fst p) (jsonify (snd p))) ps) = ps.
Proof.
  induction ps as [|[k v] ps IH]; simpl; [done|].
  destruct (decide (k = "createdAt")) as [->|Hk].
  - destruct v as [| | | | |[t|]| |]; try done.
    intros [Ht Hps]%andb_prop. exists t. simpl.
    rewrite jsonify_plain_props by done. done.
  - intros [Hv Hps]%andb_prop. destruct (IH Hps) as (t & Ht & Hl & Hs).
    exists t. rewrite jsonify_plain, in_object_plain by done. simpl.
    rewrite !decide_False by done.
    split; [done|]. split; [exact Hl|]. f_equal. exact Hs.
Qed.

Lemma rehydrate_node n :
  well_formed_node n = true →
  rehydrate (in_array (jsonify (Obj [("message", message n);
                                     ("parentId", parentId n)]))) = Some n.
Proof.
  destruct n as [m p]. unfold well_formed_node. simpl.
  intros [Hm Hp]%andb_prop. destruct m as [| | | | | | |ps]; try done.
  simpl in Hm. destruct (rehydrate_dated_props ps Hm) as (t & Ht & Hl & Hs).
  simpl. rewrite (jsonify_plain p), (in_object_plain _ p) by done. simpl.
  unfold rehydrate. simpl. rewrite Hl.
  rewrite decide_False by (by apply toISOString_nonempty).
  unfold new_Date. rewrite Date_parse_toISOString by done. simpl.
  by rewrite Hs.
Qed.

Lemma mapM_rehydrate_cons entry entries :
  mapM rehydrate (entry :: entries)
  = n ← rehydrate entry; ns ← mapM rehydrate entries; Some (n :: ns).
Proof. done. Qed.

Lemma rehydrate_nodes nodes :
  forallb well_formed_node nodes = true →
  mapM rehydrate (stored_nodes nodes) = Some nodes.
Proof.
  induction nodes as [|n nodes IH]; [done|].
  intros [Hn Hnodes]%andb_prop.
  change (stored_nodes (n :: nodes))
    with (in_array (jsonify (Obj [("message", message n);
                                  ("parentId", parentId n)]))
          :: stored_nodes nodes).
  rewrite mapM_rehydrate_cons, (rehydrate_node n Hn), (IH Hnodes). done.
Qed.

Lemma serialize_eq T :
  serialize T
  = Obj (("messages", Arr (stored_nodes (messages T)))
         :: match in_object "headId" (jsonify (headId T)) with
            | Some p => [p]
            | None => []
            end).
Proof. unfold serialize. simpl. by destruct (in_object _ _). Qed.

Lemma rehydrate_serialized T :
  well_formed_tree T = true → rehydrate_history (serialize T) = Some T.
Proof.
  rewrite serialize_eq. destruct T as [nodes h]. unfold well_formed_tree.
  simpl. intros [Hnodes Hh]%andb_prop.
  pose proof (rehydrate_nodes nodes Hnodes) as Hr.
  assert (Hhead : h = Undefined ∨ plain h = true) by (destruct h; auto).
  unfold rehydrate_history. simpl. rewrite Hr. simpl. f_equal. f_equal.
  destruct Hhead as [->|Hp]; [done|].
  rewrite jsonify_plain, in_object_plain by done. done.
Qed.
End HistoryFacts.

(** ** Saving and loading a history *)

Section HistoryTheorems.
Context `{DateText}.

(** C8, amended.  For a tree whose messages are objects with a valid date
    in [createdAt] and otherwise plain JSON data, whose parent ids are plain
    and whose head id is plain or absent: when the medium accepts the write,
    [saveFullHistory] returns and [load] then returns a tree equal to the
    one saved, each [createdAt] a date equal to the original. *)
Theorem replace_then_load (this : LocalStorageHistoryAdapter)
    (T : ExportedMessageRepository) (b : Browser) :
  well_formed_tree T = true →
  accepts_next (localStorage b) = true →
  let saved := saveFullHistory this (Some T) b in
  fst saved = Returned tt
  ∧ load this (snd saved) = (Returned (Some T), snd saved).
Proof.
  intros HT Hacc saved. subst saved. unfold saveFullHistory, setItem.
  unfold accepts_next in Hacc.
  destruct (faults (localStorage b)) as [|[e|] rest] eqn:Hf; try done;
    simpl; (split; [done|]); unfold load; simpl;
    rewrite lookup_insert_eq, (rehydrate_serialized T HT); done.
Qed.



(** C2, amended.  [saveFullHistory] always returns; it reports no failure
    to its caller.  When the medium refuses the write, nothing is stored and
    the refusal is written to the console, followed by a second line when
    it is a QuotaExceededError and by none otherwise. *)
Theorem saveFullHistory_swallows_refusal (this : LocalStorageHistoryAdapter)
    (data : option ExportedMessageRepository) (b : Browser) :
  let saved := saveFullHistory this data b in
  fst saved = Returned tt
  ∧ ∀ T e rest,
      data = Some T →
      faults (localStorage b) = Some e :: rest →
      items (localStorage (snd saved)) = items (localStorage b)
      ∧ console (snd saved)
        = console b
          ++ SaveError (adapter_threadId this) (DOM e)
          :: match e with
             | QuotaExceededError => [QuotaExceededNotice]
             | SecurityError => []
             end.
Proof.
  intros saved. subst saved. unfold saveFullHistory, setItem.
  destruct data as [T|]; [|done].
  destruct (faults (localStorage b)) as [|[e|] rest] eqn:Hf; simpl;
    (split; [done|]); intros T' e' rest' ? ?; simplify_eq.
  by destruct e'.
Qed.

(** C10.  [append] and [update] return and change nothing; [saveFullHistory]
    without repository data returns and leaves [localStorage] as it is, and
    so does [load]: of the adapter's methods only [saveFullHistory] with
    repository data writes to the medium. *)
Theorem only_saveFullHistory_writes (this : LocalStorageHistoryAdapter)
    (change : MessageNode) (message : value) (b : Browser) :
  append this change b = (Returned tt, b)
  ∧ update this message b = (Returned tt, b)
  ∧ fst (saveFullHistory this None b) = Returned tt
  ∧ localStorage (snd (saveFullHistory this None b)) = localStorage b
  ∧ localStorage (snd (load this b)) = localStorage b.
Proof.
  repeat split. unfold load.
  destruct (items (localStorage b) !! storageKey this) as [[doc|s]|]; simpl;
    try done.
  - by destruct (rehydrate_history doc).
  - by destruct s.
Qed.
End HistoryTheorems.

(** The tree of three messages, saved to an
    empty accepting medium and loaded. *)
Lemma replace_then_load_example :
  well_formed_tree example_tree = true
  ∧ accepts_next (localStorage (example_browser [])) = true
  ∧ load example_adapter
      (snd (saveFullHistory example_adapter (Some example_tree) (example_browser [])))
    = (Returned (Some example_tree),
       snd (saveFullHistory example_adapter (Some example_tree) (example_browser []))).
Proof.
  split; [reflexivity|]. split; [reflexivity|].
  apply (replace_then_load example_adapter example_tree (example_browser []));
    reflexivity.
Defined.

(** A write refused for lack of capacity: [saveFullHistory] returns all the
    same, and nothing is stored. *)
Lemma refused_save_is_not_reported :
  saveFullHistory example_adapter (Some example_tree)
    (example_browser [Some QuotaExceededError])
  = (Returned tt,
     {| localStorage := empty_storage [];
        console := [SaveError "t1" (DOM QuotaExceededError); QuotaExceededNotice] |}).
Proof. reflexivity. Qed.

(** Two trees that do not come back: on a medium that refuses the write,
    [load] after [saveFullHistory] finds no history; on a medium that accepts
    it, a date held in another property than [createdAt] comes back as its
    ISO text. *)
Lemma tree_not_loaded_back :
  (let saved := saveFullHistory example_adapter (Some example_tree)
                  (example_browser [Some QuotaExceededError]) in
   fst saved = Returned tt
   ∧ fst (load example_adapter (snd saved)) = Returned None)
  ∧ (let saved := saveFullHistory example_adapter (Some edited_tree)
                    (example_browser []) in
     fst saved = Returned tt
     ∧ fst (load example_adapter (snd saved))
       = Returned (Some
           {| messages :=
                [ {| message :=
                       Obj [("id", Str "n1");
                            ("createdAt", DateV (Some 1700000000000%Z));
                            ("editedAt", Str "2023-11-14T22:13:21.000Z")];
                     parentId := Null |} ];
              headId := Str "n1" |})).
Proof. split; split; reflexivity. Qed.

(** ** The constructor's commit *)

(** C1.  The constructor on an empty medium that accepts the writes: it
    returns, having persisted the directory and notified once, with the
    default id as main id and as the only listed id, and no record at all.
    The main id has no record (invariant 1), the listed ids are not the keys
    of the records (invariant 3), so the five invariants do not hold after
    this commit. *)
Theorem constructor_commits_without_default_record :
  fst (new_LocalThreadListRuntimeCore (empty_storage [])) = Returned tt
  ∧ notifications started = 1
  ∧ persisted started (storage started)
  ∧ _mainThreadId started = DEFAULT_THREAD_ID
  ∧ _threadIds started = [DEFAULT_THREAD_ID]
  ∧ _threadMetadata started = ∅
  ∧ ¬ main_has_record started
  ∧ ¬ ids_cover_records started
  ∧ ¬ directory_invariants started.
Proof.
  assert (Hmeta : _threadMetadata started = ∅) by reflexivity.
  assert (Hmain : ¬ main_has_record started).
  { unfold main_has_record. rewrite Hmeta, lookup_empty. by intros [? ?]. }
  repeat split; try reflexivity; try done.
  - intros [Hcover _]. apply Hmain, Hcover. auto.
  - intros [? _]. done.
Qed.

(** ** Failures and atomicity *)




(** ** Instances of the theorems *)

(** Thread [a], initialized in a fresh process, archived and unarchived. *)
Lemma archive_then_unarchive_example :
  "a" ≠ _mainThreadId with_thread_a
  ∧ _threadMetadata with_thread_a !! "a"
    = Some {| threadId := "a"; status := Regular; title := "New Thread" |}
  ∧ ("a" ∉ _archivedThreadIds with_thread_a)
  ∧ _threadIds (snd (unarchive "a" (snd (archive "a" with_thread_a))))
    = without "a" (_threadIds with_thread_a) ++ ["a"].
Proof.
  assert (H1 : "a" ≠ _mainThreadId with_thread_a) by (by vm_compute).
  assert (H2 : _threadMetadata with_thread_a !! "a"
               = Some {| threadId := "a"; status := Regular; title := "New Thread" |})
    by reflexivity.
  assert (H3 : "a" ∉ _archivedThreadIds with_thread_a)
    by (vm_compute; apply not_elem_of_nil).
  split; [exact H1|]. split; [exact H2|]. split; [exact H3|].
  exact (proj1 (proj2 (archive_then_unarchive "a" _ with_thread_a H1 H2 H3))).
Defined.


(** The process started on the empty medium that accepts every write. *)
Lemma fresh_process_example :
  reliable (empty_storage []) = true
  ∧ fst (mainThreadId started) = Returned DEFAULT_THREAD_ID
  ∧ threadIds started = [DEFAULT_THREAD_ID]
  ∧ archivedThreadIds started = [].
Proof.
  split; [reflexivity|].
  destruct (fresh_process [] eq_refl) as (_ & Hids & Harch & Hmain & _).
  split; [exact Hmain|]. split; [exact Hids | exact Harch].
Defined.

(** ** A directory in order *)

Lemma elem_of_without (x y : string) l : x ∈ without y l ↔ x ∈ l ∧ x ≠ y.
Proof. unfold without. rewrite list_elem_of_filter. tauto. Qed.

Lemma NoDup_without (y : string) l : NoDup l → NoDup (without y l).
Proof. apply NoDup_filter. Qed.

Lemma without_absent (y : string) l : y ∉ l → without y l = l.
Proof.
  intros Hy. unfold without. induction l as [|x l IH]; [done|].
  rewrite filter_cons. apply not_elem_of_cons in Hy as [Hne Hy].
  rewrite decide_True by done. by rewrite IH.
Qed.

Lemma status_cases (s : Status) : s = Regular ∨ s = Archived.
Proof. destruct s; auto. Qed.

Lemma in_order_rename main regular archived records id m newTitle :
  in_order main regular archived records →
  records !! id = Some m →
  in_order main regular archived (<[id := with_title newTitle m]> records).
Proof.
  intros (Hmain & Hna & Hnr & Hnda & Hreg & Harch) Hm.
  repeat split; try done.
  - destruct (decide (id = main)) as [->|Hne];
      [rewrite lookup_insert_eq; by eexists | by rewrite lookup_insert_ne].
  - intros [m' [Hm' Hs]]%Hreg. destruct (decide (id0 = id)) as [->|Hne].
    + rewrite lookup_insert_eq. simplify_eq. by eexists.
    + rewrite lookup_insert_ne by done. by eexists.
  - intros [m' [Hm' Hs]]. apply Hreg. destruct (decide (id0 = id)) as [->|Hne].
    + rewrite lookup_insert_eq in Hm'. simplify_eq. by eexists.
    + rewrite lookup_insert_ne in Hm' by done. by eexists.
  - intros [m' [Hm' Hs]]%Harch. destruct (decide (id0 = id)) as [->|Hne].
    + rewrite lookup_insert_eq. simplify_eq. by eexists.
    + rewrite lookup_insert_ne by done. by eexists.
  - intros [m' [Hm' Hs]]. apply Harch. destruct (decide (id0 = id)) as [->|Hne].
    + rewrite lookup_insert_eq in Hm'. simplify_eq. by eexists.
    + rewrite lookup_insert_ne in Hm' by done. by eexists.
Qed.

Lemma in_order_archive main regular archived records id m :
  in_order main regular archived records →
  id ≠ main →
  records !! id = Some m →
  id ∉ archived →
  in_order main (without id regular) (archived ++ [id])
    (<[id := with_status Archived m]> records).
Proof.
  intros (Hmain & Hna & Hnr & Hnda & Hreg & Harch) Hne Hm Hid.
  repeat split.
  - by rewrite lookup_insert_ne.
  - rewrite elem_of_app, list_elem_of_singleton. intros [?|?]; done.
  - by apply NoDup_without.
  - apply NoDup_app. repeat split; [done| |apply NoDup_singleton].
    intros x Hx ->%list_elem_of_singleton. done.
  - intros [[m' [Hm' Hs]]%Hreg Hx]%elem_of_without.
    rewrite lookup_insert_ne by done. by eexists.
  - intros [m' [Hm' Hs]]. destruct (decide (id0 = id)) as [->|Hx].
    + rewrite lookup_insert_eq in Hm'. by simplify_eq.
    + rewrite lookup_insert_ne in Hm' by done.
      apply elem_of_without. split; [|done]. apply Hreg. by eexists.
  - rewrite elem_of_app, list_elem_of_singleton. intros [[m' [Hm' Hs]]%Harch| ->].
    + assert (id0 ≠ id) by (intros ->; apply Hid, Harch; by eexists).
      rewrite lookup_insert_ne by done. by eexists.
    + rewrite lookup_insert_eq. by eexists.
  - intros [m' [Hm' Hs]]. rewrite elem_of_app, list_elem_of_singleton.
    destruct (decide (id0 = id)) as [->|Hx]; [by right|left].
    rewrite lookup_insert_ne in Hm' by done. apply Harch. by eexists.
Qed.

Lemma elem_of_delete_NoDup (x y : string) (l : list string) i :
  NoDup l → l !! i = Some y → x ∈ delete i l ↔ x ∈ l ∧ x ≠ y.
Proof.
  intros Hnd Hl. pose proof (take_drop_middle l i y Hl) as Heq.
  assert (Hmid : x ∈ l ↔ x ∈ take i l ++ y :: drop (S i) l) by (by rewrite Heq).
  rewrite <- Heq in Hnd. apply NoDup_app in Hnd as (_ & Hdisj & Hnd).
  apply NoDup_cons in Hnd as [Hy _].
  rewrite Hmid, delete_take_drop, !elem_of_app, elem_of_cons. split.
  - intros [Hin|Hin]; (split; [tauto|]); intros ->; [|done].
    apply (Hdisj y Hin). left.
  - tauto.
Qed.

Lemma in_order_unarchive main regular archived records id m i :
  in_order main regular archived records →
  records !! id = Some m →
  indexOf id archived = Some i →
  in_order main (if includes id regular then regular else regular ++ [id])
    (delete i archived) (<[id := with_status Regular m]> records).
Proof.
  intros (Hmain & Hna & Hnr & Hnda & Hreg & Harch) Hm Hi.
  apply indexOf_Some in Hi as [Hi _].
  assert (Hin : id ∈ archived) by (by eapply list_elem_of_lookup_2).
  assert (Hs : status m = Archived).
  { apply Harch in Hin as [m' [Hm' Hs]]. by simplify_eq. }
  assert (Hnot : id ∉ regular).
  { intros [m' [Hm' Hs']]%Hreg. simplify_eq. congruence. }
  apply includes_false in Hnot as Hinc. rewrite Hinc.
  assert (Hdel : ∀ x, x ∈ delete i archived ↔ x ∈ archived ∧ x ≠ id)
    by (intros x; by apply elem_of_delete_NoDup).
  repeat split.
  - destruct (decide (id = main)) as [->|Hne];
      [rewrite lookup_insert_eq; by eexists | by rewrite lookup_insert_ne].
  - rewrite Hdel. tauto.
  - apply NoDup_app. repeat split; [done| |apply NoDup_singleton].
    intros x Hx ->%list_elem_of_singleton. done.
  - rewrite delete_take_drop.
    rewrite <- (take_drop_middle archived i id Hi) in Hnda.
    apply NoDup_app in Hnda as (Hl & Hdisj & Hnd).
    apply NoDup_cons in Hnd as [Hx Hr].
    apply NoDup_app. repeat split; [done| |done].
    intros x Hxl Hxr. apply (Hdisj x Hxl). by right.
  - rewrite elem_of_app, list_elem_of_singleton. intros [[m' [Hm' Hs']]%Hreg| ->].
    + assert (id0 ≠ id) by (intros ->; simplify_eq; congruence).
      rewrite lookup_insert_ne by done. by eexists.
    + rewrite lookup_insert_eq. by eexists.
  - intros [m' [Hm' Hs']]. rewrite elem_of_app, list_elem_of_singleton.
    destruct (decide (id0 = id)) as [->|Hx]; [by right|left].
    rewrite lookup_insert_ne in Hm' by done. apply Hreg. by eexists.
  - intros [[m' [Hm' Hs']]%Harch Hx]%Hdel.
    rewrite lookup_insert_ne by done. by eexists.
  - intros [m' [Hm' Hs']]. destruct (decide (id0 = id)) as [->|Hx].
    + rewrite lookup_insert_eq in Hm'. by simplify_eq.
    + rewrite lookup_insert_ne in Hm' by done.
      apply Hdel. split; [|done]. apply Harch. by eexists.
Qed.

Lemma in_order_delete main regular archived records id :
  in_order main regular archived records →
  id ≠ main →
  in_order main (without id regular) (without id archived) (delete id records).
Proof.
  intros (Hmain & Hna & Hnr & Hnda & Hreg & Harch) Hne.
  repeat split.
  - by rewrite lookup_delete_ne.
  - rewrite elem_of_without. tauto.
  - by apply NoDup_without.
  - by apply NoDup_without.
  - intros [[m' [Hm' Hs]]%Hreg Hx]%elem_of_without.
    rewrite lookup_delete_ne by done. by eexists.
  - intros [m' [Hm' Hs]]. destruct (decide (id0 = id)) as [->|Hx].
    + by rewrite lookup_delete_eq in Hm'.
    + rewrite lookup_delete_ne in Hm' by done.
      apply elem_of_without. split; [|done]. apply Hreg. by eexists.
  - intros [[m' [Hm' Hs]]%Harch Hx]%elem_of_without.
    rewrite lookup_delete_ne by done. by eexists.
  - intros [m' [Hm' Hs]]. destruct (decide (id0 = id)) as [->|Hx].
    + by rewrite lookup_delete_eq in Hm'.
    + rewrite lookup_delete_ne in Hm' by done.
      apply elem_of_without. split; [|done]. apply Harch. by eexists.
Qed.

Lemma in_order_initialize main regular archived records id :
  in_order main regular archived records →
  records !! id = None →
  in_order main (if includes id regular then regular else regular ++ [id])
    (without id archived)
    (<[id := {| threadId := id; status := Regular; title := "New Thread" |}]> records).
Proof.
  intros (Hmain & Hna & Hnr & Hnda & Hreg & Harch) Hm.
  assert (Hnot : id ∉ regular).
  { intros [m' [Hm' _]]%Hreg. congruence. }
  assert (Hnota : id ∉ archived).
  { intros [m' [Hm' _]]%Harch. congruence. }
  apply includes_false in Hnot as Hinc. rewrite Hinc.
  rewrite (without_absent id archived Hnota).
  assert (Hne : id ≠ main) by (intros ->; destruct Hmain; congruence).
  repeat split; try done.
  - by rewrite lookup_insert_ne.
  - apply NoDup_app. repeat split; [done| |apply NoDup_singleton].
    intros x Hx ->%list_elem_of_singleton. done.
  - rewrite elem_of_app, list_elem_of_singleton. intros [[m' [Hm' Hs']]%Hreg| ->].
    + assert (id0 ≠ id) by (intros ->; congruence).
      rewrite lookup_insert_ne by done. by eexists.
    + rewrite lookup_insert_eq. by eexists.
  - intros [m' [Hm' Hs']]. rewrite elem_of_app, list_elem_of_singleton.
    destruct (decide (id0 = id)) as [->|Hx]; [by right|left].
    rewrite lookup_insert_ne in Hm' by done. apply Hreg. by eexists.
  - intros [m' [Hm' Hs']]%Harch.
    assert (id0 ≠ id) by (intros ->; congruence).
    rewrite lookup_insert_ne by done. by eexists.
  - intros [m' [Hm' Hs']]. destruct (decide (id0 = id)) as [->|Hx].
    + rewrite lookup_insert_eq in Hm'. by simplify_eq.
    + rewrite lookup_insert_ne in Hm' by done. apply Harch. by eexists.
Qed.

Lemma in_order_switch main regular archived records id :
  in_order main regular archived records →
  is_Some (records !! id) →
  id ∉ archived →
  in_order id regular archived records.
Proof.
  intros (Hmain & Hna & Hnr & Hnda & Hreg & Harch) Hid Hnot.
  exact (conj Hid (conj Hnot (conj Hnr (conj Hnda (conj Hreg Harch))))).
Qed.

(** The five invariants hold of a directory in order. *)
Lemma dedupe_keeps_first (l acc : list string) :
  NoDup acc →
  ∃ rest, fold_left (λ uniqueIds id,
                       if includes id uniqueIds then uniqueIds else uniqueIds ++ [id])
                    l acc = acc ++ rest
          ∧ NoDup (acc ++ rest)
          ∧ ∀ x, x ∈ acc ++ rest ↔ x ∈ acc ∨ x ∈ l.
Proof.
  revert acc. induction l as [|y l IH]; intros acc Hnd; simpl.
  - exists []. rewrite app_nil_r. split; [done|]. split; [done|].
    intros x. rewrite elem_of_nil. tauto.
  - destruct (includes y acc) eqn:Hy.
    + apply includes_true in Hy. destruct (IH acc Hnd) as (rest & Heq & Hnd' & Hin).
      exists rest. split; [done|]. split; [done|].
      intros x. rewrite Hin, elem_of_cons. split; [tauto|].
      intros [?|[->|?]]; tauto.
    + apply includes_false in Hy.
      assert (Hnd1 : NoDup (acc ++ [y])).
      { apply NoDup_app. repeat split; [done| |apply NoDup_singleton].
        intros x Hx ->%list_elem_of_singleton. done. }
      destruct (IH (acc ++ [y]) Hnd1) as (rest & Heq & Hnd' & Hin).
      exists (y :: rest). rewrite <- app_assoc in Heq, Hnd', Hin. simpl in *.
      split; [done|]. split; [done|].
      intros x. rewrite Hin, elem_of_app, list_elem_of_singleton, elem_of_cons. tauto.
Qed.

Lemma threadIds_main_first c : main_listed_first c.
Proof.
  unfold main_listed_first, threadIds, dedupe. simpl.
  destruct (dedupe_keeps_first
              (filter (λ id, includes id (_archivedThreadIds c) = false
                             ∧ id ≠ _mainThreadId c) (_threadIds c))
              [_mainThreadId c]) as (rest & Heq & Hnd & Hin);
    [apply NoDup_singleton|].
  exists rest. simpl in *. split; [exact Heq|]. rewrite Heq. split; [done|].
  intros x. apply NoDup_cons in Hnd as [Hx _].
  specialize (Hin x). rewrite elem_of_cons, list_elem_of_singleton in Hin.
  rewrite list_elem_of_filter, includes_false in Hin. split.
  - intros Hxr. destruct Hin as [Hin _]. destruct Hin as [->|Hin]; [auto|done|tauto].
  - intros (H1 & H2 & H3). destruct Hin as [_ Hin].
    destruct Hin as [->|Hin]; [tauto|done|done].
Qed.

(** ** Every method keeps the directory in order *)

Lemma well_formed_invariants c : well_formed c → directory_invariants c.
Proof.
  intros [(Hmain & Hna & Hnr & Hnda & Hreg & Harch) _].
  split; [done|]. split; [done|]. split; [|split; [|apply threadIds_main_first]].
  - split.
    + intros id. split.
      * intros [[m [Hm _]]%Hreg|[[m [Hm _]]%Harch| ->]]; eauto.
      * intros [m Hm]. destruct (status_cases (status m)) as [Hs|Hs].
        -- left. apply Hreg. eauto.
        -- right. left. apply Harch. eauto.
    + intros id [m [Hm Hs]]%Hreg [m' [Hm' Hs']]%Harch. simplify_eq. congruence.
  - intros id m Hm. split.
    + intros Hs. apply Harch. eauto.
    + intros [m' [Hm' Hs']]%Harch. by simplify_eq.
Qed.

Lemma well_formed_memory c c' :
  memory c = memory c' → well_formed c → well_formed c'.
Proof.
  unfold memory, well_formed, registry_consistent_at, instances_made.
  intros Hmem. injection Hmem as -> -> -> -> -> ->. done.
Qed.

Lemma persistState_memory c : memory (snd (persistState c)) = memory c.
Proof. by destruct (persistState_result c). Qed.

Lemma persistState_well_formed c : well_formed c → well_formed (snd (persistState c)).
Proof. apply well_formed_memory. symmetry. apply persistState_memory. Qed.

Ltac persist_cases :=
  match goal with
  | |- context [persistState ?s] =>
      let ls := fresh "ls" in
      destruct (persistState_result s) as [ls ? ? ?|? ls ? ?]; simpl in *
  end.

Lemma rename_well_formed id newTitle c :
  well_formed c → well_formed (snd (rename id newTitle c)).
Proof.
  intros [Hord Hreg]. unfold rename. monad_unfold. simpl.
  destruct (_threadMetadata c !! id) as [m|] eqn:Hm; [|done].
  persist_cases; (split; [by apply in_order_rename | done]).
Qed.

Lemma archive_well_formed id c :
  well_formed c → well_formed (snd (archive id c)).
Proof.
  intros [Hord Hreg]. unfold archive. monad_unfold. simpl.
  destruct (decide (id = _mainThreadId c)); [done|].
  destruct (_threadMetadata c !! id) as [m|] eqn:Hm; [|done].
  destruct (includes id (_archivedThreadIds c)) eqn:Ha; [done|].
  apply includes_false in Ha. simpl.
  persist_cases; (split; [by apply in_order_archive | done]).
Qed.

Lemma unarchive_well_formed id c :
  well_formed c → well_formed (snd (unarchive id c)).
Proof.
  intros [Hord Hreg].
  destruct (_threadMetadata c !! id) as [m|] eqn:Hm;
    [|unfold unarchive; monad_unfold; simpl; by rewrite Hm].
  destruct (indexOf id (_archivedThreadIds c)) as [i|] eqn:Hi;
    [|unfold unarchive; monad_unfold; simpl; by rewrite Hm, Hi].
  rewrite (unarchive_run id m i c Hm Hi).
  apply persistState_well_formed. split; [|done]. simpl.
  by apply in_order_unarchive.
Qed.

Lemma delete_well_formed id c :
  well_formed c → well_formed (snd (delete_thread id c)).
Proof.
  intros [Hord Hreg]. unfold delete_thread. monad_unfold. simpl.
  destruct (decide (id = _mainThreadId c)); [done|].
  destruct (has_metadata id c); [|done]. simpl.
  persist_cases; (split; [by apply in_order_delete | done]).
Qed.

Lemma initialize_well_formed id c :
  well_formed c → well_formed (snd (initialize id c)).
Proof.
  intros [Hord Hreg]. destruct (has_metadata id c) eqn:Hk.
  { by rewrite initialize_known. }
  apply has_metadata_false in Hk.
  pose proof (in_order_initialize _ _ _ _ id Hord Hk) as Hord'.
  unfold initialize. monad_unfold. simpl.
  unfold has_metadata. rewrite Hk. simpl.
  destruct (includes id (_threadIds c)); simpl in *;
    persist_cases; by split.
Qed.

(** The registry stays consistent when it is asked for a thread. *)
Lemma getOrCreate_well_formed id c :
  has_metadata id c = true →
  well_formed c → well_formed (snd (getOrCreateThreadRuntime id c)).
Proof.
  intros Hk [Hord Hreg].
  destruct (_threadRuntimeInstances c !! id) as [r|] eqn:Hri.
  { by rewrite (getOrCreate_hit id r c Hri). }
  pose proof (getOrCreate_miss id c Hri Hk) as Hmiss.
  destruct (new_LocalStorageHistoryAdapter id) as [history|e].
  - destruct Hmiss as [_ ->]. split; [done|]. simpl.
    intros id'. specialize (Hreg id').
    unfold registry_consistent_at, instances_made in *. simpl.
    rewrite instances_made_push, Hreg.
    destruct (decide (id = id')) as [->|Hne].
    + by rewrite Hri, lookup_insert_eq.
    + rewrite lookup_insert_ne by done. lia.
  - by destruct Hmiss as [-> _].
Qed.

Lemma set_main_well_formed id c :
  has_metadata id c = true →
  id ∉ _archivedThreadIds c →
  well_formed c → well_formed (set_mainThreadId id c).
Proof.
  intros Hk%has_metadata_true Ha [Hord Hreg]. split; [|done]. simpl.
  by apply (in_order_switch (_mainThreadId c)).
Qed.

(** What the tail of [switchToThread] and of [switchToNewThread] does. *)
Lemma make_main_well_formed id c :
  has_metadata id c = true →
  id ∉ _archivedThreadIds c →
  well_formed c →
  well_formed
    (snd ((modify (set_mainThreadId id) ;; getOrCreateThreadRuntime id ;;
           persistState) c)).
Proof.
  intros Hk Ha Hwf. monad_unfold. simpl.
  pose proof (getOrCreate_well_formed id (set_mainThreadId id c) Hk
                (set_main_well_formed id c Hk Ha Hwf)) as Hwf'.
  destruct (getOrCreateThreadRuntime id (set_mainThreadId id c))
    as [[r|e] c1]; simpl in *; [|done].
  by apply persistState_well_formed.
Qed.

Lemma switchToThread_well_formed id c :
  well_formed c → well_formed (snd (switchToThread id c)).
Proof.
  intros Hwf. unfold switchToThread.
  unfold mbind at 1, M_bind at 1, gets at 1.
  destruct (decide (_mainThreadId c = id)); [done|].
  unfold mbind at 1, M_bind at 1, gets at 1.
  destruct (has_metadata id c) eqn:Hk; [|done]. simpl.
  unfold mbind at 1, M_bind at 1, gets at 1.
  unfold mbind at 1, M_bind at 1.
  destruct (includes id (_archivedThreadIds c)) eqn:Ha; simpl.
  - pose proof (unarchive_well_formed id c Hwf) as Hwf1.
    apply includes_true in Ha.
    apply has_metadata_true in Hk as Hk'. destruct Hk' as [m Hm].
    destruct (elem_of_indexOf _ _ Ha) as [i Hi].
    assert (Hgone : id ∉ _archivedThreadIds (snd (unarchive id c))).
    { rewrite (unarchive_run id m i c Hm Hi).
      pose proof (persistState_memory
        {| _mainThreadId := _mainThreadId c;
           _threadIds := if includes id (_threadIds c) then _threadIds c
                         else _threadIds c ++ [id];
           _archivedThreadIds := delete i (_archivedThreadIds c);
           _threadMetadata := <[id := with_status Regular m]> (_threadMetadata c);
           _threadRuntimeInstances := _threadRuntimeInstances c;
           factoryCalls := factoryCalls c;
           storage := storage c;
           notifications := notifications c |}) as Hmem.
      unfold memory in Hmem. injection Hmem as _ _ -> _ _ _.
      destruct Hwf as [(_ & _ & _ & Hnd & _) _].
      apply delete_first_NoDup; [done|]. by apply indexOf_Some in Hi as [? _]. }
    assert (Hk1 : has_metadata id (snd (unarchive id c)) = true).
    { rewrite (unarchive_run id m i c Hm Hi).
      pose proof (persistState_memory
        {| _mainThreadId := _mainThreadId c;
           _threadIds := if includes id (_threadIds c) then _threadIds c
                         else _threadIds c ++ [id];
           _archivedThreadIds := delete i (_archivedThreadIds c);
           _threadMetadata := <[id := with_status Regular m]> (_threadMetadata c);
           _threadRuntimeInstances := _threadRuntimeInstances c;
           factoryCalls := factoryCalls c;
           storage := storage c;
           notifications := notifications c |}) as Hmem.
      unfold memory in Hmem. injection Hmem as _ _ _ Hmd _ _.
      unfold has_metadata. rewrite Hmd. simpl. by rewrite lookup_insert_eq. }
    destruct (unarchive id c) as [[[]|e] c1]; simpl in *; [|done].
    by apply make_main_well_formed.
  - apply includes_false in Ha. unfold mret, M_ret.
    by apply make_main_well_formed.
Qed.

Lemma switchToNewThread_well_formed newThreadId c :
  has_metadata newThreadId c = false →
  well_formed c → well_formed (snd (switchToNewThread newThreadId c)).
Proof.
  intros Hk Hwf. unfold switchToNewThread.
  unfold mbind at 1, M_bind at 1.
  pose proof (initialize_well_formed newThreadId c Hwf) as Hwf1.
  destruct (initialize_ends newThreadId c) as [Hk1 _].
  assert (Hgone : newThreadId ∉ _archivedThreadIds (snd (initialize newThreadId c))).
  { destruct Hwf as [(_ & _ & _ & _ & _ & Harch) _].
    assert (Hnot : newThreadId ∉ _archivedThreadIds c).
    { apply has_metadata_false in Hk. intros [m [Hm _]]%Harch. congruence. }
    clear Hwf1 Hk1. unfold initialize. monad_unfold. simpl. rewrite Hk. simpl.
    destruct (includes newThreadId (_threadIds c)); simpl;
      persist_cases; rewrite elem_of_without; tauto. }
  destruct (initialize newThreadId c) as [[r|e] c1]; simpl in *; [|done].
  by apply make_main_well_formed.
Qed.

Lemma generateTitle_well_formed id c :
  well_formed c → well_formed (snd (generateTitle id c)).
Proof.
  intros Hwf. unfold generateTitle. unfold mbind at 1, M_bind at 1, gets at 1.
  destruct (_threadMetadata c !! id) as [m|]; [|done].
  case_bool_decide; [by apply rename_well_formed | done].
Qed.

Lemma well_formed_main_known c :
  well_formed c → has_metadata (_mainThreadId c) c = true.
Proof. intros [(Hmain & _) _]. by apply has_metadata_true. Qed.

Lemma mainThreadId_well_formed c :
  well_formed c → mainThreadId c = (Returned (_mainThreadId c), c).
Proof. intros Hwf. by apply mainThreadId_known, well_formed_main_known. Qed.

Lemma getMainThreadRuntimeCore_well_formed c :
  well_formed c → well_formed (snd (getMainThreadRuntimeCore c)).
Proof.
  intros Hwf. unfold getMainThreadRuntimeCore.
  unfold mbind at 1, M_bind at 1, gets at 1.
  by apply getOrCreate_well_formed; [apply well_formed_main_known|].
Qed.

Lemma getThreadRuntimeCore_well_formed id c :
  well_formed c → well_formed (snd (getThreadRuntimeCore id c)).
Proof.
  intros Hwf. unfold getThreadRuntimeCore.
  unfold mbind at 1, M_bind at 1, gets at 1.
  destruct (has_metadata id c) eqn:Hk; simpl; [|done].
  by apply getOrCreate_well_formed.
Qed.

(** The first read of [mainThreadId] in a process started on an empty medium
    puts the directory in order, whatever the medium then answers. *)
Lemma first_read_well_formed f :
  let started := new_LocalThreadListRuntimeCore (empty_storage f) in
  fst started = Returned tt →
  well_formed (snd (mainThreadId (snd started))).
Proof.
  intros started Hret. subst started. rewrite new_on_empty_storage in *.
  destruct (persistState_result
    {| _mainThreadId := DEFAULT_THREAD_ID;
       _threadIds := [DEFAULT_THREAD_ID];
       _archivedThreadIds := [];
       _threadMetadata := ∅;
       _threadRuntimeInstances := ∅;
       factoryCalls := [];
       storage := empty_storage f;
       notifications := 0 |}) as [ls ? ? ?|e ls ? ?]; simpl in *; [|done].
  rewrite mainThreadId_repair by done.
  replace (default_made_main _)
    with {| _mainThreadId := DEFAULT_THREAD_ID;
            _threadIds := [DEFAULT_THREAD_ID];
            _archivedThreadIds := [];
            _threadMetadata := <[DEFAULT_THREAD_ID := DEFAULT_THREAD_METADATA]> ∅;
            _threadRuntimeInstances := ∅;
            factoryCalls := [];
            storage := ls;
            notifications := 1 |} by reflexivity.
  match goal with |- context [persistState ?s] =>
    assert (Hwf : well_formed s) end.
  { split; [|done]. simpl. repeat split.
    - rewrite lookup_insert_eq. by eexists.
    - apply not_elem_of_nil.
    - apply NoDup_singleton.
    - apply NoDup_nil_2.
    - intros ->%list_elem_of_singleton. rewrite lookup_insert_eq. by eexists.
    - intros [m [Hm Hs]]. apply list_elem_of_singleton.
      destruct (decide (id = DEFAULT_THREAD_ID)) as [->|Hne]; [done|].
      by rewrite lookup_insert_ne, lookup_empty in Hm.
    - by intros ?%elem_of_nil.
    - intros [m [Hm Hs]].
      destruct (decide (id = DEFAULT_THREAD_ID)) as [->|Hne].
      + rewrite lookup_insert_eq in Hm. by simplify_eq.
      + by rewrite lookup_insert_ne, lookup_empty in Hm. }
  match goal with |- context [persistState ?s] =>
    pose proof (persistState_well_formed s Hwf) as Hwf';
    destruct (persistState s) as [[[]|e] c'] end; done.
Qed.

(** ** The order of [threadIds] *)

Lemma filter_all (P : string → Prop) `{∀ x, Decision (P x)} (l : list string) :
  (∀ x, x ∈ l → P x) → filter P l = l.
Proof.
  induction l as [|y l IH]; [done|]. intros Hall.
  rewrite filter_cons, decide_True by (apply Hall; left).
  f_equal. apply IH. intros x Hx. apply Hall. by right.
Qed.

Lemma filter_same (P Q : string → Prop) `{∀ x, Decision (P x)}
    `{∀ x, Decision (Q x)} (l : list string) :
  (∀ x, x ∈ l → P x ↔ Q x) → filter P l = filter Q l.
Proof.
  induction l as [|y l IH]; [done|]. intros Hall.
  rewrite !filter_cons.
  assert (Hy : P y ↔ Q y) by (apply Hall; left).
  rewrite IH by (intros x Hx; apply Hall; by right).
  destruct (decide (P y)), (decide (Q y)); tauto.
Qed.

Lemma elem_of_first_occurrences x l : x ∈ first_occurrences l ↔ x ∈ l.
Proof.
  induction l as [|y l IH]; [done|]. simpl.
  rewrite !elem_of_cons, elem_of_without, IH.
  destruct (decide (x = y)); tauto.
Qed.

Lemma NoDup_first_occurrences l : NoDup (first_occurrences l).
Proof.
  induction l as [|y l IH]; simpl; [apply NoDup_nil_2|].
  apply NoDup_cons. split; [apply without_not_in|by apply NoDup_without].
Qed.

Lemma first_occurrences_NoDup l : NoDup l → first_occurrences l = l.
Proof.
  induction l as [|y l IH]; [done|]. intros [Hy Hl]%NoDup_cons. simpl.
  rewrite IH by done. by rewrite without_absent.
Qed.

(** The loop of the getter, from the ids it has collected so far. *)
Lemma dedupe_from (l acc : list string) :
  fold_left (λ uniqueIds id,
               if includes id uniqueIds then uniqueIds else uniqueIds ++ [id])
            l acc
  = acc ++ filter (λ x, x ∉ acc) (first_occurrences l).
Proof.
  revert acc. induction l as [|y l IH]; intros acc; simpl.
  - by rewrite app_nil_r.
  - rewrite filter_cons. destruct (includes y acc) eqn:Hy.
    + apply includes_true in Hy. rewrite decide_False by (intros H; by apply H).
      rewrite IH. f_equal. unfold without. rewrite list_filter_filter.
      apply list_filter_iff. intros x. split; [|tauto].
      intros Hx. split; [done|]. by intros ->.
    + apply includes_false in Hy. rewrite decide_True by done.
      rewrite IH, <- app_assoc. simpl. do 2 f_equal.
      unfold without. rewrite list_filter_filter.
      apply list_filter_iff. intros x.
      rewrite elem_of_app, list_elem_of_singleton. tauto.
Qed.

Lemma dedupe_first_occurrences l : dedupe l = first_occurrences l.
Proof.
  unfold dedupe. rewrite dedupe_from. simpl.
  apply filter_all. intros x _. apply not_elem_of_nil.
Qed.

Lemma remove_dups_snoc (x : string) l :
  remove_dups (l ++ [x]) = without x (remove_dups l) ++ [x].
Proof.
  induction l as [|y l IH]; [done|]. simpl.
  destruct (decide_rel elem_of y (l ++ [x])) as [Hin|Hin];
    destruct (decide_rel elem_of y l) as [Hin'|Hin']; rewrite IH.
  - done.
  - apply elem_of_app in Hin as [?|Hx]; [done|].
    apply list_elem_of_singleton in Hx as ->.
    unfold without. rewrite filter_cons, decide_False by (intros H; by apply H).
    done.
  - exfalso. apply Hin, elem_of_app. by left.
  - assert (y ≠ x).
    { intros ->. apply Hin, elem_of_app. right. by apply list_elem_of_singleton. }
    unfold without. rewrite filter_cons, decide_True by done. done.
Qed.

Lemma first_occurrences_remove_dups l :
  first_occurrences l = reverse (remove_dups (reverse l)).
Proof.
  induction l as [|x l IH]; [done|]. simpl.
  rewrite reverse_cons, remove_dups_snoc, reverse_app, reverse_singleton. simpl.
  f_equal. rewrite IH. unfold without. by rewrite filter_reverse.
Qed.

Lemma threadIds_first_occurrences c :
  threadIds c = _mainThreadId c :: first_occurrences (regular_others c).
Proof.
  unfold threadIds. fold (regular_others c). rewrite dedupe_first_occurrences.
  simpl. f_equal. apply without_absent. rewrite elem_of_first_occurrences.
  unfold regular_others. rewrite list_elem_of_filter. tauto.
Qed.

Lemma regular_others_in_order c :
  well_formed c → regular_others c = without (_mainThreadId c) (_threadIds c).
Proof.
  intros [(_ & _ & _ & _ & Hreg & Harch) _]. unfold regular_others, without.
  apply filter_same. intros x Hx. rewrite includes_false.
  split; [tauto|]. intros Hne. split; [|done].
  apply Hreg in Hx as [m [Hm Hs]]. intros [m' [Hm' Hs']]%Harch. congruence.
Qed.

(** The getter [threadIds] lists the main id first, then the first
    occurrences, in the order of the regular list, of the regular ids that
    are neither archived nor the main id; no id is listed twice.  The first
    occurrences are what [remove_dups] leaves of the reversed list,
    reversed; when the regular list names no id twice they are the ids
    themselves. *)
Theorem threadIds_lists_main_first (c : Core) :
  main_listed_first c
  ∧ threadIds c = _mainThreadId c :: first_occurrences (regular_others c)
  ∧ first_occurrences (regular_others c)
    = reverse (remove_dups (reverse (regular_others c)))
  ∧ (NoDup (_threadIds c) → threadIds c = _mainThreadId c :: regular_others c).
Proof.
  split; [apply threadIds_main_first|].
  split; [apply threadIds_first_occurrences|].
  split; [apply first_occurrences_remove_dups|].
  intros Hnd. rewrite threadIds_first_occurrences. f_equal.
  apply first_occurrences_NoDup. by apply NoDup_filter.
Qed.

(** Every directory method, called with an id that names no member of
    [Object.prototype], keeps a directory in order, whether it returns or
    throws.  The five invariants hold of a directory in order, and the getter
    [threadIds] lists the main id and then the regular list without the main
    id, in its order. *)
Theorem methods_keep_directory_in_order (c : Core) :
  well_formed c →
  directory_invariants c
  ∧ threadIds c = _mainThreadId c :: without (_mainThreadId c) (_threadIds c)
  ∧ (∀ id newTitle, inherited id = false →
       well_formed (snd (rename id newTitle c)))
  ∧ (∀ id, inherited id = false → well_formed (snd (archive id c)))
  ∧ (∀ id, inherited id = false → well_formed (snd (unarchive id c)))
  ∧ (∀ id, inherited id = false → well_formed (snd (delete_thread id c)))
  ∧ (∀ id, inherited id = false → well_formed (snd (initialize id c)))
  ∧ (∀ id, inherited id = false → well_formed (snd (switchToThread id c)))
  ∧ (∀ id, inherited id = false → has_metadata id c = false →
       well_formed (snd (switchToNewThread id c)))
  ∧ (∀ id, inherited id = false → well_formed (snd (generateTitle id c)))
  ∧ mainThreadId c = (Returned (_mainThreadId c), c)
  ∧ (inherited (_mainThreadId c) = false →
     well_formed (snd (getMainThreadRuntimeCore c)))
  ∧ (∀ id, inherited id = false → well_formed (snd (getThreadRuntimeCore id c))).
Proof.
  intros Hwf.
  split; [by apply well_formed_invariants|].
  split.
  { rewrite threadIds_first_occurrences, regular_others_in_order by done.
    f_equal. apply first_occurrences_NoDup, NoDup_without.
    by destruct Hwf as [(_ & _ & Hnd & _) _]. }
  split; [intros; by apply rename_well_formed|].
  split; [intros; by apply archive_well_formed|].
  split; [intros; by apply unarchive_well_formed|].
  split; [intros; by apply delete_well_formed|].
  split; [intros; by apply initialize_well_formed|].
  split; [intros; by apply switchToThread_well_formed|].
  split; [intros; by apply switchToNewThread_well_formed|].
  split; [intros; by apply generateTitle_well_formed|].
  split; [by apply mainThreadId_well_formed|].
  split; [intros; by apply getMainThreadRuntimeCore_well_formed|].
  intros; by apply getThreadRuntimeCore_well_formed.
Qed.

(** The directory of a fresh process after its first read of [mainThreadId]. *)
Lemma methods_keep_directory_in_order_example :
  well_formed (snd (mainThreadId started))
  ∧ directory_invariants (snd (mainThreadId started)).
Proof.
  assert (Hwf : well_formed (snd (mainThreadId started)))
    by (apply (first_read_well_formed []); reflexivity).
  split; [exact Hwf|].
  exact (proj1 (methods_keep_directory_in_order _ Hwf)).
Defined.

(** ** What [persistState] leaves behind *)

(** [persistState] never changes the object's own fields nor the entries of
    [localStorage] outside the directory.  Either it returns, the four
    directory entries then hold what the object holds and the subscribers
    were notified once; or it throws what the medium threw and notifies
    nobody.  On a medium that accepts every write it returns.  The four
    writes are not one: when the medium accepts the first and refuses the
    second, [localStorage] is left with the new main id beside the old
    list. *)
Theorem persistState_commits_or_throws (c : Core) :
  let ended := persistState c in
  memory (snd ended) = memory c
  ∧ items (storage (snd ended)) = items (storage c)
  ∧ ((fst ended = Returned tt
      ∧ persisted c (storage (snd ended))
      ∧ notifications (snd ended) = S (notifications c))
     ∨ (∃ e, fst ended = Thrown (DOM e)
             ∧ notifications (snd ended) = notifications c
             ∧ reliable (storage c) = false))
  ∧ (reliable (storage c) = true →
     fst ended = Returned tt ∧ reliable (storage (snd ended)) = true)
  ∧ (∀ e rest,
       faults (storage c) = None :: Some e :: rest →
       fst ended = Thrown (DOM e)
       ∧ assistant_mainThreadId (storage (snd ended)) = Some (_mainThreadId c)
       ∧ assistant_threadIds (storage (snd ended)) = assistant_threadIds (storage c)
       ∧ assistant_archivedThreadIds (storage (snd ended))
         = assistant_archivedThreadIds (storage c)
       ∧ assistant_threadMetadata (storage (snd ended))
         = assistant_threadMetadata (storage c)).
Proof.
  intros ended. subst ended. split; [apply persistState_memory|].
  split; [by destruct (persistState_result c)|].
  split; [|split].
  - destruct (persistState_result c) as [ls Hp Hi Hr|e ls Hi Hr]; simpl.
    + by left.
    + right. by exists e.
  - intros Hrel.
    destruct (persistState_result c) as [ls Hp Hi Hr|e ls Hi Hr]; simpl;
      [auto | congruence].
  - intros e rest Hf. unfold persistState, saveThreadsToLocalStorage, setItem.
    unfold mbind, M_bind. rewrite Hf. simpl. done.
Qed.

(** The same, in the form the later proofs use. *)
Lemma persistState_commits_or_throws_aux (c : Core) :
  memory (snd (persistState c)) = memory c
  ∧ items (storage (snd (persistState c))) = items (storage c)
  ∧ (reliable (storage c) = true →
     fst (persistState c) = Returned tt
     ∧ persisted (snd (persistState c)) (storage (snd (persistState c)))
     ∧ notifications (snd (persistState c)) = S (notifications c)).
Proof.
  split; [apply persistState_memory|].
  destruct (persistState_result c) as [ls Hp Hi Hr|e ls Hi Hr]; simpl;
    (split; [done|]); intros Hrel; [|congruence].
  destruct Hp as (?&?&?&?). by repeat split.
Qed.

(** ** Renaming *)

Lemma rename_run id newTitle m c :
  _threadMetadata c !! id = Some m →
  rename id newTitle c
  = persistState
      (set_threadMetadata (<[id := with_title newTitle m]> (_threadMetadata c)) c).
Proof. intros Hm. unfold rename. monad_unfold. simpl. by rewrite Hm. Qed.

(** [rename] with an id that names no member of [Object.prototype]: of an
    unknown thread it fails with NotFound and touches nothing.
    For a thread with a record, the record takes the new title and keeps its
    status and thread id; the other records, the two lists, the main id and
    the registry stay as they were, whatever the medium answers; on a medium
    that accepts the writes the call returns, the directory is persisted and
    the subscribers are notified once.  Of two renames in a row the second
    title stays. *)
Theorem rename_changes_title_only (id newTitle : string) (c : Core) :
  inherited id = false →
  let renamed := rename id newTitle c in
  match _threadMetadata c !! id with
  | None =>
      renamed
      = (Thrown (NotFound ("Thread " +:+ id +:+ " not found, cannot rename.")), c)
  | Some m =>
      _threadMetadata (snd renamed) !! id
      = Some {| threadId := threadId m; status := status m; title := newTitle |}
      ∧ (∀ other, other ≠ id →
           _threadMetadata (snd renamed) !! other = _threadMetadata c !! other)
      ∧ _mainThreadId (snd renamed) = _mainThreadId c
      ∧ _threadIds (snd renamed) = _threadIds c
      ∧ _archivedThreadIds (snd renamed) = _archivedThreadIds c
      ∧ _threadRuntimeInstances (snd renamed) = _threadRuntimeInstances c
      ∧ (reliable (storage c) = true →
         fst renamed = Returned tt
         ∧ persisted (snd renamed) (storage (snd renamed))
         ∧ notifications (snd renamed) = S (notifications c))
      ∧ (∀ again,
           memory (snd (rename id again (snd renamed)))
           = memory (snd (rename id again c)))
  end.
Proof.
  intros _ renamed. subst renamed.
  destruct (_threadMetadata c !! id) as [m|] eqn:Hm.
  - rewrite (rename_run id newTitle m c Hm).
    set (c1 := set_threadMetadata _ c).
    pose proof (persistState_memory c1) as Hmem.
    unfold memory in Hmem. injection Hmem as Hmain Hids Harch Hmeta Hreg Hcalls.
    rewrite Hmain, Hids, Harch, Hmeta, Hreg. subst c1. simpl.
    split; [by rewrite lookup_insert_eq|].
    split; [intros other Hne; by rewrite lookup_insert_ne|].
    repeat (split; [done|]). split.
    + intros Hrel.
      destruct (persistState_result
                  (set_threadMetadata
                     (<[id := with_title newTitle m]> (_threadMetadata c)) c))
        as [ls Hp Hi Hr|e ls Hi Hr]; simpl in *; [|congruence].
      destruct Hp as (?&?&?&?). by repeat split.
    + intros again.
      match goal with |- context [rename id again (snd (persistState ?s))] =>
        assert (Hm1 : _threadMetadata (snd (persistState s)) !! id
                      = Some (with_title newTitle m))
          by (rewrite Hmeta; simpl; apply lookup_insert_eq);
        rewrite (rename_run id again _ _ Hm1)
      end.
      rewrite (rename_run id again m c Hm), !persistState_memory.
      unfold memory. simpl. rewrite Hmain, Hids, Harch, Hmeta, Hreg, Hcalls.
      simpl. by rewrite insert_insert_eq.
  - unfold rename. monad_unfold. simpl. by rewrite Hm.
Qed.

(** ** Deleting *)

Lemma delete_run id c :
  id ≠ _mainThreadId c →
  has_metadata id c = true →
  delete_thread id c
  = persistState
      {| _mainThreadId := _mainThreadId c;
         _threadIds := without id (_threadIds c);
         _archivedThreadIds := without id (_archivedThreadIds c);
         _threadMetadata := delete id (_threadMetadata c);
         _threadRuntimeInstances := _threadRuntimeInstances c;
         factoryCalls := factoryCalls c;
         storage := removeItem (history_key id) (storage c);
         notifications := notifications c |}.
Proof.
  intros Hne Hk. unfold delete_thread. monad_unfold. simpl.
  rewrite decide_False by done. by rewrite Hk.
Qed.

Lemma delete_unknown id c :
  id ≠ _mainThreadId c →
  has_metadata id c = false →
  delete_thread id c = (Returned tt, c).
Proof.
  intros Hne Hk. unfold delete_thread. monad_unfold. simpl.
  rewrite decide_False by done. by rewrite Hk.
Qed.

Lemma delete_known_ends id c :
  id ≠ _mainThreadId c →
  has_metadata id c = true →
  _threadMetadata (snd (delete_thread id c)) = delete id (_threadMetadata c)
  ∧ _threadIds (snd (delete_thread id c)) = without id (_threadIds c)
  ∧ _archivedThreadIds (snd (delete_thread id c)) = without id (_archivedThreadIds c)
  ∧ items (storage (snd (delete_thread id c)))
    = delete (history_key id) (items (storage c))
  ∧ _mainThreadId (snd (delete_thread id c)) = _mainThreadId c
  ∧ _threadRuntimeInstances (snd (delete_thread id c)) = _threadRuntimeInstances c
  ∧ factoryCalls (snd (delete_thread id c)) = factoryCalls c
  ∧ (reliable (storage c) = true →
     fst (delete_thread id c) = Returned tt
     ∧ persisted (snd (delete_thread id c)) (storage (snd (delete_thread id c)))
     ∧ notifications (snd (delete_thread id c)) = S (notifications c)).
Proof.
  intros Hne Hk. rewrite (delete_run id c Hne Hk).
  match goal with |- context [persistState ?s] =>
    destruct (persistState_commits_or_throws_aux s) as (Hmem & Hitems & Hrel)
  end.
  unfold memory in Hmem. injection Hmem as Hmain Hids Harch Hmeta Hreg Hcalls.
  rewrite Hmain, Hids, Harch, Hmeta, Hreg, Hitems, Hcalls. simpl.
  repeat (split; [done|]). intros Hr. by apply Hrel.
Qed.

(** [delete] of a thread that is not the main one, with an id that names no
    member of [Object.prototype]: without a record the call
    returns and changes nothing; with a record, the record is gone, the id is
    on neither list and the stored history of the thread is removed, while
    the other records, the membership and order of the other ids, the other
    entries of [localStorage], the main id and the registry (the runtime of
    the deleted thread included) stay as they were, whatever the medium
    answers; on a medium that accepts the writes the call returns and the
    directory is persisted. *)
Theorem delete_removes_thread (id : string) (c : Core) :
  inherited id = false →
  id ≠ _mainThreadId c →
  let deleted := delete_thread id c in
  (has_metadata id c = false → deleted = (Returned tt, c))
  ∧ (has_metadata id c = true →
     _threadMetadata (snd deleted) = delete id (_threadMetadata c)
     ∧ _threadIds (snd deleted) = without id (_threadIds c)
     ∧ _archivedThreadIds (snd deleted) = without id (_archivedThreadIds c)
     ∧ items (storage (snd deleted)) = delete (history_key id) (items (storage c))
     ∧ _mainThreadId (snd deleted) = _mainThreadId c
     ∧ _threadRuntimeInstances (snd deleted) = _threadRuntimeInstances c
     ∧ (reliable (storage c) = true →
        fst deleted = Returned tt
        ∧ persisted (snd deleted) (storage (snd deleted))
        ∧ notifications (snd deleted) = S (notifications c))).
Proof.
  intros _ Hne deleted. subst deleted. split; [by apply delete_unknown|].
  intros Hk.
  destruct (delete_known_ends id c Hne Hk)
    as (Hmeta & Hids & Harch & Hitems & Hmain & Hreg & _ & Hrel).
  done.
Qed.

(** ** What the methods leave alone *)

Section Keeps.
Context {B : Type} (part : Core → B).

Lemma keeps_bind {A A'} (m : M A) (k : A → M A') :
keeps part m → (∀ a, keeps part (k a)) → keeps part (m ≫= k).
Proof.
intros Hm Hk c. unfold mbind, M_bind. specialize (Hm c).
destruct (m c) as [[a|e] c1]; simpl in *; [|done].
by rewrite Hk.
Qed.

Lemma keeps_ret {A} (a : A) : keeps part (mret a : M A).
Proof. done. Qed.

Lemma keeps_gets {A} (f : Core → A) : keeps part (gets f).
Proof. done. Qed.

Lemma keeps_throw {A} e : keeps part (throw e : M A).
Proof. done. Qed.

Lemma keeps_lift {A} (o : Outcome A) : keeps part (lift o).
Proof. done. Qed.

Lemma keeps_modify f : (∀ c, part (f c) = part c) → keeps part (modify f).
Proof. intros Hf c. apply Hf. Qed.

Lemma keeps_when b m : keeps part m → keeps part (when b m).
Proof. by destruct b. Qed.
End Keeps.

Lemma persistState_keeps_histories : keeps histories persistState.
Proof. intros c. unfold histories. by destruct (persistState_result c). Qed.

Lemma persistState_keeps_made : keeps made persistState.
Proof. intros c. by destruct (persistState_result c). Qed.

Lemma persistState_keeps_directory : keeps directory persistState.
Proof. intros c. by destruct (persistState_result c). Qed.

Lemma threadFactory_keeps {B} (part : Core → B) id h :
  (∀ c calls,
     part {| _mainThreadId := _mainThreadId c;
             _threadIds := _threadIds c;
             _archivedThreadIds := _archivedThreadIds c;
             _threadMetadata := _threadMetadata c;
             _threadRuntimeInstances := _threadRuntimeInstances c;
             factoryCalls := calls;
             storage := storage c;
             notifications := notifications c |} = part c) →
  keeps part (threadFactory id h).
Proof. intros Hp c. apply Hp. Qed.

Ltac keeps_step :=
  cbv beta;
  lazymatch goal with
  | |- keeps histories persistState => apply persistState_keeps_histories
  | |- keeps made persistState => apply persistState_keeps_made
  | |- keeps directory persistState => apply persistState_keeps_directory
  | |- keeps _ (mret _) => apply keeps_ret
  | |- keeps _ (gets _) => apply keeps_gets
  | |- keeps _ (throw _) => apply keeps_throw
  | |- keeps _ (lift _) => apply keeps_lift
  | |- keeps _ (modify _) => apply keeps_modify; intros ?; reflexivity
  | |- keeps _ (threadFactory _ _) => apply threadFactory_keeps; intros ? ?; reflexivity
  | |- keeps _ (when _ _) => apply keeps_when
  | |- keeps _ (mbind _ _) => apply keeps_bind; [|intros ?]
  | |- keeps _ (put_metadata _ _) => unfold put_metadata
  | |- keeps _ (push_threadId _) => unfold push_threadId
  | |- keeps _ (unshift_threadId _) => unfold unshift_threadId
  | |- keeps _ (put_runtime _ _) => unfold put_runtime
  | |- keeps _ (if ?b then _ else _) => destruct b
  | |- keeps _ (match ?o with Some _ => _ | None => _ end) => destruct o
  end.

Ltac keeps_all := repeat keeps_step.

Lemma getOrCreate_keeps_histories id : keeps histories (getOrCreateThreadRuntime id).
Proof. unfold getOrCreateThreadRuntime. keeps_all. Qed.

Lemma rename_keeps_histories id t : keeps histories (rename id t).
Proof. unfold rename. keeps_all. Qed.

Lemma archive_keeps_histories id : keeps histories (archive id).
Proof. unfold archive. keeps_all. Qed.

Lemma unarchive_keeps_histories id : keeps histories (unarchive id).
Proof. unfold unarchive. keeps_all. Qed.

Lemma initialize_keeps_histories id : keeps histories (initialize id).
Proof. unfold initialize. keeps_all. Qed.

Lemma kept_made_initialize id : keeps made (initialize id).
Proof. unfold initialize. keeps_all. Qed.

Lemma mainThreadId_keeps_histories : keeps histories mainThreadId.
Proof. unfold mainThreadId. keeps_all. Qed.

Lemma switchToThread_keeps_histories id : keeps histories (switchToThread id).
Proof.
  unfold switchToThread. keeps_all;
    first [apply unarchive_keeps_histories | apply getOrCreate_keeps_histories].
Qed.

Lemma switchToNewThread_keeps_histories id : keeps histories (switchToNewThread id).
Proof.
  unfold switchToNewThread. keeps_all;
    first [apply initialize_keeps_histories | apply getOrCreate_keeps_histories].
Qed.

Lemma generateTitle_keeps_histories id : keeps histories (generateTitle id).
Proof.
  unfold generateTitle. apply keeps_bind; [apply keeps_gets|].
  intros [m|]; [|apply keeps_throw].
  case_bool_decide; [apply rename_keeps_histories | apply keeps_ret].
Qed.

Lemma getThreadRuntimeCore_keeps_histories id :
  keeps histories (getThreadRuntimeCore id).
Proof. unfold getThreadRuntimeCore. keeps_all. apply getOrCreate_keeps_histories. Qed.

Lemma getMainThreadRuntimeCore_keeps_histories :
  keeps histories getMainThreadRuntimeCore.
Proof. unfold getMainThreadRuntimeCore. keeps_all. apply getOrCreate_keeps_histories. Qed.

Lemma constructor_keeps_histories : keeps histories repair_loaded_state.
Proof. unfold repair_loaded_state. keeps_all. Qed.

(** ** Histories and the directory in one [localStorage] *)

Lemma list_ascii_of_app s1 s2 :
  String.list_ascii_of_string (s1 +:+ s2)
  = String.list_ascii_of_string s1 ++ String.list_ascii_of_string s2.
Proof. induction s1 as [|a s1 IH]; simpl; [done|]. by rewrite IH. Qed.

Lemma list_ascii_of_string_inj s1 s2 :
  String.list_ascii_of_string s1 = String.list_ascii_of_string s2 → s1 = s2.
Proof.
  intros Heq. rewrite <- (String.string_of_list_ascii_of_string s1),
    <- (String.string_of_list_ascii_of_string s2). by rewrite Heq.
Qed.

Lemma history_key_inj id1 id2 : history_key id1 = history_key id2 → id1 = id2.
Proof.
  unfold history_key. intros Heq%String.app_inj.
  apply (f_equal String.list_ascii_of_string) in Heq.
  rewrite !list_ascii_of_app in Heq. apply app_inv_tail in Heq.
  by apply list_ascii_of_string_inj.
Qed.

Lemma new_adapter_key id this :
  new_LocalStorageHistoryAdapter id = Returned this →
  id ≠ "" ∧ adapter_threadId this = id ∧ storageKey this = history_key id.
Proof.
  unfold new_LocalStorageHistoryAdapter.
  destruct (decide (id = "")); intros Heq; by simplify_eq.
Qed.

Section HistoryFrame.
Context `{DateText}.

(** What [saveFullHistory] leaves in [localStorage]. *)
Lemma saveFullHistory_storage this T b :
localStorage (snd (saveFullHistory this (Some T) b))
= if accepts_next (localStorage b)
  then with_items (<[storageKey this := Json (serialize T)]> (items (localStorage b)))
         (with_faults (tail (faults (localStorage b))) (localStorage b))
  else with_faults (tail (faults (localStorage b))) (localStorage b).
Proof.
unfold saveFullHistory, setItem, accepts_next.
by destruct (faults (localStorage b)) as [|[e|] rest].
Qed.

(** What [load] returns only depends on the entry under the adapter's key. *)
Lemma load_depends_on_entry this b b' :
items (localStorage b') !! storageKey this
= items (localStorage b) !! storageKey this →
fst (load this b') = fst (load this b).
Proof.
intros Heq. unfold load. rewrite Heq.
destruct (items (localStorage b) !! storageKey this) as [[doc|s]|];
  [destruct (rehydrate_history doc)|destruct s|]; done.
Qed.

(** The history adapter of one thread leaves the directory entries and the
  histories of the other threads alone.  The keys of two threads differ;
  after [saveFullHistory] for thread [id], with any data and whatever the
  medium answers, the directory loads as before and the adapter of another
  thread loads what it loaded before. *)
Theorem histories_do_not_interfere (id other : string)
  (this that : LocalStorageHistoryAdapter)
  (data : option ExportedMessageRepository) (b : Browser) :
new_LocalStorageHistoryAdapter id = Returned this →
new_LocalStorageHistoryAdapter other = Returned that →
id ≠ other →
let saved := snd (saveFullHistory this data b) in
storageKey this ≠ storageKey that
∧ directory_entries (localStorage saved) = directory_entries (localStorage b)
∧ memory (loadThreadsFromLocalStorage (localStorage saved))
  = memory (loadThreadsFromLocalStorage (localStorage b))
∧ items (localStorage saved) !! storageKey that
  = items (localStorage b) !! storageKey that
∧ fst (load that saved) = fst (load that b).
Proof.
intros Hthis Hthat Hne saved.
apply new_adapter_key in Hthis as (_ & _ & Hk1).
apply new_adapter_key in Hthat as (_ & _ & Hk2).
assert (Hkeys : storageKey this ≠ storageKey that).
{ rewrite Hk1, Hk2. intros Heq%history_key_inj. done. }
assert (Hdir : directory_entries (localStorage saved)
               = directory_entries (localStorage b)).
{ subst saved. destruct data as [T|]; [|done].
  rewrite saveFullHistory_storage. by destruct (accepts_next _). }
assert (Hitem : items (localStorage saved) !! storageKey that
                = items (localStorage b) !! storageKey that).
{ subst saved. destruct data as [T|]; [|done].
  rewrite saveFullHistory_storage. destruct (accepts_next _); simpl; [|done].
  by rewrite lookup_insert_ne. }
split; [done|].
split; [done|]. split; [|split; [done|by apply load_depends_on_entry]].
unfold directory_entries in Hdir. injection Hdir as Hm Hi Ha Hmd.
unfold memory, loadThreadsFromLocalStorage, load_mainThreadId. simpl.
by rewrite Hm, Hi, Ha, Hmd.
Qed.

(** Of two saves in a row the second one stays: when the medium accepts the
  second write, the entry holds the second tree, whether or not the first
  write was accepted, the other entries are as before the two, and [load]
  gives the second tree back when it is well formed. *)
Theorem saveFullHistory_last_wins (this : LocalStorageHistoryAdapter)
  (T1 T2 : ExportedMessageRepository) (b : Browser) :
let first := snd (saveFullHistory this (Some T1) b) in
accepts_next (localStorage first) = true →
let second := snd (saveFullHistory this (Some T2) first) in
items (localStorage second)
= <[storageKey this := Json (serialize T2)]> (items (localStorage b))
∧ fst (load this second) = Returned (rehydrate_history (serialize T2))
∧ (well_formed_tree T2 = true → fst (load this second) = Returned (Some T2)).
Proof.
intros first Hacc second.
assert (Hitems : items (localStorage second)
          = <[storageKey this := Json (serialize T2)]> (items (localStorage b))).
{ subst second. rewrite saveFullHistory_storage, Hacc. simpl.
  subst first. rewrite saveFullHistory_storage.
  destruct (accepts_next (localStorage b)); simpl; [|done].
  by rewrite insert_insert_eq. }
assert (Hload : fst (load this second)
                = Returned (rehydrate_history (serialize T2))).
{ unfold load. rewrite Hitems, lookup_insert_eq.
  by destruct (rehydrate_history (serialize T2)). }
split; [done|]. split; [done|].
intros HT. by rewrite Hload, rehydrate_serialized.
Qed.




End HistoryFrame.

(** ** The registry of runtimes *)

Lemma runtimes_kept_refl c : runtimes_kept c c.
Proof. split; done. Qed.

Lemma runtimes_kept_trans c1 c2 c3 :
  runtimes_kept c1 c2 → runtimes_kept c2 c3 → runtimes_kept c1 c3.
Proof. intros [? ?] [? ?]. split; by etrans. Qed.

Lemma kept_of_keeps {A} (m : M A) : keeps made m → keeps_runtimes m.
Proof.
  intros Hm c. specialize (Hm c). unfold made in Hm. injection Hm as Hr Hc.
  unfold runtimes_kept. by rewrite Hr, Hc.
Qed.

Lemma kept_bind {A A'} (m : M A) (k : A → M A') :
  keeps_runtimes m → (∀ a, keeps_runtimes (k a)) → keeps_runtimes (m ≫= k).
Proof.
  intros Hm Hk c. unfold mbind, M_bind. specialize (Hm c).
  destruct (m c) as [[a|e] c1]; simpl in *; [|done].
  eapply runtimes_kept_trans; [exact Hm|apply Hk].
Qed.

Lemma kept_when b m : keeps_runtimes m → keeps_runtimes (when b m).
Proof. destruct b; [done|]. intros _ c. apply runtimes_kept_refl. Qed.

(** The registry creates a runtime only where it holds none. *)
Lemma getOrCreate_keeps_runtimes id : keeps_runtimes (getOrCreateThreadRuntime id).
Proof.
  intros c. destruct (_threadRuntimeInstances c !! id) as [r|] eqn:Hri.
  { rewrite (getOrCreate_hit id r c Hri). apply runtimes_kept_refl. }
  unfold getOrCreateThreadRuntime.
  unfold mbind at 1, M_bind at 1, gets at 1. rewrite Hri.
  unfold mbind at 1, M_bind at 1, gets at 1.
  unfold mbind at 1, M_bind at 1.
  match goal with |- context [when ?b ?m c] =>
    assert (Hrepair : keeps made (when b m)) by
      (apply keeps_when; destruct (decide (id = DEFAULT_THREAD_ID)); keeps_all);
    specialize (Hrepair c); destruct (when b m c) as [[[]|e] c1]
  end; simpl in *; unfold made in Hrepair; injection Hrepair as Hr Hc.
  - unfold new_LocalStorageHistoryAdapter, threadFactory. monad_unfold.
    destruct (decide (id = "")); simpl; unfold runtimes_kept; rewrite Hr, Hc.
    + done.
    + split; [by apply insert_subseteq|by apply prefix_app_r].
  - unfold runtimes_kept. by rewrite Hr, Hc.
Qed.

Ltac kept_step :=
  cbv beta;
  lazymatch goal with
  | |- keeps_runtimes (getOrCreateThreadRuntime _) => apply getOrCreate_keeps_runtimes
  | |- keeps_runtimes (mbind _ _) => apply kept_bind; [|intros ?]
  | |- keeps_runtimes (when _ _) => apply kept_when
  | |- keeps_runtimes (if ?b then _ else _) => destruct b
  | |- keeps_runtimes (match ?o with Some _ => _ | None => _ end) => destruct o
  | |- keeps_runtimes _ => apply kept_of_keeps; keeps_all
  end.

Ltac kept_all := repeat kept_step.

Lemma rename_keeps_runtimes id t : keeps_runtimes (rename id t).
Proof. unfold rename. kept_all. Qed.

Lemma archive_keeps_runtimes id : keeps_runtimes (archive id).
Proof. unfold archive. kept_all. Qed.

Lemma unarchive_keeps_runtimes id : keeps_runtimes (unarchive id).
Proof. unfold unarchive. kept_all. Qed.

Lemma delete_keeps_runtimes id : keeps_runtimes (delete_thread id).
Proof. unfold delete_thread. kept_all. Qed.

Lemma initialize_keeps_runtimes id : keeps_runtimes (initialize id).
Proof. unfold initialize. kept_all. Qed.

Lemma mainThreadId_keeps_runtimes : keeps_runtimes mainThreadId.
Proof. unfold mainThreadId. kept_all. Qed.

Lemma generateTitle_keeps_runtimes id : keeps_runtimes (generateTitle id).
Proof.
  unfold generateTitle. apply kept_bind; [kept_all|].
  intros [m|]; [|kept_all].
  case_bool_decide; [apply rename_keeps_runtimes | kept_all].
Qed.

Lemma switchToThread_keeps_runtimes id : keeps_runtimes (switchToThread id).
Proof.
  unfold switchToThread.
  apply kept_bind; [kept_all|]. intros main.
  destruct (decide (main = id)); [kept_all|].
  apply kept_bind; [kept_all|]. intros known.
  destruct (negb known); [kept_all|].
  apply kept_bind; [kept_all|]. intros is_archived.
  apply kept_bind; [apply kept_when, unarchive_keeps_runtimes|]. intros _.
  kept_all.
Qed.

Lemma switchToNewThread_keeps_runtimes id : keeps_runtimes (switchToNewThread id).
Proof.
  unfold switchToNewThread.
  apply kept_bind; [apply initialize_keeps_runtimes|]. intros _. kept_all.
Qed.

Lemma getThreadRuntimeCore_keeps_runtimes id :
  keeps_runtimes (getThreadRuntimeCore id).
Proof. unfold getThreadRuntimeCore. kept_all. Qed.

Lemma getMainThreadRuntimeCore_keeps_runtimes :
  keeps_runtimes getMainThreadRuntimeCore.
Proof. unfold getMainThreadRuntimeCore. kept_all. Qed.

(** No method evicts or replaces a runtime.  From any state, and whether the
    call returns or throws, every runtime the registry held before a call is
    held after it under the same id, and the factory's calls so far are the
    first of its calls after: the factory is never called again for an id
    that has a runtime. *)
Theorem runtimes_are_never_replaced (c : Core) :
  (∀ id, runtimes_kept c (snd (getThreadRuntimeCore id c)))
  ∧ runtimes_kept c (snd (getMainThreadRuntimeCore c))
  ∧ runtimes_kept c (snd (mainThreadId c))
  ∧ (∀ id, runtimes_kept c (snd (switchToThread id c)))
  ∧ (∀ id, runtimes_kept c (snd (switchToNewThread id c)))
  ∧ (∀ id newTitle, runtimes_kept c (snd (rename id newTitle c)))
  ∧ (∀ id, runtimes_kept c (snd (archive id c)))
  ∧ (∀ id, runtimes_kept c (snd (unarchive id c)))
  ∧ (∀ id, runtimes_kept c (snd (delete_thread id c)))
  ∧ (∀ id, runtimes_kept c (snd (initialize id c)))
  ∧ (∀ id, runtimes_kept c (snd (generateTitle id c)))
  ∧ (∀ id r, _threadRuntimeInstances c !! id = Some r →
       getThreadRuntimeCore id c
       = (if has_metadata id c then Returned r
          else Thrown (NotFound ("Thread with ID " +:+ id +:+ " not found.")), c)).
Proof.
  split; [intros id; apply getThreadRuntimeCore_keeps_runtimes|].
  split; [apply getMainThreadRuntimeCore_keeps_runtimes|].
  split; [apply mainThreadId_keeps_runtimes|].
  split; [intros id; apply switchToThread_keeps_runtimes|].
  split; [intros id; apply switchToNewThread_keeps_runtimes|].
  split; [intros id t; apply rename_keeps_runtimes|].
  split; [intros id; apply archive_keeps_runtimes|].
  split; [intros id; apply unarchive_keeps_runtimes|].
  split; [intros id; apply delete_keeps_runtimes|].
  split; [intros id; apply initialize_keeps_runtimes|].
  split; [intros id; apply generateTitle_keeps_runtimes|].
  intros id r Hr. unfold getThreadRuntimeCore.
  unfold mbind at 1, M_bind at 1, gets at 1.
  destruct (has_metadata id c); simpl; [|done].
  by apply getOrCreate_hit.
Qed.

Lemma getThreadRuntimeCore_known id c :
  has_metadata id c = true →
  getThreadRuntimeCore id c = getOrCreateThreadRuntime id c.
Proof.
  intros Hk. unfold getThreadRuntimeCore.
  unfold mbind at 1, M_bind at 1, gets at 1. by rewrite Hk.
Qed.

(** [getThreadRuntimeCore] hands out one runtime per thread, for an id that
    names no member of [Object.prototype].  When a call returns a runtime,
    the thread has a record, the registry holds the runtime under the id,
    and the directory fields, the storage and the subscribers were left
    alone; a runtime made by this call is the factory's
    next one, made for this id with the history adapter of this id's key; a
    call that found a runtime changed nothing at all.  Asking again returns
    the same runtime and changes nothing. *)
Theorem getThreadRuntimeCore_memoized (id : string) (c : Core)
    (r : LocalThreadRuntimeCore) :
  inherited id = false →
  fst (getThreadRuntimeCore id c) = Returned r →
  let c' := snd (getThreadRuntimeCore id c) in
  getThreadRuntimeCore id c' = (Returned r, c')
  ∧ has_metadata id c = true
  ∧ _threadRuntimeInstances c' !! id = Some r
  ∧ directory c' = directory c
  ∧ storage c' = storage c
  ∧ notifications c' = notifications c
  ∧ match _threadRuntimeInstances c !! id with
    | Some r0 => r = r0 ∧ c' = c
    | None =>
        id ≠ ""
        ∧ runtime_threadId r = id
        ∧ storageKey (runtime_history r) = history_key id
        ∧ serial r = length (factoryCalls c)
        ∧ _threadRuntimeInstances c' = <[id := r]> (_threadRuntimeInstances c)
        ∧ factoryCalls c' = factoryCalls c ++ [id]
    end.
Proof.
  intros _ Hret c'. subst c'.
  destruct (has_metadata id c) eqn:Hk.
  2:{ unfold getThreadRuntimeCore in Hret. monad_unfold. simpl in Hret.
      by rewrite Hk in Hret. }
  rewrite (getThreadRuntimeCore_known id c Hk) in *.
  destruct (_threadRuntimeInstances c !! id) as [r0|] eqn:Hri.
  - rewrite (getOrCreate_hit id r0 c Hri) in *. simpl in *. simplify_eq.
    rewrite (getThreadRuntimeCore_known id c Hk), (getOrCreate_hit id r c Hri).
    by rewrite Hri.
  - pose proof (getOrCreate_miss id c Hri Hk) as Hmiss.
    destruct (new_LocalStorageHistoryAdapter id) as [history|e] eqn:Hnew.
    + destruct Hmiss as [Hne Hmiss]. rewrite Hmiss in *. simpl in *.
      simplify_eq. apply new_adapter_key in Hnew as (_ & _ & Hkey).
      rewrite getThreadRuntimeCore_known by done.
      split; [by apply getOrCreate_hit; simpl; rewrite lookup_insert_eq|].
      by rewrite lookup_insert_eq.
    + destruct Hmiss as [Hmiss _]. by rewrite Hmiss in Hret.
Qed.

(** [delete] does not let go of the runtime.  When a thread that is not the
    main one and has a runtime is deleted and a thread is initialized under
    the same id afterwards, [getThreadRuntimeCore] hands out the runtime made
    before the deletion, without a call of the factory, while the stored
    history of the deleted thread is gone. *)
Theorem deleted_thread_keeps_runtime (id : string) (r : LocalThreadRuntimeCore)
    (c : Core) :
  id ≠ _mainThreadId c →
  has_metadata id c = true →
  _threadRuntimeInstances c !! id = Some r →
  let deleted := snd (delete_thread id c) in
  let again := snd (initialize id deleted) in
  has_metadata id deleted = false
  ∧ _threadRuntimeInstances deleted !! id = Some r
  ∧ _threadMetadata again !! id
    = Some {| threadId := id; status := Regular; title := "New Thread" |}
  ∧ getThreadRuntimeCore id again = (Returned r, again)
  ∧ factoryCalls again = factoryCalls c
  ∧ histories again !! history_key id = None.
Proof.
  intros Hne Hk Hr deleted again.
  destruct (delete_known_ends id c Hne Hk)
    as (Hmeta & _ & _ & Hitems & _ & Hreg & Hcalls & _).
  fold deleted in Hmeta, Hitems, Hreg, Hcalls.
  assert (Hgone : has_metadata id deleted = false).
  { apply has_metadata_false. rewrite Hmeta. apply lookup_delete_eq. }
  assert (Hmade : made again = made deleted).
  { apply (kept_made_initialize id deleted). }
  unfold made in Hmade. injection Hmade as Hreg' Hcalls'.
  assert (Hrec : _threadMetadata again !! id
    = Some {| threadId := id; status := Regular; title := "New Thread" |}).
  { subst again. unfold initialize. monad_unfold. simpl. rewrite Hgone. simpl.
    destruct (includes id (_threadIds deleted)); simpl;
      persist_cases; apply lookup_insert_eq. }
  split; [done|]. split; [by rewrite Hreg|]. split; [done|]. split.
  - rewrite getThreadRuntimeCore_known
      by (apply has_metadata_true; rewrite Hrec; by eexists).
    apply getOrCreate_hit. by rewrite Hreg', Hreg.
  - split; [by rewrite Hcalls', Hcalls|].
    subst again. rewrite initialize_keeps_histories. unfold histories.
    rewrite Hitems. apply lookup_delete_eq.
Qed.

(** ** The directory and the histories *)

Lemma delete_keeps_other_histories id other c :
  other ≠ id →
  histories (snd (delete_thread id c)) !! history_key other
  = histories c !! history_key other.
Proof.
  intros Hne. unfold delete_thread.
  unfold mbind at 1, M_bind at 1, gets at 1.
  destruct (decide (id = _mainThreadId c)) as [->|Hmain]; [done|].
  unfold mbind at 1, M_bind at 1, gets at 1.
  destruct (has_metadata id c); simpl; [|done].
  monad_unfold. simpl. persist_cases; unfold histories; simpl;
    match goal with H : items _ = _ |- _ => rewrite ?H end; simpl;
    rewrite lookup_delete_ne; try done;
    intros Heq%history_key_inj; done.
Qed.

(** The directory never touches a stored history, except that [delete]
    removes the one of the deleted thread.  From any state, and whether the
    call returns or throws, the entries of [localStorage] outside the four
    directory entries are after a call what they were before it; after
    [delete] the histories of the other threads are, and the constructor
    leaves the entries it found. *)
Theorem directory_keeps_histories (c : Core) :
  (∀ id, histories (snd (getThreadRuntimeCore id c)) = histories c)
  ∧ histories (snd (getMainThreadRuntimeCore c)) = histories c
  ∧ histories (snd (mainThreadId c)) = histories c
  ∧ (∀ id, histories (snd (switchToThread id c)) = histories c)
  ∧ (∀ id, histories (snd (switchToNewThread id c)) = histories c)
  ∧ (∀ id newTitle, histories (snd (rename id newTitle c)) = histories c)
  ∧ (∀ id, histories (snd (archive id c)) = histories c)
  ∧ (∀ id, histories (snd (unarchive id c)) = histories c)
  ∧ (∀ id, histories (snd (initialize id c)) = histories c)
  ∧ (∀ id, histories (snd (generateTitle id c)) = histories c)
  ∧ (∀ id other, other ≠ id →
       histories (snd (delete_thread id c)) !! history_key other
       = histories c !! history_key other)
  ∧ (∀ ls, histories (snd (new_LocalThreadListRuntimeCore ls)) = items ls).
Proof.
  split; [intros id; apply getThreadRuntimeCore_keeps_histories|].
  split; [apply getMainThreadRuntimeCore_keeps_histories|].
  split; [apply mainThreadId_keeps_histories|].
  split; [intros id; apply switchToThread_keeps_histories|].
  split; [intros id; apply switchToNewThread_keeps_histories|].
  split; [intros id t; apply rename_keeps_histories|].
  split; [intros id; apply archive_keeps_histories|].
  split; [intros id; apply unarchive_keeps_histories|].
  split; [intros id; apply initialize_keeps_histories|].
  split; [intros id; apply generateTitle_keeps_histories|].
  split; [intros id other; apply delete_keeps_other_histories|].
  intros ls. unfold new_LocalThreadListRuntimeCore.
  by rewrite constructor_keeps_histories.
Qed.

(** ** Generated titles *)

Lemma substring_prefix n s :
  String.prefix (String.substring 0 n s) s = true
  ∧ String.length (String.substring 0 n s) = Nat.min n (String.length s).
Proof.
  revert s. induction n as [|n IH]; intros [|a s]; simpl; try done.
  destruct (IH s) as [Hp Hl]. rewrite Hp, Hl.
  by destruct (Ascii.ascii_dec a a).
Qed.

Lemma generateTitle_run id m c :
  _threadMetadata c !! id = Some m →
  title m = "" ∨ title m = "New Thread" →
  generateTitle id c
  = persistState
      (set_threadMetadata
         (<[id := with_title (generated_title id) m]> (_threadMetadata c)) c).
Proof.
  intros Hm Ht. rewrite <- (rename_run id _ m c Hm).
  unfold generateTitle, generated_title.
  unfold mbind at 1, M_bind at 1, gets at 1. rewrite Hm.
  by rewrite bool_decide_eq_true_2.
Qed.

(** [generateTitle], for an id whose first five bytes are ASCII characters,
    replaces an empty title and the title of a new thread, and no other: the
    new title is [Thread], a space and the first five characters of the id
    (all of a shorter id), the status and the thread id stay; a thread with another title is left as it is, with no write.  A
    generated title is never replaced again: a second call returns and
    changes nothing. *)
Theorem generateTitle_settles (id : string) (m : Metadata) (c : Core) :
  ascii_only (String.substring 0 5 id) = true →
  _threadMetadata c !! id = Some m →
  let titled := generateTitle id c in
  (if bool_decide (title m = "" ∨ title m = "New Thread")
   then _threadMetadata (snd titled) !! id
        = Some {| threadId := threadId m; status := status m;
                  title := generated_title id |}
        ∧ (reliable (storage c) = true →
           fst titled = Returned tt
           ∧ persisted (snd titled) (storage (snd titled)))
   else titled = (Returned tt, c))
  ∧ generateTitle id (snd titled) = (Returned tt, snd titled)
  ∧ String.prefix (String.substring 0 5 id) id = true
  ∧ String.length (String.substring 0 5 id) = Nat.min 5 (String.length id).
Proof.
  intros _ Hm titled.
  assert (Hskip : ∀ m' s, _threadMetadata s !! id = Some m' →
            title m' ≠ "" → title m' ≠ "New Thread" →
            generateTitle id s = (Returned tt, s)).
  { intros m' s Hm' H1 H2. unfold generateTitle. monad_unfold. simpl.
    rewrite Hm'. rewrite bool_decide_eq_false_2; [done|]. intros [?|?]; done. }
  split; [|split; [|apply substring_prefix]].
  - subst titled. case_bool_decide as Ht.
    + rewrite (generateTitle_run id m c Hm Ht).
      match goal with |- context [persistState ?s] =>
        destruct (persistState_commits_or_throws_aux s) as (Hmem & _ & Hrel)
      end.
      unfold memory in Hmem. injection Hmem as _ _ _ Hmeta _ _.
      split; [rewrite Hmeta; simpl; by rewrite lookup_insert_eq|].
      intros Hr. destruct (Hrel Hr) as (? & ? & _). done.
    + apply (Hskip m c Hm); intros ?; apply Ht; auto.
  - destruct (bool_decide (title m = "" ∨ title m = "New Thread")) eqn:Ht.
    + apply bool_decide_eq_true in Ht.
      assert (Hnew : _threadMetadata (snd titled) !! id
                     = Some (with_title (generated_title id) m)).
      { subst titled. rewrite (generateTitle_run id m c Hm Ht).
        match goal with |- context [persistState ?s] =>
          pose proof (persistState_memory s) as Hmem end.
        unfold memory in Hmem. injection Hmem as _ _ _ Hmeta _ _.
        rewrite Hmeta. simpl. by rewrite lookup_insert_eq. }
      by apply (Hskip _ _ Hnew).
    + apply bool_decide_eq_false in Ht.
      assert (Hsame : titled = (Returned tt, c)).
      { apply (Hskip m c Hm); intros ?; apply Ht; auto. }
      rewrite Hsame. simpl. apply (Hskip m c Hm); intros ?; apply Ht; auto.
Qed.

(** ** The getter [mainThreadId] *)

(** The getter [mainThreadId] mends a main id without a record, from any
    state whose main id names no member of [Object.prototype] and whatever
    the medium answers.  After it the main id has a record and a second
    read changes nothing.  A main id with a record is
    returned as it is.  Otherwise the default thread is made the main one: it
    is on the regular list and off the archived list, its record is the one
    it had, or the default record when it had none; the other records and
    the membership of the other ids stay; on a medium that accepts the writes
    the getter returns the default id and the directory is persisted. *)
Theorem mainThreadId_mends_main (c : Core) :
  inherited (_mainThreadId c) = false →
  let got := mainThreadId c in
  has_metadata (_mainThreadId (snd got)) (snd got) = true
  ∧ mainThreadId (snd got) = (Returned (_mainThreadId (snd got)), snd got)
  ∧ (∀ id, fst got = Returned id → id = _mainThreadId (snd got))
  ∧ (if has_metadata (_mainThreadId c) c
     then got = (Returned (_mainThreadId c), c)
     else _mainThreadId (snd got) = DEFAULT_THREAD_ID
          ∧ DEFAULT_THREAD_ID ∈ _threadIds (snd got)
          ∧ (DEFAULT_THREAD_ID ∉ _archivedThreadIds (snd got))
          ∧ _threadMetadata (snd got) !! DEFAULT_THREAD_ID
            = Some (default DEFAULT_THREAD_METADATA
                      (_threadMetadata c !! DEFAULT_THREAD_ID))
          ∧ (∀ other, other ≠ DEFAULT_THREAD_ID →
               _threadMetadata (snd got) !! other = _threadMetadata c !! other
               ∧ (other ∈ _threadIds (snd got) ↔ other ∈ _threadIds c)
               ∧ (other ∈ _archivedThreadIds (snd got)
                  ↔ other ∈ _archivedThreadIds c))
          ∧ (reliable (storage c) = true →
             fst got = Returned DEFAULT_THREAD_ID
             ∧ persisted (snd got) (storage (snd got)))).
Proof.
  intros _ got. subst got.
  destruct (has_metadata (_mainThreadId c) c) eqn:Hk.
  { rewrite (mainThreadId_known c Hk). simpl. rewrite (mainThreadId_known c Hk).
    split; [done|]. split; [done|]. split; [|done]. by intros id [= ->]. }
  rewrite (mainThreadId_repair c Hk).
  destruct (persistState_commits_or_throws_aux (default_made_main c))
    as (Hmem & _ & Hrel).
  unfold memory in Hmem. injection Hmem as Hmain Hids Harch Hmeta _ _.
  assert (Hstate : ∀ c', c' = snd (persistState (default_made_main c)) →
            snd (match persistState (default_made_main c) with
                 | (Returned _, c') => (Returned (_mainThreadId c'), c')
                 | (Thrown e, c') => (Thrown e, c')
                 end) = c').
  { intros c' ->. by destruct (persistState _) as [[[]|e] c']. }
  rewrite (Hstate _ eq_refl).
  set (c' := snd (persistState (default_made_main c))) in *.
  assert (Hdef : _threadMetadata c' !! DEFAULT_THREAD_ID
                 = Some (default DEFAULT_THREAD_METADATA
                           (_threadMetadata c !! DEFAULT_THREAD_ID))).
  { rewrite Hmeta. simpl. unfold has_metadata.
    destruct (_threadMetadata c !! DEFAULT_THREAD_ID) eqn:Hd; simpl; [done|].
    apply lookup_insert_eq. }
  assert (Hknown : has_metadata (_mainThreadId c') c' = true).
  { apply has_metadata_true. rewrite Hmain. simpl. rewrite Hdef. by eexists. }
  split; [done|]. split; [by apply mainThreadId_known|]. split.
  { intros id. subst c'. destruct (persistState _) as [[[]|e] c']; simpl; [|done].
    by intros [= ->]. }
  split; [by rewrite Hmain|]. split.
  { rewrite Hids. simpl.
    destruct (includes DEFAULT_THREAD_ID (_threadIds c)) eqn:Hin.
    - by apply includes_true. - apply elem_of_cons. by left. }
  split; [rewrite Harch; apply without_not_in|]. split; [done|]. split.
  - intros other Hne. rewrite Hmeta, Hids, Harch. simpl. split; [|split].
    + destruct (has_metadata DEFAULT_THREAD_ID c); [done|].
      by rewrite lookup_insert_ne.
    + destruct (includes DEFAULT_THREAD_ID (_threadIds c)); [done|].
      rewrite elem_of_cons. split; [by intros [?|?]|auto].
    + rewrite elem_of_without. tauto.
  - intros Hr. destruct (Hrel Hr) as (Hret & Hp & _). fold c' in Hp.
    split; [|done]. subst c'.
    destruct (persistState (default_made_main c)) as [[[]|e] c'];
      simpl in *; [by rewrite Hmain|done].
Qed.

(** ** The constructor and what was persisted *)

(** The three ways of the constructor's repair. *)
Lemma repair_nothing c :
  has_metadata (_mainThreadId c) c = true →
  has_metadata DEFAULT_THREAD_ID c = true ∨ DEFAULT_THREAD_ID ∈ _threadIds c →
  repair_loaded_state c = (Returned tt, c).
Proof.
  intros Hmain Hdef. unfold repair_loaded_state. monad_unfold. simpl.
  destruct (has_metadata DEFAULT_THREAD_ID c) eqn:Hd; simpl.
  - by rewrite Hmain.
  - destruct Hdef as [?|Hin]; [done|].
    apply includes_true in Hin. rewrite Hin. simpl. by rewrite Hmain.
Qed.

Lemma repair_default_missing c :
  has_metadata DEFAULT_THREAD_ID c = false →
  DEFAULT_THREAD_ID ∉ _threadIds c →
  repair_loaded_state c
  = persistState
      {| _mainThreadId := DEFAULT_THREAD_ID;
         _threadIds := DEFAULT_THREAD_ID :: _threadIds c;
         _archivedThreadIds := _archivedThreadIds c;
         _threadMetadata :=
           <[DEFAULT_THREAD_ID := DEFAULT_THREAD_METADATA]> (_threadMetadata c);
         _threadRuntimeInstances := _threadRuntimeInstances c;
         factoryCalls := factoryCalls c;
         storage := storage c;
         notifications := notifications c |}.
Proof.
  intros Hd Hin%includes_false. unfold repair_loaded_state. monad_unfold. simpl.
  rewrite Hd, Hin. simpl. by rewrite Hin.
Qed.

Lemma repair_main_missing c :
  has_metadata (_mainThreadId c) c = false →
  has_metadata DEFAULT_THREAD_ID c = true ∨ DEFAULT_THREAD_ID ∈ _threadIds c →
  repair_loaded_state c
  = persistState
      {| _mainThreadId := DEFAULT_THREAD_ID;
         _threadIds := if includes DEFAULT_THREAD_ID (_threadIds c)
                       then _threadIds c
                       else DEFAULT_THREAD_ID :: _threadIds c;
         _archivedThreadIds := _archivedThreadIds c;
         _threadMetadata :=
           if includes DEFAULT_THREAD_ID (_threadIds c) then _threadMetadata c
           else <[DEFAULT_THREAD_ID := DEFAULT_THREAD_METADATA]> (_threadMetadata c);
         _threadRuntimeInstances := _threadRuntimeInstances c;
         factoryCalls := factoryCalls c;
         storage := storage c;
         notifications := notifications c |}.
Proof.
  intros Hmain Hdef. unfold repair_loaded_state. monad_unfold. simpl.
  destruct (has_metadata DEFAULT_THREAD_ID c) eqn:Hd; simpl.
  - rewrite Hmain. simpl. by destruct (includes DEFAULT_THREAD_ID (_threadIds c)).
  - destruct Hdef as [?|Hin]; [done|].
    apply includes_true in Hin. rewrite Hin. simpl. rewrite Hmain. simpl. by rewrite Hin.
Qed.

(** After the constructor the main id is without a record in one case only,
    whatever the four directory entries held, as long as they are absent or
    hold what [saveThreadsToLocalStorage] writes and the stored main id
    names no member of [Object.prototype], and whatever the medium answers
    to the writes: the loaded main id had no record, the default id had none,
    and the default id was on the loaded list.  The main id is then the
    default id. *)
Theorem constructor_misses_main_record_iff (ls : LocalStorage) :
  inherited (load_mainThreadId ls) = false →
  let loaded := loadThreadsFromLocalStorage ls in
  let made := snd (new_LocalThreadListRuntimeCore ls) in
  (has_metadata (_mainThreadId made) made = false
   ↔ has_metadata (_mainThreadId loaded) loaded = false
     ∧ has_metadata DEFAULT_THREAD_ID loaded = false
     ∧ DEFAULT_THREAD_ID ∈ _threadIds loaded)
  ∧ (has_metadata (_mainThreadId made) made = false →
     _mainThreadId made = DEFAULT_THREAD_ID
     ∧ directory (snd (mainThreadId made))
       = (DEFAULT_THREAD_ID, _threadIds loaded,
          without DEFAULT_THREAD_ID (_archivedThreadIds loaded),
          <[DEFAULT_THREAD_ID := DEFAULT_THREAD_METADATA]>
            (_threadMetadata loaded))).
Proof.
  intros _ loaded made. subst made. unfold new_LocalThreadListRuntimeCore.
  fold loaded. generalize loaded. clear loaded ls. intros c.
  destruct (has_metadata DEFAULT_THREAD_ID c) eqn:Hd;
    destruct (has_metadata (_mainThreadId c) c) eqn:Hmain;
    destruct (includes DEFAULT_THREAD_ID (_threadIds c)) eqn:Hin;
    try (apply includes_true in Hin as Hin');
    try (apply includes_false in Hin as Hin').
  1-2: rewrite (repair_nothing c Hmain (or_introl Hd)); simpl; rewrite Hmain;
       (split; [split; [done|by intros (? & ? & ?)]|done]).
  3: rewrite (repair_nothing c Hmain (or_intror Hin')); simpl; rewrite Hmain;
       (split; [split; [done|by intros (? & ? & ?)]|done]).
  1-2: rewrite (repair_main_missing c Hmain (or_introl Hd)).
  3: rewrite (repair_default_missing c Hd Hin').
  4: rewrite (repair_main_missing c Hmain (or_intror Hin')).
  5: rewrite (repair_default_missing c Hd Hin').
  all: match goal with |- context [persistState ?s] =>
         pose proof (persistState_keeps_directory s) as Hdir end;
       unfold directory in Hdir; simpl in Hdir;
       injection Hdir as Hm Hi Ha Hmd.
  all: try (assert (Hk : has_metadata (_mainThreadId (snd (persistState _)))
                           (snd (persistState _)) = true)
              by (apply has_metadata_true; rewrite Hm, Hmd, ?Hin; simpl;
                  first [by apply has_metadata_true
                        |rewrite lookup_insert_eq; by eexists]);
            rewrite Hk; split; [split; [done|by intros (? & ? & ?)]|done]).
  (* the default id is listed and has no record *)
  rewrite Hin in *.
  assert (Hk : has_metadata (_mainThreadId (snd (persistState
    {| _mainThreadId := DEFAULT_THREAD_ID;
       _threadIds := _threadIds c;
       _archivedThreadIds := _archivedThreadIds c;
       _threadMetadata := _threadMetadata c;
       _threadRuntimeInstances := _threadRuntimeInstances c;
       factoryCalls := factoryCalls c;
       storage := storage c;
       notifications := notifications c |})))
    (snd (persistState
    {| _mainThreadId := DEFAULT_THREAD_ID;
       _threadIds := _threadIds c;
       _archivedThreadIds := _archivedThreadIds c;
       _threadMetadata := _threadMetadata c;
       _threadRuntimeInstances := _threadRuntimeInstances c;
       factoryCalls := factoryCalls c;
       storage := storage c;
       notifications := notifications c |})) = false).
  { apply has_metadata_false. rewrite Hm, Hmd. by apply has_metadata_false. }
  split; [by split|]. intros _. split; [done|].
  rewrite (mainThreadId_repair _ Hk).
  match goal with |- context [persistState (default_made_main ?s)] =>
    pose proof (persistState_keeps_directory (default_made_main s)) as Hdir;
    destruct (persistState (default_made_main s)) as [[[]|e] c'] end;
    simpl in *; rewrite Hdir; unfold directory, default_made_main; simpl;
    rewrite Hi, Ha, Hin; unfold has_metadata; rewrite Hmd;
    apply has_metadata_false in Hd; by rewrite Hd.
Qed.

Lemma load_persisted c ls :
  persisted c ls →
  directory (loadThreadsFromLocalStorage ls)
  = (if decide (_mainThreadId c = "") then DEFAULT_THREAD_ID else _mainThreadId c,
     _threadIds c, _archivedThreadIds c, _threadMetadata c).
Proof.
  intros (Hm & Hi & Ha & Hmd).
  unfold directory, loadThreadsFromLocalStorage, load_mainThreadId. simpl.
  by rewrite Hm, Hi, Ha, Hmd.
Qed.

Lemma has_metadata_eq id id' c c' :
  id' = id → _threadMetadata c' = _threadMetadata c →
  has_metadata id' c' = has_metadata id c.
Proof. unfold has_metadata. by intros -> ->. Qed.

(** What [persistState] committed is what the next process starts from.
    When [persistState] returns, the four fields loaded from the storage it
    leaves are the fields of the object, an empty main id read as the default
    id, and the stored histories are at hand.  When moreover the main id is
    not empty and has a record, and the default id has a record or is
    listed, the constructor of the next process finds nothing to mend: it
    returns with these fields and writes nothing. *)
Theorem reload_reads_what_was_persisted (c : Core) :
  fst (persistState c) = Returned tt →
  let ls := storage (snd (persistState c)) in
  directory (loadThreadsFromLocalStorage ls)
  = (if decide (_mainThreadId c = "") then DEFAULT_THREAD_ID else _mainThreadId c,
     _threadIds c, _archivedThreadIds c, _threadMetadata c)
  ∧ histories (loadThreadsFromLocalStorage ls) = histories c
  ∧ (_mainThreadId c ≠ "" →
     has_metadata (_mainThreadId c) c = true →
     has_metadata DEFAULT_THREAD_ID c = true ∨ DEFAULT_THREAD_ID ∈ _threadIds c →
     new_LocalThreadListRuntimeCore ls
     = (Returned tt, loadThreadsFromLocalStorage ls)
     ∧ directory (loadThreadsFromLocalStorage ls) = directory c).
Proof.
  intros Hret ls.
  assert (Hp : persisted c ls ∧ items ls = items (storage c)).
  { subst ls. destruct (persistState_result c) as [ls Hp Hi Hr|e ls Hi Hr];
      simpl in *; [done|congruence]. }
  destruct Hp as [Hp Hitems].
  pose proof (load_persisted c ls Hp) as Hload.
  split; [done|]. split; [done|].
  intros Hne Hmain Hdef. rewrite decide_False in Hload by done.
  split; [|done].
  unfold directory in Hload. injection Hload as Hm Hi Ha Hmd.
  unfold new_LocalThreadListRuntimeCore. apply repair_nothing.
  - erewrite has_metadata_eq; [exact Hmain|exact Hm|exact Hmd].
  - destruct Hdef as [Hd|Hin]; [left|right].
    + erewrite has_metadata_eq; [exact Hd|done|exact Hmd].
    + change (DEFAULT_THREAD_ID ∈ default [DEFAULT_THREAD_ID] (assistant_threadIds ls)).
      by rewrite Hi.
Qed.

(** The default thread cannot be deleted for good.  When another thread is
    the main one and the default thread is deleted, the deletion being
    persisted, the constructor of the next process finds no default thread
    and makes one: the default id is first on the regular list, its record is
    the default record, and it is the main id again in place of the main id
    that was persisted; the other records and ids are those left by the
    deletion. *)
Theorem default_thread_comes_back (c : Core) :
  _mainThreadId c ≠ DEFAULT_THREAD_ID →
  has_metadata DEFAULT_THREAD_ID c = true →
  reliable (storage c) = true →
  let deleted := delete_thread DEFAULT_THREAD_ID c in
  let next := new_LocalThreadListRuntimeCore (storage (snd deleted)) in
  fst deleted = Returned tt
  ∧ assistant_mainThreadId (storage (snd deleted)) = Some (_mainThreadId c)
  ∧ fst next = Returned tt
  ∧ directory (snd next)
    = (DEFAULT_THREAD_ID,
       DEFAULT_THREAD_ID :: without DEFAULT_THREAD_ID (_threadIds c),
       without DEFAULT_THREAD_ID (_archivedThreadIds c),
       <[DEFAULT_THREAD_ID := DEFAULT_THREAD_METADATA]> (_threadMetadata c))
  ∧ persisted (snd next) (storage (snd next)).
Proof.
  intros Hne Hk Hrel deleted next.
  assert (Hne' : DEFAULT_THREAD_ID ≠ _mainThreadId c) by done.
  assert (Hd : ∃ ls, deleted
    = (Returned tt,
       {| _mainThreadId := _mainThreadId c;
          _threadIds := without DEFAULT_THREAD_ID (_threadIds c);
          _archivedThreadIds := without DEFAULT_THREAD_ID (_archivedThreadIds c);
          _threadMetadata := delete DEFAULT_THREAD_ID (_threadMetadata c);
          _threadRuntimeInstances := _threadRuntimeInstances c;
          factoryCalls := factoryCalls c;
          storage := ls;
          notifications := S (notifications c) |})
    ∧ assistant_mainThreadId ls = Some (_mainThreadId c)
    ∧ assistant_threadIds ls = Some (without DEFAULT_THREAD_ID (_threadIds c))
    ∧ assistant_archivedThreadIds ls
      = Some (without DEFAULT_THREAD_ID (_archivedThreadIds c))
    ∧ assistant_threadMetadata ls
      = Some (delete DEFAULT_THREAD_ID (_threadMetadata c))
    ∧ reliable ls = true).
  { subst deleted. rewrite (delete_run _ c Hne' Hk).
    persist_cases.
    - exists ls. split; [done|].
      match goal with H : persisted _ _ |- _ => destruct H as (?&?&?&?) end.
      simpl in *. repeat (split; [done|]).
      match goal with H : reliable _ = true → _ |- _ => apply H; exact Hrel end.
    - match goal with H : reliable _ = false |- _ =>
        change (reliable (storage c) = false) in H end.
      congruence. }
  destruct Hd as (ls & Hdel & Hm & Hi & Ha & Hmd & Hrel').
  subst next. rewrite Hdel. simpl. split; [done|]. split; [done|].
  unfold new_LocalThreadListRuntimeCore.
  rewrite repair_default_missing.
  2:{ apply has_metadata_false. simpl. rewrite Hmd. apply lookup_delete_eq. }
  2:{ simpl. rewrite Hi. apply without_not_in. }
  match goal with |- context [persistState ?s] =>
    destruct (persistState_commits_or_throws_aux s) as (Hmem & _ & Hcommit);
    pose proof (persistState_keeps_directory s) as Hdir
  end.
  destruct (Hcommit Hrel') as (Hret & Hp & _).
  split; [done|]. split; [|done].
  rewrite Hdir. unfold directory. simpl. rewrite Hi, Ha, Hmd. simpl.
  by rewrite insert_delete_eq.
Qed.

(** ** What the getters show after [archive] *)

Lemma without_app (x : string) l k : without x (l ++ k) = without x l ++ without x k.
Proof. unfold without. apply filter_app. Qed.

Lemma without_cons (x y : string) l :
  without x (y :: l) = if decide (y ≠ x) then y :: without x l else without x l.
Proof. unfold without. by rewrite filter_cons. Qed.

Lemma includes_without (x y : string) l :
  y ≠ x → includes y (without x l) = includes y l.
Proof.
  intros Hne. unfold includes. apply bool_decide_ext.
  rewrite elem_of_without. tauto.
Qed.

(** Removing an id before or after the deduplication is the same. *)
Lemma dedupe_without (x : string) l acc :
  fold_left (λ uniqueIds id,
               if includes id uniqueIds then uniqueIds else uniqueIds ++ [id])
            (without x l) (without x acc)
  = without x
      (fold_left (λ uniqueIds id,
                    if includes id uniqueIds then uniqueIds else uniqueIds ++ [id])
                 l acc).
Proof.
  revert acc. induction l as [|y l IH]; intros acc; [done|].
  rewrite without_cons.
  destruct (decide (y ≠ x)) as [Hne|Heq]; simpl.
  - rewrite includes_without by done.
    destruct (includes y acc); [apply IH|].
    rewrite <- IH, without_app, without_cons, decide_True by done. done.
  - assert (y = x) as -> by (by destruct (decide (y = x)); [|exfalso; auto]).
    destruct (includes x acc); [apply IH|].
    rewrite <- IH, without_app, without_cons, decide_False by auto.
    by rewrite app_nil_r.
Qed.

(** [archive] of a thread that is not the main one, has a record and is not
    archived, as the getters show it, whatever the medium answers: the id is
    gone from [threadIds], the order of the others kept, and is the last of
    [archivedThreadIds]; [getItemById] gives its record with the status
    archived, and the records of the others as before.  A second [archive]
    returns and changes nothing. *)
Theorem archive_moves_between_getters (id : string) (m : Metadata) (c : Core) :
  id ≠ _mainThreadId c →
  _threadMetadata c !! id = Some m →
  id ∉ _archivedThreadIds c →
  let archived := snd (archive id c) in
  threadIds archived = without id (threadIds c)
  ∧ archivedThreadIds archived = archivedThreadIds c ++ [id]
  ∧ getItemById id archived
    = Some ({| threadId := threadId m; status := Archived; title := title m |},
            None)
  ∧ (∀ other, other ≠ id → getItemById other archived = getItemById other c)
  ∧ archive id archived = (Returned tt, archived).
Proof.
  intros Hmain Hm Ha archived.
  destruct (archive_ends id m c Hmain Hm Ha) as (Hmem & _ & _).
  fold archived in Hmem. unfold memory in Hmem.
  injection Hmem as Hm1 Ht1 Ha1 Hmd1 _ _.
  split; [|split; [done|split; [|split]]].
  - unfold threadIds, dedupe. rewrite Hm1, Ht1, Ha1.
    change [] with (without id []) at 1.
    rewrite <- dedupe_without. f_equal.
    rewrite without_cons, decide_True by done.
    f_equal. unfold without. rewrite !list_filter_filter.
    apply list_filter_iff. intros x. unfold includes.
    rewrite !bool_decide_eq_false, elem_of_app, list_elem_of_singleton. tauto.
  - unfold getItemById. rewrite Hmd1, lookup_insert_eq. done.
  - intros other Hne. unfold getItemById. by rewrite Hmd1, lookup_insert_ne.
  - unfold archive. monad_unfold. simpl. rewrite Hm1.
    rewrite decide_False by done. rewrite Hmd1, lookup_insert_eq, Ha1.
    assert (Hin : includes id (_archivedThreadIds c ++ [id]) = true).
    { apply includes_true, elem_of_app. right. by apply list_elem_of_singleton. }
    by rewrite Hin.
Qed.

(** ** A new thread *)

Lemma initialize_run id c :
  has_metadata id c = false →
  initialize id c
  = match persistState (initialized id c) with
    | (Returned _, c') => (Returned {| remoteId := id; externalId := None |}, c')
    | (Thrown e, c') => (Thrown e, c')
    end.
Proof.
  intros Hk. unfold initialize, initialized. monad_unfold. simpl. rewrite Hk.
  destruct (includes id (_threadIds c)); simpl;
    by destruct (persistState _) as [[[]|e] c'].
Qed.

Lemma accepts_reliable ls : reliable ls = true → accepts_next ls = true.
Proof.
  unfold reliable, accepts_next. destruct (faults ls) as [|[e|] rest]; done.
Qed.

Lemma persistState_refused c :
  accepts_next (storage c) = false →
  ∃ e, fst (persistState c) = Thrown (DOM e)
       ∧ memory (snd (persistState c)) = memory c
       ∧ notifications (snd (persistState c)) = notifications c.
Proof.
  intros Hacc. unfold accepts_next in Hacc.
  destruct (faults (storage c)) as [|[e|] rest] eqn:Hf; try done.
  exists e. unfold persistState, saveThreadsToLocalStorage, setItem.
  unfold mbind, M_bind. rewrite Hf. done.
Qed.

Lemma switchToNewThread_run id c :
  has_metadata id c = false →
  switchToNewThread id c
  = match persistState (initialized id c) with
    | (Returned _, c1) =>
        (getOrCreateThreadRuntime id ≫= λ _, persistState)
          (set_mainThreadId id c1)
    | (Thrown e, c1) => (Thrown e, c1)
    end.
Proof.
  intros Hk. unfold switchToNewThread.
  unfold mbind at 1, M_bind at 1. rewrite (initialize_run _ c Hk).
  by destruct (persistState (initialized id c)) as [[[]|e] c1].
Qed.

(** [switchToNewThread] with a new id, one that is not empty, names no
    member of [Object.prototype] and has no record.  Whatever the medium
    answers, the thread gets the record of a new thread, is on the regular
    list (last, when it was not listed) and off the archived list.  On a medium that accepts the writes the call returns:
    the new thread is the main one and the first of [threadIds], it has a
    runtime, the directory is persisted and the subscribers were notified
    twice.  When the medium refuses the first write the call throws what the
    medium threw: the thread stays in the object, but the main id and the
    registry are as before and nobody is notified. *)
Theorem switchToNewThread_makes_main (newThreadId : string) (c : Core) :
  inherited newThreadId = false →
  has_metadata newThreadId c = false →
  newThreadId ≠ "" →
  let switched := switchToNewThread newThreadId c in
  _threadMetadata (snd switched)
  = <[newThreadId := {| threadId := newThreadId; status := Regular;
                        title := "New Thread" |}]> (_threadMetadata c)
  ∧ _threadIds (snd switched)
    = (if includes newThreadId (_threadIds c) then _threadIds c
       else _threadIds c ++ [newThreadId])
  ∧ _archivedThreadIds (snd switched) = without newThreadId (_archivedThreadIds c)
  ∧ (reliable (storage c) = true →
     fst switched = Returned tt
     ∧ _mainThreadId (snd switched) = newThreadId
     ∧ (∃ rest, threadIds (snd switched) = newThreadId :: rest)
     ∧ (∃ r, _threadRuntimeInstances (snd switched)
             = <[newThreadId := r]> (_threadRuntimeInstances c)
             ∧ match _threadRuntimeInstances c !! newThreadId with
               | Some r0 => r = r0
               | None => runtime_threadId r = newThreadId
                         ∧ storageKey (runtime_history r) = history_key newThreadId
               end)
     ∧ persisted (snd switched) (storage (snd switched))
     ∧ notifications (snd switched) = S (S (notifications c)))
  ∧ (accepts_next (storage c) = false →
     (∃ e, fst switched = Thrown (DOM e))
     ∧ _mainThreadId (snd switched) = _mainThreadId c
     ∧ _threadRuntimeInstances (snd switched) = _threadRuntimeInstances c
     ∧ notifications (snd switched) = notifications c).
Proof.
  intros _ Hk Hne switched. subst switched.
  rewrite (switchToNewThread_run _ c Hk).
  destruct (accepts_next (storage c)) eqn:Hacc.
  2:{ destruct (persistState_refused (initialized newThreadId c) Hacc)
        as (e & He & Hmem & Hnot).
      destruct (persistState (initialized newThreadId c)) as [[[]|e'] c1];
        simpl in *; [done|].
      unfold memory in Hmem. injection Hmem as Hm1 Hi1 Ha1 Hmd1 Hreg1 _.
      repeat (split; [done|]). split.
      - intros Hrel%accepts_reliable. congruence.
      - intros _. split; [by exists e; rewrite He|done]. }
  destruct (persistState_result (initialized newThreadId c))
    as [ls Hp Hi Hr|e ls Hi Hr]; simpl.
  2:{ repeat (split; [done|]). split; [intros Hrel; simpl in *; congruence|].
      done. }
  set (c2 := set_mainThreadId newThreadId _).
  assert (Hk2 : has_metadata newThreadId c2 = true).
  { apply has_metadata_true. simpl. rewrite lookup_insert_eq. by eexists. }
  assert (Hget : ∃ r c3,
    getOrCreateThreadRuntime newThreadId c2 = (Returned r, c3)
    ∧ directory c3 = directory c2
    ∧ storage c3 = ls ∧ notifications c3 = S (notifications c)
    ∧ _threadRuntimeInstances c3 = <[newThreadId := r]> (_threadRuntimeInstances c)
    ∧ match _threadRuntimeInstances c !! newThreadId with
      | Some r0 => r = r0
      | None => runtime_threadId r = newThreadId
                ∧ storageKey (runtime_history r) = history_key newThreadId
      end).
  { destruct (_threadRuntimeInstances c !! newThreadId) as [r0|] eqn:Hri.
    - exists r0, c2. split; [by apply getOrCreate_hit|].
      repeat (split; [done|]). split; [|done]. simpl.
      by rewrite insert_id.
    - pose proof (getOrCreate_miss newThreadId c2 Hri Hk2) as Hmiss.
      destruct (new_LocalStorageHistoryAdapter newThreadId) as [h|e] eqn:Hnew.
      + destruct Hmiss as [_ Hmiss]. apply new_adapter_key in Hnew as (_ & _ & Hkey).
        eexists _, _. split; [exact Hmiss|]. done.
      + by destruct Hmiss as [_ ->]. }
  destruct Hget as (r & c3 & Hget & Hdir & Hst & Hnot & Hreg & Hr0).
  unfold mbind, M_bind. rewrite Hget.
  unfold directory in Hdir. injection Hdir as Hm3 Hi3 Ha3 Hmd3.
  destruct (persistState_commits_or_throws_aux c3) as (Hmem & _ & Hrel).
  unfold memory in Hmem. injection Hmem as Hm4 Hi4 Ha4 Hmd4 Hreg4 _.
  rewrite Hmd4, Hi4, Ha4, Hm4, Hreg4, Hmd3, Hi3, Ha3, Hm3. simpl.
  repeat (split; [done|]). split.
  - intros Hrel0. rewrite Hst in Hrel.
    destruct (Hrel (Hr Hrel0)) as (Hret & Hp4 & Hn4).
    split; [done|]. split; [done|]. split.
    { destruct (threadIds_main_first (snd (persistState c3))) as (rest & Heq & _).
      exists rest. by rewrite Heq, Hm4, Hm3. }
    split; [by exists r|]. split; [done|]. by rewrite Hn4, Hnot.
  - done.
Qed.

(** ** Switching between regular threads *)

Lemma switchToThread_regular_run id c :
  _mainThreadId c ≠ id →
  has_metadata id c = true →
  id ∉ _archivedThreadIds c →
  switchToThread id c
  = (getOrCreateThreadRuntime id ≫= λ _, persistState) (set_mainThreadId id c).
Proof.
  intros Hne Hk Ha%includes_false. unfold switchToThread.
  unfold mbind at 1, M_bind at 1, gets at 1. rewrite decide_False by done.
  unfold mbind at 1, M_bind at 1, gets at 1. rewrite Hk. simpl.
  unfold mbind at 1, M_bind at 1, gets at 1. rewrite Ha. done.
Qed.

(** The end of [switchToThread]: the runtime, then [persistState]. *)
Lemma make_main_ends id c :
  id ≠ "" →
  has_metadata id c = true →
  let ended := (getOrCreateThreadRuntime id ≫= λ _, persistState) c in
  directory (snd ended) = directory c
  ∧ is_Some (_threadRuntimeInstances (snd ended) !! id)
  ∧ (reliable (storage c) = true →
     fst ended = Returned tt
     ∧ reliable (storage (snd ended)) = true
     ∧ persisted (snd ended) (storage (snd ended))
     ∧ notifications (snd ended) = S (notifications c)).
Proof.
  intros Hne Hk ended. subst ended.
  assert (Hget : ∃ r c1,
    getOrCreateThreadRuntime id c = (Returned r, c1)
    ∧ directory c1 = directory c ∧ storage c1 = storage c
    ∧ notifications c1 = notifications c
    ∧ is_Some (_threadRuntimeInstances c1 !! id)).
  { destruct (_threadRuntimeInstances c !! id) as [r0|] eqn:Hri.
    - exists r0, c. split; [by apply getOrCreate_hit|]. by rewrite Hri.
    - pose proof (getOrCreate_miss id c Hri Hk) as Hmiss.
      destruct (new_LocalStorageHistoryAdapter id) as [h|e] eqn:Hnew.
      + destruct Hmiss as [_ Hmiss]. eexists _, _. split; [exact Hmiss|].
        simpl. by rewrite lookup_insert_eq.
      + by destruct Hmiss as [_ ->]. }
  destruct Hget as (r & c1 & Hget & Hdir & Hst & Hnot & Hreg).
  unfold mbind, M_bind. rewrite Hget.
  rewrite persistState_keeps_directory.
  pose proof (persistState_keeps_made c1) as Hmade.
  unfold made in Hmade. injection Hmade as Hreg' _. rewrite Hreg'.
  split; [done|]. split; [done|]. intros Hrel. rewrite <- Hst in Hrel.
  destruct (persistState_result c1) as [ls Hp Hi Hr|e ls Hi Hr]; simpl in *;
    [|congruence].
  destruct Hp as (?&?&?&?). rewrite <- Hnot. repeat split; auto.
Qed.

(** [switchToThread] between two threads that have a record, are not
    archived, and whose ids are not empty and name no member of
    [Object.prototype].  Whatever the medium answers, the thread switched
    to is the main one, the first of [threadIds], and has a runtime, while the two lists and the records are as before; a switch back
    gives the directory it started from.  On a medium that accepts the writes
    both calls return, each persists the directory and notifies once. *)
Theorem switchToThread_there_and_back (id : string) (c : Core) :
  inherited id = false →
  inherited (_mainThreadId c) = false →
  id ≠ _mainThreadId c →
  id ≠ "" →
  has_metadata id c = true →
  id ∉ _archivedThreadIds c →
  _mainThreadId c ≠ "" →
  has_metadata (_mainThreadId c) c = true →
  _mainThreadId c ∉ _archivedThreadIds c →
  let there := switchToThread id c in
  let back := switchToThread (_mainThreadId c) (snd there) in
  directory (snd there)
  = (id, _threadIds c, _archivedThreadIds c, _threadMetadata c)
  ∧ (∃ rest, threadIds (snd there) = id :: rest)
  ∧ is_Some (_threadRuntimeInstances (snd there) !! id)
  ∧ directory (snd back) = directory c
  ∧ is_Some (_threadRuntimeInstances (snd back) !! _mainThreadId c)
  ∧ (reliable (storage c) = true →
     fst there = Returned tt
     ∧ persisted (snd there) (storage (snd there))
     ∧ fst back = Returned tt
     ∧ persisted (snd back) (storage (snd back))
     ∧ notifications (snd back) = S (S (notifications c))).
Proof.
  intros _ _ Hdiff Hne Hk Ha Hmne Hmk Hma there back.
  assert (Hdiff' : _mainThreadId c ≠ id) by done.
  assert (Hthere : there
    = (getOrCreateThreadRuntime id ≫= λ _, persistState) (set_mainThreadId id c))
    by (by apply switchToThread_regular_run).
  destruct (make_main_ends id (set_mainThreadId id c) Hne Hk)
    as (Hdir1 & Hreg1 & Hrel1).
  rewrite <- Hthere in Hdir1, Hreg1, Hrel1. simpl in Hrel1.
  unfold directory in Hdir1. simpl in Hdir1.
  injection Hdir1 as Hm1 Hi1 Ha1 Hmd1.
  assert (Hk2 : has_metadata (_mainThreadId c) (snd there) = true).
  { erewrite has_metadata_eq; [exact Hmk|done|done]. }
  assert (Hback : back
    = (getOrCreateThreadRuntime (_mainThreadId c) ≫= λ _, persistState)
        (set_mainThreadId (_mainThreadId c) (snd there))).
  { subst back. apply switchToThread_regular_run; [by rewrite Hm1|done|].
    by rewrite Ha1. }
  destruct (make_main_ends (_mainThreadId c)
              (set_mainThreadId (_mainThreadId c) (snd there)) Hmne Hk2)
    as (Hdir2 & Hreg2 & Hrel2).
  rewrite <- Hback in Hdir2, Hreg2, Hrel2. simpl in Hrel2.
  split; [unfold directory; by rewrite Hm1, Hi1, Ha1, Hmd1|]. split.
  { destruct (threadIds_main_first (snd there)) as (rest & Hr & _).
    exists rest. by rewrite Hr, Hm1. }
  split; [done|]. split.
  { rewrite Hdir2. unfold directory. simpl. by rewrite Hi1, Ha1, Hmd1. }
  split; [done|]. intros Hrel.
  destruct (Hrel1 Hrel) as (Hret1 & Hrel' & Hp1 & Hn1).
  destruct (Hrel2 Hrel') as (Hret2 & _ & Hp2 & Hn2).
  rewrite Hn2, Hn1. done.
Qed.

(** ** What [load] cannot read *)

Section LoadNull.
Context `{DateText}.

Lemma prop_nullish v k : nullish v = true → prop v k = Undefined.
Proof. by destruct v. Qed.

Lemma rehydrate_None entry :
rehydrate entry = None ↔ nullish (prop entry "message") = true.
Proof.
unfold rehydrate. split.
- destruct entry; try done; destruct (prop _ "message"); done.
- intros Hn.
  destruct entry; try done; destruct (prop _ "message"); done.
Qed.

Lemma mapM_rehydrate_None entries :
mapM rehydrate entries = None
↔ Exists (λ entry, nullish (prop entry "message") = true) entries.
Proof.
induction entries as [|entry entries IH].
- split; [done|]. by intros ?%Exists_nil.
- rewrite mapM_rehydrate_cons, Exists_cons, <- IH, <- rehydrate_None.
  destruct (rehydrate entry) as [n|]; simpl; [|split; auto].
  destruct (mapM rehydrate entries); simpl.
  + split; [done|]. by intros [?|?].
  + split; auto.
Qed.

Lemma rehydrate_history_None doc : rehydrate_history doc = None ↔ unreadable doc.
Proof.
unfold unreadable.
destruct (prop doc "messages") as [| | | | | |entries|] eqn:Hm.
1-6,8: split; [by intros _ ? ?|intros _; unfold rehydrate_history;
               destruct doc; try done; by rewrite Hm].
assert (Hr : rehydrate_history doc
             = (mapM rehydrate entries ≫= λ rehydratedMessages,
                  Some {| messages := rehydratedMessages;
                          headId := prop doc "headId" |})).
{ unfold rehydrate_history. destruct doc; try done; by rewrite Hm. }
rewrite Hr. split.
- intros Hnone entries' [= <-]. apply mapM_rehydrate_None.
  by destruct (mapM rehydrate entries).
- intros Hbad. specialize (Hbad entries eq_refl).
  apply mapM_rehydrate_None in Hbad. by rewrite Hbad.
Qed.

(** When [load] answers [null].  [load] returns and leaves [localStorage] as
  it is.  It answers [null] in silence when nothing, or the empty string,
  is stored under the key; it answers [null] and writes one error line to
  the console when what is stored is not JSON, or is a document whose
  [messages] is no array or holds an entry without a message; in every
  other case it answers a tree and writes nothing. *)
Theorem load_answers_null_iff (this : LocalStorageHistoryAdapter) (b : Browser) :
localStorage (snd (load this b)) = localStorage b
∧ match items (localStorage b) !! storageKey this with
  | None | Some (NotJson "") => load this b = (Returned None, b)
  | Some (NotJson _) =>
      load this b
      = (Returned None, console_write (LoadError (adapter_threadId this)) b)
  | Some (Json doc) =>
      (unreadable doc →
       load this b
       = (Returned None, console_write (LoadError (adapter_threadId this)) b))
      ∧ (¬ unreadable doc →
         ∃ T, load this b = (Returned (Some T), b)
              ∧ length (messages T)
                = match prop doc "messages" with
                  | Arr entries => length entries
                  | _ => 0
                  end)
  end.
Proof.
unfold load.
destruct (items (localStorage b) !! storageKey this) as [[doc|s]|] eqn:Hitem;
  [|by destruct s|done].
destruct (rehydrate_history doc) as [T|] eqn:Hr.
- split; [done|]. split.
  + intros Hbad%rehydrate_history_None. congruence.
  + intros _. exists T. split; [done|].
    unfold rehydrate_history in Hr.
    destruct (prop doc "messages") as [| | | | | |entries|] eqn:Hm;
      try (destruct doc; done).
    assert (Hmap : (mapM rehydrate entries ≫= λ rehydratedMessages,
                      Some {| messages := rehydratedMessages;
                              headId := prop doc "headId" |}) = Some T)
      by (destruct doc; done).
    destruct (mapM rehydrate entries) as [nodes|] eqn:Hnodes; [|done].
    simpl in Hmap. injection Hmap as <-. simpl.
    apply length_mapM in Hnodes. done.
- split; [done|]. split; [done|].
  intros Hgood. exfalso. by apply Hgood, rehydrate_history_None.
Qed.
End LoadNull.

(** ** The default thread's record, made by the registry *)

(** The directory of the default thread alone, with its runtime. *)
Lemma default_alone_well_formed r ls n :
  well_formed
    {| _mainThreadId := DEFAULT_THREAD_ID;
       _threadIds := [DEFAULT_THREAD_ID];
       _archivedThreadIds := [];
       _threadMetadata := <[DEFAULT_THREAD_ID := DEFAULT_THREAD_METADATA]> ∅;
       _threadRuntimeInstances := <[DEFAULT_THREAD_ID := r]> ∅;
       factoryCalls := [DEFAULT_THREAD_ID];
       storage := ls;
       notifications := n |}.
Proof.
  split.
  - simpl. repeat split.
    + rewrite lookup_insert_eq. by eexists.
    + apply not_elem_of_nil.
    + apply NoDup_singleton.
    + apply NoDup_nil_2.
    + intros ->%list_elem_of_singleton. rewrite lookup_insert_eq. by eexists.
    + intros [m [Hm Hs]]. apply list_elem_of_singleton.
      destruct (decide (id = DEFAULT_THREAD_ID)) as [->|Hne0]; [done|].
      by rewrite lookup_insert_ne, lookup_empty in Hm.
    + by intros ?%elem_of_nil.
    + intros [m [Hm Hs]].
      destruct (decide (id = DEFAULT_THREAD_ID)) as [->|Hne0].
      * rewrite lookup_insert_eq in Hm. by simplify_eq.
      * by rewrite lookup_insert_ne, lookup_empty in Hm.
  - intros id. unfold registry_consistent_at, instances_made. simpl.
    destruct (decide (id = DEFAULT_THREAD_ID)) as [->|Hne0].
    + by rewrite lookup_insert_eq.
    + rewrite lookup_insert_ne, lookup_empty by done.
      rewrite filter_cons, decide_False by done. done.
Qed.

(** [getMainThreadRuntimeCore] when the default thread is the main one and
    has neither a record nor a runtime, the state the constructor leaves on
    an empty medium.  Whatever the medium answers the default thread gets
    the default record and is on the regular list, the rest of the directory
    staying as it is.  On a medium that accepts the writes the call returns
    the factory's next runtime, made for the default id, and the directory is
    persisted; in a process started on an empty medium the directory is then
    in order.  When the medium refuses the first write, the call throws what
    the medium threw and no runtime is made. *)
Theorem registry_makes_default_record (c : Core) :
  _mainThreadId c = DEFAULT_THREAD_ID →
  has_metadata DEFAULT_THREAD_ID c = false →
  _threadRuntimeInstances c !! DEFAULT_THREAD_ID = None →
  let got := getMainThreadRuntimeCore c in
  directory (snd got)
  = (DEFAULT_THREAD_ID,
     (if includes DEFAULT_THREAD_ID (_threadIds c) then _threadIds c
      else DEFAULT_THREAD_ID :: _threadIds c),
     _archivedThreadIds c,
     <[DEFAULT_THREAD_ID := DEFAULT_THREAD_METADATA]> (_threadMetadata c))
  ∧ (reliable (storage c) = true →
     (∃ r, fst got = Returned r
           ∧ runtime_threadId r = DEFAULT_THREAD_ID
           ∧ storageKey (runtime_history r) = history_key DEFAULT_THREAD_ID
           ∧ serial r = length (factoryCalls c)
           ∧ _threadRuntimeInstances (snd got)
             = <[DEFAULT_THREAD_ID := r]> (_threadRuntimeInstances c))
     ∧ persisted (snd got) (storage (snd got))
     ∧ notifications (snd got) = S (notifications c))
  ∧ (accepts_next (storage c) = false →
     (∃ e, fst got = Thrown (DOM e))
     ∧ made (snd got) = made c)
  ∧ (c = started → well_formed (snd got)).
Proof.
  intros Hmain Hk Hri got.
  assert (Hstarted : c = started → well_formed (snd got)).
  { intros ->. subst got.
    apply (well_formed_memory _ _
             (eq_refl : memory
                {| _mainThreadId := DEFAULT_THREAD_ID;
                   _threadIds := [DEFAULT_THREAD_ID];
                   _archivedThreadIds := [];
                   _threadMetadata :=
                     <[DEFAULT_THREAD_ID := DEFAULT_THREAD_METADATA]> ∅;
                   _threadRuntimeInstances :=
                     <[DEFAULT_THREAD_ID :=
                         {| runtime_threadId := DEFAULT_THREAD_ID;
                            runtime_history :=
                              {| adapter_threadId := DEFAULT_THREAD_ID;
                                 storageKey := history_key DEFAULT_THREAD_ID |};
                            serial := 0 |}]> ∅;
                   factoryCalls := [DEFAULT_THREAD_ID];
                   storage := empty_storage [];
                   notifications := 0 |}
              = memory (snd (getMainThreadRuntimeCore started)))).
    apply default_alone_well_formed. }
  set (c1 := {| _mainThreadId := _mainThreadId c;
     _threadIds := if includes DEFAULT_THREAD_ID (_threadIds c) then _threadIds c
                   else DEFAULT_THREAD_ID :: _threadIds c;
     _archivedThreadIds := _archivedThreadIds c;
     _threadMetadata :=
       <[DEFAULT_THREAD_ID := DEFAULT_THREAD_METADATA]> (_threadMetadata c);
     _threadRuntimeInstances := _threadRuntimeInstances c;
     factoryCalls := factoryCalls c;
     storage := storage c;
     notifications := notifications c |}).
  assert (Hrun : got
    = match persistState c1 with
      | (Returned _, c2) =>
          let r := {| runtime_threadId := DEFAULT_THREAD_ID;
                      runtime_history :=
                        {| adapter_threadId := DEFAULT_THREAD_ID;
                           storageKey := history_key DEFAULT_THREAD_ID |};
                      serial := length (factoryCalls c2) |} in
          (Returned r,
           {| _mainThreadId := _mainThreadId c2;
              _threadIds := _threadIds c2;
              _archivedThreadIds := _archivedThreadIds c2;
              _threadMetadata := _threadMetadata c2;
              _threadRuntimeInstances :=
                <[DEFAULT_THREAD_ID := r]> (_threadRuntimeInstances c2);
              factoryCalls := factoryCalls c2 ++ [DEFAULT_THREAD_ID];
              storage := storage c2;
              notifications := notifications c2 |})
      | (Thrown e, c2) => (Thrown e, c2)
      end).
  { subst got c1. destruct c as [m i a md reg calls st n]. simpl in *. subst m.
    unfold getMainThreadRuntimeCore, getOrCreateThreadRuntime.
    monad_unfold. simpl. rewrite Hri, Hk. simpl.
    destruct (includes DEFAULT_THREAD_ID i); simpl;
      by destruct (persistState _) as [[[]|e] c2]. }
  rewrite Hrun in *. clear Hrun. clearbody got. clear got.
  destruct (accepts_next (storage c)) eqn:Hacc.
  2:{ destruct (persistState_refused c1 Hacc) as (e & He & Hmem & Hnot).
      destruct (persistState c1) as [[[]|e'] c2]; simpl in *; [done|].
      unfold memory in Hmem. injection Hmem as Hm2 Hi2 Ha2 Hmd2 Hreg2 Hc2.
      split; [unfold directory; by rewrite Hm2, Hi2, Ha2, Hmd2, Hmain|].
      split; [intros Hrel%accepts_reliable; congruence|].
      injection He as ->.
      split; [|done]. intros _. split; [by exists e|].
      unfold made. by rewrite Hreg2, Hc2. }
  revert Hstarted.
  destruct (persistState_result c1) as [ls Hp Hi Hr|e ls Hi Hr]; simpl;
    intros Hstarted.
  - split; [unfold directory; simpl; by rewrite Hmain|].
    split; [|split; [done|]].
    + intros Hrel. split; [by eexists|]. split; [|done].
      destruct Hp as (?&?&?&?). by repeat split.
    + done.
  - split; [unfold directory; simpl; by rewrite Hmain|].
    split; [intros Hrel; simpl in *; congruence|]. split; done.
Qed.

(** ** Unarchiving *)

Lemma unarchive_not_archived id m c :
  _threadMetadata c !! id = Some m →
  id ∉ _archivedThreadIds c →
  unarchive id c = (Returned tt, c).
Proof.
  intros Hm Ha%indexOf_None. unfold unarchive. monad_unfold. simpl.
  by rewrite Hm, Ha.
Qed.

(** The first occurrence of an element, and the list around it. *)
Lemma indexOf_split (x : string) l i :
  indexOf x l = Some i →
  l = take i l ++ x :: drop (S i) l
  ∧ (x ∉ take i l)
  ∧ delete i l = take i l ++ drop (S i) l.
Proof.
  intros [Hl Hfirst]%indexOf_Some.
  split; [by rewrite take_drop_middle|]. split; [|apply delete_take_drop].
  intros [j Hj]%list_elem_of_lookup.
  apply lookup_take_Some in Hj as [Hj Hlt]. by apply (Hfirst j Hlt).
Qed.

(** [unarchive] of a thread with a record, from any state and whatever the
    medium answers.  When the id is not on the archived list the call returns
    and changes nothing.  Otherwise the first occurrence of the id is taken
    off the archived list, and no other; the id is on the regular list, put
    last when it was not listed; [getItemById] gives its record with the
    status regular, and the records of the others as before; the main id
    stays.  When the archived list names no id twice, the id is then gone
    from [archivedThreadIds] and shown by [threadIds], and a second
    [unarchive] returns and changes nothing.  On a medium that accepts the
    writes the call returns and the directory is persisted. *)
Theorem unarchive_takes_first_occurrence (id : string) (m : Metadata)
    (c : Core) :
  _threadMetadata c !! id = Some m →
  let unarchived := unarchive id c in
  (id ∉ _archivedThreadIds c → unarchived = (Returned tt, c))
  ∧ (id ∈ _archivedThreadIds c →
     (∃ before after,
        _archivedThreadIds c = before ++ id :: after
        ∧ (id ∉ before)
        ∧ _archivedThreadIds (snd unarchived) = before ++ after)
     ∧ _threadIds (snd unarchived)
       = (if includes id (_threadIds c) then _threadIds c
          else _threadIds c ++ [id])
     ∧ getItemById id (snd unarchived)
       = Some ({| threadId := threadId m; status := Regular; title := title m |},
               None)
     ∧ (∀ other, other ≠ id →
          getItemById other (snd unarchived) = getItemById other c)
     ∧ _mainThreadId (snd unarchived) = _mainThreadId c
     ∧ (NoDup (_archivedThreadIds c) →
        (id ∉ archivedThreadIds (snd unarchived))
        ∧ id ∈ threadIds (snd unarchived)
        ∧ unarchive id (snd unarchived) = (Returned tt, snd unarchived))
     ∧ (reliable (storage c) = true →
        fst unarchived = Returned tt
        ∧ persisted (snd unarchived) (storage (snd unarchived)))).
Proof.
  intros Hm unarchived. subst unarchived.
  split; [by apply (unarchive_not_archived id m)|].
  intros [i Hi]%elem_of_indexOf.
  rewrite (unarchive_run id m i c Hm Hi).
  match goal with |- context [persistState ?s] =>
    destruct (persistState_commits_or_throws_aux s) as (Hmem & _ & Hrel);
    generalize dependent (persistState s)
  end.
  intros [o c'] Hmem Hrel. simpl in *.
  unfold memory in Hmem. simpl in Hmem.
  injection Hmem as Hmain Hids Harch Hmeta _ _.
  destruct (indexOf_split id _ i Hi) as (Hsplit & Hbefore & Hdel).
  assert (Hin : id ∈ _threadIds c').
  { rewrite Hids. destruct (includes id (_threadIds c)) eqn:Hl.
    - by apply includes_true.
    - apply elem_of_app. right. by apply list_elem_of_singleton. }
  split.
  { exists (take i (_archivedThreadIds c)), (drop (S i) (_archivedThreadIds c)).
    split; [done|]. split; [done|]. by rewrite Harch. }
  split; [done|]. split.
  { unfold getItemById. by rewrite Hmeta, lookup_insert_eq. }
  split.
  { intros other Hne. unfold getItemById. by rewrite Hmeta, lookup_insert_ne. }
  split; [done|]. split.
  - intros Hnd.
    assert (Hgone : id ∉ _archivedThreadIds c').
    { rewrite Harch. apply delete_first_NoDup; [done|].
      by apply indexOf_Some in Hi as [? _]. }
    split; [done|]. split.
    + destruct (threadIds_main_first c') as (rest & Heq & _ & Hrest).
      rewrite Heq. destruct (decide (id = _mainThreadId c')) as [->|Hne].
      * apply elem_of_cons. by left.
      * apply elem_of_cons. right. by apply Hrest.
    + apply (unarchive_not_archived id (with_status Regular m)); [|done].
      by rewrite Hmeta, lookup_insert_eq.
  - intros Hr. destruct (Hrel Hr) as (? & ? & _). done.
Qed.

(** ** More instances *)

(** Thread [a] of a fresh process, deleted. *)
Lemma delete_removes_thread_example :
  inherited "a" = false
  ∧ "a" ≠ _mainThreadId with_thread_a
  ∧ has_metadata "a" with_thread_a = true
  ∧ _threadMetadata (snd (delete_thread "a" with_thread_a))
    = delete "a" (_threadMetadata with_thread_a)
  ∧ _threadIds (snd (delete_thread "a" with_thread_a))
    = without "a" (_threadIds with_thread_a).
Proof.
  assert (H1 : "a" ≠ _mainThreadId with_thread_a) by (by vm_compute).
  assert (H2 : has_metadata "a" with_thread_a = true) by reflexivity.
  split; [reflexivity|]. split; [exact H1|]. split; [exact H2|].
  destruct (proj2 (delete_removes_thread "a" with_thread_a eq_refl H1) H2)
    as (Hmd & Hids & _).
  split; [exact Hmd|exact Hids].
Defined.

(** A save for thread [t1] beside the stored history of thread [t2]. *)
Lemma histories_do_not_interfere_example :
  new_LocalStorageHistoryAdapter "t1" = Returned example_adapter
  ∧ new_LocalStorageHistoryAdapter "t2" = Returned second_adapter
  ∧ "t1" ≠ "t2"
  ∧ (let b := snd (saveFullHistory second_adapter (Some edited_tree)
                     (example_browser [])) in
     fst (load second_adapter
            (snd (saveFullHistory example_adapter (Some example_tree) b)))
     = fst (load second_adapter b)).
Proof.
  assert (H1 : new_LocalStorageHistoryAdapter "t1" = Returned example_adapter)
    by reflexivity.
  assert (H2 : new_LocalStorageHistoryAdapter "t2" = Returned second_adapter)
    by reflexivity.
  assert (H3 : "t1" ≠ "t2") by (by vm_compute).
  split; [exact H1|]. split; [exact H2|]. split; [exact H3|].
  intros b.
  exact (proj2 (proj2 (proj2 (proj2
    (histories_do_not_interfere "t1" "t2" example_adapter second_adapter
       (Some example_tree) b H1 H2 H3))))).
Defined.

(** A refused save followed by an accepted one. *)
Lemma saveFullHistory_last_wins_example :
  (let first := snd (saveFullHistory example_adapter (Some edited_tree)
                       (example_browser [Some QuotaExceededError])) in
   accepts_next (localStorage first) = true
   ∧ well_formed_tree example_tree = true
   ∧ fst (load example_adapter
            (snd (saveFullHistory example_adapter (Some example_tree) first)))
     = Returned (Some example_tree)).
Proof.
  intros first.
  assert (H1 : accepts_next (localStorage first) = true) by reflexivity.
  assert (H2 : well_formed_tree example_tree = true) by reflexivity.
  split; [exact H1|]. split; [exact H2|].
  exact (proj2 (proj2
    (saveFullHistory_last_wins example_adapter edited_tree example_tree
       (example_browser [Some QuotaExceededError]) H1)) H2).
Defined.


(** The runtime of thread [a], asked for twice. *)
Lemma getThreadRuntimeCore_memoized_example :
  inherited "a" = false
  ∧ fst (getThreadRuntimeCore "a" with_thread_a) = Returned runtime_a
  ∧ getThreadRuntimeCore "a" with_runtime_a = (Returned runtime_a, with_runtime_a).
Proof.
  assert (H1 : fst (getThreadRuntimeCore "a" with_thread_a) = Returned runtime_a)
    by reflexivity.
  split; [reflexivity|]. split; [exact H1|].
  exact (proj1 (getThreadRuntimeCore_memoized "a" with_thread_a runtime_a eq_refl H1)).
Defined.

(** Thread [a], deleted with its runtime and initialized again. *)
Lemma deleted_thread_keeps_runtime_example :
  "a" ≠ _mainThreadId with_runtime_a
  ∧ has_metadata "a" with_runtime_a = true
  ∧ _threadRuntimeInstances with_runtime_a !! "a" = Some runtime_a
  ∧ (let again := snd (initialize "a" (snd (delete_thread "a" with_runtime_a))) in
     getThreadRuntimeCore "a" again = (Returned runtime_a, again)).
Proof.
  assert (H1 : "a" ≠ _mainThreadId with_runtime_a) by (by vm_compute).
  assert (H2 : has_metadata "a" with_runtime_a = true) by reflexivity.
  assert (H3 : _threadRuntimeInstances with_runtime_a !! "a" = Some runtime_a)
    by reflexivity.
  split; [exact H1|]. split; [exact H2|]. split; [exact H3|].
  intros again.
  exact (proj1 (proj2 (proj2 (proj2
    (deleted_thread_keeps_runtime "a" runtime_a with_runtime_a H1 H2 H3))))).
Defined.

(** The title generated for the new thread [a]. *)
Lemma generateTitle_settles_example :
  ascii_only (String.substring 0 5 "a") = true
  ∧ _threadMetadata with_thread_a !! "a"
  = Some {| threadId := "a"; status := Regular; title := "New Thread" |}
  ∧ generateTitle "a" (snd (generateTitle "a" with_thread_a))
    = (Returned tt, snd (generateTitle "a" with_thread_a)).
Proof.
  assert (H1 : _threadMetadata with_thread_a !! "a"
    = Some {| threadId := "a"; status := Regular; title := "New Thread" |})
    by reflexivity.
  split; [reflexivity|]. split; [exact H1|].
  exact (proj1 (proj2 (generateTitle_settles "a" _ with_thread_a eq_refl H1))).
Defined.

(** The directory with thread [a], persisted and loaded again. *)
Lemma reload_reads_what_was_persisted_example :
  fst (persistState with_thread_a) = Returned tt
  ∧ histories (loadThreadsFromLocalStorage
                 (storage (snd (persistState with_thread_a))))
    = histories with_thread_a.
Proof.
  assert (H1 : fst (persistState with_thread_a) = Returned tt) by reflexivity.
  split; [exact H1|].
  exact (proj1 (proj2 (reload_reads_what_was_persisted with_thread_a H1))).
Defined.

(** The default thread deleted while thread [a] is the main one. *)
Lemma default_thread_comes_back_example :
  _mainThreadId switched_to_a = "a"
  ∧ has_metadata DEFAULT_THREAD_ID switched_to_a = true
  ∧ reliable (storage switched_to_a) = true
  ∧ fst (new_LocalThreadListRuntimeCore
           (storage (snd (delete_thread DEFAULT_THREAD_ID switched_to_a))))
    = Returned tt.
Proof.
  assert (H0 : _mainThreadId switched_to_a = "a") by reflexivity.
  assert (H1 : _mainThreadId switched_to_a ≠ DEFAULT_THREAD_ID)
    by (by vm_compute).
  assert (H2 : has_metadata DEFAULT_THREAD_ID switched_to_a = true)
    by reflexivity.
  assert (H3 : reliable (storage switched_to_a) = true) by reflexivity.
  split; [exact H0|]. split; [exact H2|]. split; [exact H3|].
  exact (proj1 (proj2 (proj2 (default_thread_comes_back switched_to_a H1 H2 H3)))).
Defined.

(** Thread [a] archived, as the getters show it. *)
Lemma archive_moves_between_getters_example :
  "a" ≠ _mainThreadId with_thread_a
  ∧ _threadMetadata with_thread_a !! "a"
    = Some {| threadId := "a"; status := Regular; title := "New Thread" |}
  ∧ ("a" ∉ _archivedThreadIds with_thread_a)
  ∧ threadIds (snd (archive "a" with_thread_a))
    = without "a" (threadIds with_thread_a).
Proof.
  assert (H1 : "a" ≠ _mainThreadId with_thread_a) by (by vm_compute).
  assert (H2 : _threadMetadata with_thread_a !! "a"
    = Some {| threadId := "a"; status := Regular; title := "New Thread" |})
    by reflexivity.
  assert (H3 : "a" ∉ _archivedThreadIds with_thread_a)
    by (vm_compute; apply not_elem_of_nil).
  split; [exact H1|]. split; [exact H2|]. split; [exact H3|].
  exact (proj1 (archive_moves_between_getters "a" _ with_thread_a H1 H2 H3)).
Defined.

(** A switch to the new thread [b]. *)
Lemma switchToNewThread_makes_main_example :
  inherited "b" = false
  ∧ has_metadata "b" with_thread_a = false
  ∧ "b" ≠ ""
  ∧ _threadIds (snd (switchToNewThread "b" with_thread_a))
    = (if includes "b" (_threadIds with_thread_a) then _threadIds with_thread_a
       else _threadIds with_thread_a ++ ["b"]).
Proof.
  assert (H1 : has_metadata "b" with_thread_a = false) by reflexivity.
  assert (H2 : "b" ≠ "") by (by vm_compute).
  split; [reflexivity|]. split; [exact H1|]. split; [exact H2|].
  exact (proj1 (proj2 (switchToNewThread_makes_main "b" with_thread_a eq_refl H1 H2))).
Defined.

(** A switch to thread [a] and back to the default thread. *)
Lemma switchToThread_there_and_back_example :
  inherited "a" = false
  ∧ inherited (_mainThreadId with_thread_a) = false
  ∧ "a" ≠ _mainThreadId with_thread_a
  ∧ "a" ≠ ""
  ∧ has_metadata "a" with_thread_a = true
  ∧ ("a" ∉ _archivedThreadIds with_thread_a)
  ∧ _mainThreadId with_thread_a ≠ ""
  ∧ has_metadata (_mainThreadId with_thread_a) with_thread_a = true
  ∧ (_mainThreadId with_thread_a ∉ _archivedThreadIds with_thread_a)
  ∧ directory (snd (switchToThread (_mainThreadId with_thread_a)
                      (snd (switchToThread "a" with_thread_a))))
    = directory with_thread_a.
Proof.
  assert (H1 : "a" ≠ _mainThreadId with_thread_a) by (by vm_compute).
  assert (H2 : "a" ≠ "") by (by vm_compute).
  assert (H3 : has_metadata "a" with_thread_a = true) by reflexivity.
  assert (H4 : "a" ∉ _archivedThreadIds with_thread_a)
    by (vm_compute; apply not_elem_of_nil).
  assert (H5 : _mainThreadId with_thread_a ≠ "") by (by vm_compute).
  assert (H6 : has_metadata (_mainThreadId with_thread_a) with_thread_a = true)
    by reflexivity.
  assert (H7 : _mainThreadId with_thread_a ∉ _archivedThreadIds with_thread_a)
    by (vm_compute; apply not_elem_of_nil).
  split; [reflexivity|]. split; [reflexivity|].
  split; [exact H1|]. split; [exact H2|]. split; [exact H3|].
  split; [exact H4|]. split; [exact H5|]. split; [exact H6|]. split; [exact H7|].
  exact (proj1 (proj2 (proj2 (proj2
    (switchToThread_there_and_back "a" with_thread_a eq_refl eq_refl
       H1 H2 H3 H4 H5 H6 H7))))).
Defined.

(** The first runtime of a process started on an empty medium. *)
Lemma registry_makes_default_record_example :
  _mainThreadId started = DEFAULT_THREAD_ID
  ∧ has_metadata DEFAULT_THREAD_ID started = false
  ∧ _threadRuntimeInstances started !! DEFAULT_THREAD_ID = None
  ∧ well_formed (snd (getMainThreadRuntimeCore started)).
Proof.
  assert (H1 : _mainThreadId started = DEFAULT_THREAD_ID) by reflexivity.
  assert (H2 : has_metadata DEFAULT_THREAD_ID started = false) by reflexivity.
  assert (H3 : _threadRuntimeInstances started !! DEFAULT_THREAD_ID = None)
    by reflexivity.
  split; [exact H1|]. split; [exact H2|]. split; [exact H3|].
  exact (proj2 (proj2 (proj2 (registry_makes_default_record started H1 H2 H3)))
           eq_refl).
Defined.

(** The archived thread [a], unarchived. *)
Lemma unarchive_takes_first_occurrence_example :
  _threadMetadata with_archived_a !! "a"
  = Some {| threadId := "a"; status := Archived; title := "New Thread" |}
  ∧ "a" ∈ _archivedThreadIds with_archived_a
  ∧ _threadIds (snd (unarchive "a" with_archived_a))
    = (if includes "a" (_threadIds with_archived_a)
       then _threadIds with_archived_a
       else _threadIds with_archived_a ++ ["a"]).
Proof.
  assert (H1 : _threadMetadata with_archived_a !! "a"
    = Some {| threadId := "a"; status := Archived; title := "New Thread" |})
    by reflexivity.
  assert (H2 : "a" ∈ _archivedThreadIds with_archived_a)
    by (vm_compute; apply list_elem_of_here).
  split; [exact H1|]. split; [exact H2|].
  exact (proj1 (proj2
    (proj2 (unarchive_takes_first_occurrence "a" _ with_archived_a H1) H2))).
Defined.

(** Thread [a] renamed. *)
Lemma rename_changes_title_only_example :
  inherited "a" = false
  ∧ _threadMetadata (snd (rename "a" "Notes" with_thread_a)) !! "a"
    = Some {| threadId := "a"; status := Regular; title := "Notes" |}
  ∧ rename "b" "Notes" with_thread_a
    = (Thrown (NotFound "Thread b not found, cannot rename."), with_thread_a).
Proof.
  split; [reflexivity|]. split.
  - exact (proj1 (rename_changes_title_only "a" "Notes" with_thread_a eq_refl)).
  - exact (rename_changes_title_only "b" "Notes" with_thread_a eq_refl).
Defined.

(** The first read of [mainThreadId] in a process started on an empty
    medium. *)
Lemma mainThreadId_mends_main_example :
  inherited (_mainThreadId started) = false
  ∧ has_metadata (_mainThreadId (snd (mainThreadId started)))
      (snd (mainThreadId started)) = true.
Proof.
  split; [reflexivity|].
  exact (proj1 (mainThreadId_mends_main started eq_refl)).
Defined.

(** The constructor on an empty medium. *)
Lemma constructor_misses_main_record_iff_example :
  inherited (load_mainThreadId (empty_storage [])) = false
  ∧ _mainThreadId started = DEFAULT_THREAD_ID.
Proof.
  split; [reflexivity|].
  exact (proj1 (proj2 (constructor_misses_main_record_iff (empty_storage [])
                         eq_refl) eq_refl)).
Defined.
